(** * Review and revision workflow of the Raivcoo review app

    A shallow embedding of the server actions of the review page
    (app/review/[trackId]/actions.ts), of the project dashboard
    (app/dashboard/projects/[id]/actions.ts) and of the link helpers that
    sit next to the shared types, followed by the properties of the
    workflow specification that were checked against them. *)

From Stdlib Require Import String Ascii NArith ZArith QArith Lia Sorted.
From Stdlib Require Import DecimalNat.
From stdpp Require Import base option list gmap strings pretty.

Local Open Scope string_scope.
Local Open Scope nat_scope.
Local Open Scope list_scope.

(* ===================================================================== *)
(** * Link encoder *)
(* ===================================================================== *)

Module LinkEncoder.

(** A JavaScript string is a sequence of UTF-16 code units. *)
Abbreviation code_unit := N (only parsing).
Abbreviation jstring := (list N) (only parsing).

(** String literals of the source, as code units. *)
Definition lit (s : string) : jstring :=
  map N_of_ascii (list_ascii_of_string s).

Fixpoint starts_with (p s : jstring) : bool :=
  match p, s with
  | [], _ => true
  | a :: p', b :: s' => (a =? b)%N && starts_with p' s'
  | _ :: _, [] => false
  end.

(** The class [\s] of a regular expression without the [u] flag. *)
Definition is_space (c : code_unit) : bool :=
  bool_decide (c ∈ [9; 10; 11; 12; 13; 32; 160; 5760; 8232; 8233; 8239;
                    8287; 12288; 65279]%N)
  || ((8192 <=? c)%N && (c <=? 8202)%N).

(** The negated class of the URL pattern: no white space, no [<] (60),
    no [>] (62), no double quote (34). *)
Definition url_char (c : code_unit) : bool :=
  negb (is_space c) && negb (bool_decide (c ∈ [60; 62; 34]%N)).

(** The class [\d]. *)
Definition is_digit (c : code_unit) : bool :=
  (48 <=? c)%N && (c <=? 57)%N.

Fixpoint take_while (p : code_unit → bool) (s : jstring) : jstring :=
  match s with
  | c :: s' => if p c then c :: take_while p s' else []
  | [] => []
  end.

(** [https?:\/\/] at the head of [s]: the length of the scheme. *)
Definition scheme_at (s : jstring) : option nat :=
  if starts_with (lit "https://") s then Some 8
  else if starts_with (lit "http://") s then Some 7
  else None.

(** The URL pattern (scheme, then one or more characters of the class)
    anchored at the head of [s]: the length of the match.  The class is
    greedy and nothing follows it, so the match is the scheme and the
    longest run of class characters, at least one. *)
Definition url_at (s : jstring) : option nat :=
  match scheme_at s with
  | Some k =>
      match length (take_while url_char (drop k s)) with
      | O => None
      | S n => Some (k + S n)
      end
  | None => None
  end.

(** The text cut by the global scan of the regular expression: a character
    that starts no match, or one match.  [skip] counts the characters of a
    match still to be stepped over. *)
Inductive token :=
| Gap (c : code_unit)
| Url (u : jstring).

Fixpoint tokenize (skip : nat) (s : jstring) : list token :=
  match s with
  | [] => []
  | c :: s' =>
      match skip with
      | S k => tokenize k s'
      | O =>
          match url_at s with
          | Some n => Url (take n s) :: tokenize (n - 1) s'
          | None => Gap c :: tokenize 0 s'
          end
      end
  end.

(** [match.index] and [match[0]] of every match, in order. *)
Fixpoint matches_of (pos : nat) (toks : list token) : list (nat * jstring) :=
  match toks with
  | [] => []
  | Gap _ :: r => matches_of (S pos) r
  | Url u :: r => (pos, u) :: matches_of (pos + length u) r
  end.

(** [Array.from(text.matchAll(urlRegex))]. *)
Definition matchAll (t : jstring) : list (nat * jstring) :=
  matches_of 0 (tokenize 0 t).

(** [s.substring(a, b)] for [a <= b]; a negative [a] is clamped to 0 by
    JavaScript, as is the truncated subtraction of [nat]. *)
Definition substring (a b : nat) (s : jstring) : jstring :=
  take (b - a) (drop a s).

(** [s.replace(pat, rep)] with a string pattern: the first occurrence only.
    [rep] holds no [$], so it is inserted as it is. *)
Fixpoint replace_first (pat rep s : jstring) : jstring :=
  match s with
  | [] => if starts_with pat [] then rep else []
  | c :: s' =>
      if starts_with pat s then rep ++ drop (length pat) s
      else c :: replace_first pat rep s'
  end.

Record Link := mkLink { url : jstring; text : jstring }.

Global Instance Link_eq_dec : EqDecision Link.
Proof. solve_decision. Defined.

(** [links.findIndex((link) => link.url === url)]; [None] is [-1]. *)
Fixpoint findIndex (u : jstring) (links : list Link) : option nat :=
  match links with
  | [] => None
  | l :: r => if bool_decide (url l = u) then Some 0 else S <$> findIndex u r
  end.

Fixpoint uint_codes (d : Decimal.uint) : jstring :=
  match d with
  | Decimal.Nil => []
  | Decimal.D0 d => 48%N :: uint_codes d
  | Decimal.D1 d => 49%N :: uint_codes d
  | Decimal.D2 d => 50%N :: uint_codes d
  | Decimal.D3 d => 51%N :: uint_codes d
  | Decimal.D4 d => 52%N :: uint_codes d
  | Decimal.D5 d => 53%N :: uint_codes d
  | Decimal.D6 d => 54%N :: uint_codes d
  | Decimal.D7 d => 55%N :: uint_codes d
  | Decimal.D8 d => 56%N :: uint_codes d
  | Decimal.D9 d => 57%N :: uint_codes d
  end.

(** The decimal text of an index, as a template literal prints it. *)
Definition show_nat (n : nat) : jstring := uint_codes (Nat.to_uint n).

(** [`[LINK:${existingLinkIndex}]`]. *)
Definition placeholder (i : nat) : jstring :=
  lit "[LINK:" ++ show_nat i ++ lit "]".

(** The body of [urlMatches.forEach]. *)
Definition extract_step (orig : jstring) (acc : jstring * list Link)
    (m : nat * jstring) : jstring * list Link :=
  let '(processedText, links) := acc in
  let '(index, u) := m in
  if bool_decide (substring (index - 6) index orig = lit "[LINK:") then acc
  else
    match findIndex u links with
    | Some i => (replace_first u (placeholder i) processedText, links)
    | None =>
        (replace_first u (placeholder (length links)) processedText,
         links ++ [mkLink u u])
    end.

(** [detectAndExtractLinks] of the shared helpers; the review actions carry
    a copy of it. *)
Definition detectAndExtractLinks (t : jstring) : jstring * list Link :=
  foldl (extract_step t) (t, []) (matchAll t).

(** [parseInt(indexStr, 10)] on a run of digits. *)
Definition parseInt (ds : jstring) : nat :=
  foldl (λ acc c, 10 * acc + (N.to_nat c - 48)) 0 ds.

(** [/\[LINK:(\d+)\]/] anchored at the head of [s]: the index and the length
    of the match. *)
Definition placeholder_at (s : jstring) : option (nat * nat) :=
  if starts_with (lit "[LINK:") s then
    let ds := take_while is_digit (drop 6 s) in
    match ds, drop (6 + length ds) s with
    | _ :: _, c :: _ =>
        if bool_decide (c = 93%N) then Some (parseInt ds, 7 + length ds)
        else None
    | _, _ => None
    end
  else None.

(** The global replace with its callback: a placeholder whose index names a
    link with a non-empty url becomes that url, any other is kept. *)
Fixpoint replace_placeholders (links : list Link) (skip : nat) (s : jstring)
    : jstring :=
  match s with
  | [] => []
  | c :: s' =>
      match skip with
      | S k => replace_placeholders links k s'
      | O =>
          match placeholder_at s with
          | Some (index, len) =>
              match links !! index with
              | Some l =>
                  match url l with
                  | [] => take len s
                  | _ :: _ => url l
                  end
              | None => take len s
              end ++ replace_placeholders links (len - 1) s'
          | None => c :: replace_placeholders links 0 s'
          end
      end
  end.

(** [renderPlainTextWithUrls]; [None] stands for [undefined]. *)
Definition renderPlainTextWithUrls (rawText : option jstring)
    (links : option (list Link)) : jstring :=
  match rawText with
  | None | Some [] => []
  | Some raw =>
      match links with
      | None | Some [] => raw
      | Some ls => replace_placeholders ls 0 raw
      end
  end.

(** The URLs of a text, with repetitions, in order of appearance. *)
Definition urls (t : jstring) : list jstring := (matchAll t).*2.

(** [t] holds the placeholder prefix nowhere. *)
Definition no_placeholder (t : jstring) : Prop :=
  ∀ k, starts_with (lit "[LINK:") (drop k t) = false.

(** ** The scan as a list of tokens *)

Definition https_scheme : jstring := lit "https://".
Definition http_scheme : jstring := lit "http://".

(** A text that begins as a URL: a scheme and one character of the class. *)
Definition is_url_start (s : jstring) : Prop :=
  ∃ sch c r, (sch = https_scheme ∨ sch = http_scheme)
             ∧ s = sch ++ c :: r ∧ url_char c = true.

Fixpoint flatten (toks : list token) : jstring :=
  match toks with
  | [] => []
  | Gap c :: r => c :: flatten r
  | Url u :: r => u ++ flatten r
  end.

(** A scan: a gap character starts no match, a match begins as a URL. *)
Inductive tokens_ok : list token → Prop :=
| ok_nil : tokens_ok []
| ok_gap c r :
    ¬ is_url_start (c :: flatten r) → tokens_ok r → tokens_ok (Gap c :: r)
| ok_url u r :
    is_url_start u → tokens_ok r → tokens_ok (Url u :: r).

Definition intern (u : jstring) (links : list Link) : nat * list Link :=
  match findIndex u links with
  | Some i => (i, links)
  | None => (length links, links ++ [mkLink u u])
  end.

(** The link table after a scan. *)
Fixpoint collect (links : list Link) (toks : list token) : list Link :=
  match toks with
  | [] => links
  | Gap _ :: r => collect links r
  | Url u :: r => collect (intern u links).2 r
  end.

(** The text after a scan: every match replaced by the placeholder of its
    URL's position in the link table. *)
Fixpoint render (links : list Link) (toks : list token) : jstring :=
  match toks with
  | [] => []
  | Gap c :: r => c :: render links r
  | Url u :: r => placeholder (default 0 (findIndex u links)) ++ render links r
  end.

(** The URLs among the tokens. *)
Fixpoint token_urls (toks : list token) : list jstring :=
  match toks with
  | [] => []
  | Gap _ :: r => token_urls r
  | Url u :: r => u :: token_urls r
  end.

End LinkEncoder.


(* ===================================================================== *)
(** * Data model of the workflow *)
(* ===================================================================== *)

(** A JavaScript number that the store can hold: a finite decimal,
    [mantissa / 10 ^ scale].  Every finite double is one. *)
Module Number.
Record t := mk { mantissa : Z; scale : nat }.

Definition of_Z (z : Z) : t := mk z 0.

Definition value (x : t) : Q :=
  Qmake (mantissa x) (Z.to_pos (10 ^ Z.of_nat (scale x))).

(** [x < 0]. *)
Definition negative (x : t) : bool := (mantissa x <? 0)%Z.

(** [x < y] on the values. *)
Definition ltb (x y : t) : bool :=
  (mantissa x * 10 ^ Z.of_nat (scale y)
   <? mantissa y * 10 ^ Z.of_nat (scale x))%Z.

(** Trailing zeros of the fraction are not printed. *)
Fixpoint normalise (m : Z) (s : nat) : Z * nat :=
  match s with
  | O => (m, O)
  | S s' => if (m mod 10 =? 0)%Z then normalise (m / 10) s' else (m, s)
  end.

Fixpoint zeros (n : nat) : string :=
  match n with O => "" | S n' => "0" +:+ zeros n' end.

(** The text of the number as the store prints a JSON number, which is
    what the operator [->>] extracts. *)
Definition to_text (x : t) : string :=
  let '(m, s) := normalise (mantissa x) (scale x) in
  let a := Z.abs m in
  let p := (10 ^ Z.of_nat s)%Z in
  let whole := pretty (Z.to_N (a / p)) in
  let frac := pretty (Z.to_N (a mod p)) in
  (if (m <? 0)%Z then "-" else "") +:+ whole
  +:+ (match s with
       | O => ""
       | S _ => "." +:+ zeros (s - String.length frac) +:+ frac
       end).
End Number.

(** Text order of the store, by character code. *)
Fixpoint text_leb (a b : string) : bool :=
  match a, b with
  | EmptyString, _ => true
  | String _ _, EmptyString => false
  | String x a', String y b' =>
      if Nat.ltb (nat_of_ascii x) (nat_of_ascii y) then true
      else if Nat.ltb (nat_of_ascii y) (nat_of_ascii x) then false
      else text_leb a' b'
  end.

(** JavaScript truthiness of a string that may be [null] or [undefined]. *)
Definition truthy (s : option string) : bool :=
  match s with
  | Some s => negb (String.eqb s "")
  | None => false
  end.

(** [a || b] on such strings. *)
Definition or_else (a b : option string) : option string :=
  if truthy a then a else b.

Inductive StepStatus := Pending | Completed.
Inductive MediaType := Video | Image.

Global Instance StepStatus_eq_dec : EqDecision StepStatus.
Proof. solve_decision. Defined.
Global Instance MediaType_eq_dec : EqDecision MediaType.
Proof. solve_decision. Defined.

(** [Step.metadata]; [None] is an absent key. *)
Module Metadata.
Record t := mk {
  type : option string;
  comment_id : option string;
  text : option (list N);
  timestamp : option Number.t;
  images : option (list string);
  links : option (list LinkEncoder.Link);
  created_at : option string;
  step_index : option nat
}.

(** The empty object. *)
Definition empty : t := mk None None None None None None None None.

(** [{...a, ...b}]: the keys of [b] win. *)
Definition spread (a b : t) : t :=
  mk (from_option Some (type a) (type b))
     (from_option Some (comment_id a) (comment_id b))
     (from_option Some (text a) (text b))
     (from_option Some (timestamp a) (timestamp b))
     (from_option Some (images a) (images b))
     (from_option Some (links a) (links b))
     (from_option Some (created_at a) (created_at b))
     (from_option Some (step_index a) (step_index b)).
End Metadata.

(** The persisted step.  [deliverable_link] is [None] for [null] and for an
    absent key, which no action tells apart. *)
Module Step.
Record t := mk {
  name : option string;
  status : StepStatus;
  is_final : option bool;
  deliverable_link : option string;
  metadata : option Metadata.t
}.
End Step.

(** A descriptor of [updateTrackStructure]: a step without [status],
    [deliverable_link] and [is_final]. *)
Module StepInfo.
Record t := mk { name : option string; metadata : option Metadata.t }.
End StepInfo.

(** [s.is_final] in a condition. *)
Definition final (s : Step.t) : bool := default false (Step.is_final s).

(** The persisted comment. *)
Module CommentData.
Record t := mk {
  text : list N;
  timestamp : Number.t;
  images : option (list string);
  links : option (list LinkEncoder.Link)
}.
End CommentData.

(** A row of [project_tracks]. *)
Module Track.
Record t := mk {
  id : string;
  project_id : string;
  round_number : nat;
  status : string;
  steps : list Step.t;
  client_decision : string;
  final_deliverable_media_type : option MediaType;
  updated_at : string
}.
End Track.

(** A row of [review_comments]. *)
Module Comment.
Record t := mk {
  id : string;
  track_id : string;
  comment : CommentData.t;
  commenter_name : option string;
  commenter_id : option string;
  created_at : string
}.
End Comment.

(** A row of [projects]. *)
Module Project.
Record t := mk {
  id : string;
  editor_id : string;
  title : string;
  status : string;
  client_name : string;
  password_protected : bool;
  access_password : option string
}.
End Project.

(** A row of [editor_profiles]. *)
Module EditorProfile.
Record t := mk { id : string; user_id : string }.
End EditorProfile.

(** An uploaded file, as far as the actions look at it. *)
Module File.
Record t := mk { name : string; type : string; size : N }.
End File.

(* ===================================================================== *)
(** * The store, the image host and the request environment *)
(* ===================================================================== *)

(** The tables, as bags of rows in insertion order. *)
Record Db := mkDb {
  project_tracks : list Track.t;
  review_comments : list Comment.t;
  projects : list Project.t;
  editor_profiles : list EditorProfile.t
}.

(** What an action can change: the store, and the upload requests that
    have been sent to the image host. *)
Record World := mkWorld { db : Db; requests : list File.t }.

Inductive result (A : Type) :=
| Ok (a : A)
| Err (msg : string).
Arguments Ok {A} a.
Arguments Err {A} msg.

(** What an action reads from outside the source: the session, the clock,
    the image host, and the health and id generation of the store. *)
Record Env := mkEnv {
  session : option string;
  now : string;
  imgbb_key : bool;
  imgbb : File.t → result string;
  write_ok : string → bool;
  store_error : string;
  new_id : string → string
}.

(** An action: it may throw, and it may change the world before it does. *)
Definition M (A : Type) : Type := World → result A * World.

Definition ret {A} (a : A) : M A := λ w, (Ok a, w).
Definition throw {A} (msg : string) : M A := λ w, (Err msg, w).
Definition bind {A B} (c : M A) (k : A → M B) : M B :=
  λ w, match c w with
       | (Ok a, w') => k a w'
       | (Err e, w') => (Err e, w')
       end.

Notation "'do' x <- c ; k" := (bind c (λ x, k))
  (at level 200, x name, c at level 100, k at level 200).
Notation "'throw_if' b 'with' msg ; k" := (if b then throw msg else k)
  (at level 200, b at level 100, msg at level 100, k at level 200).

Definition read_db : M Db := λ w, (Ok (db w), w).

(** A write request; [false] when the store reports an error.  [table] is
    the key under which the environment answers the request: the name of
    the table, but for a request whose outcome an action does not tie to
    that of another request on the same table, which has a key of its
    own. *)
Definition write (env : Env) (table : string) (f : Db → Db) : M bool :=
  λ w, if write_ok env table
       then (Ok true, mkWorld (f (db w)) (requests w))
       else (Ok false, w).

(** [.single()]: exactly one row. *)
Definition single {A} (rows : list A) : option A :=
  match rows with
  | [x] => Some x
  | _ => None
  end.

Definition track_by_id (d : Db) (id : string) : option Track.t :=
  single (filter (λ t, Track.id t = id) (project_tracks d)).

Definition project_by_id (d : Db) (id : string) : option Project.t :=
  single (filter (λ p, Project.id p = id) (projects d)).

Definition profile_by_user (d : Db) (uid : string) : option EditorProfile.t :=
  single (filter (λ e, EditorProfile.user_id e = uid) (editor_profiles d)).

(** A track with its project, as the inner join selects it. *)
Definition track_with_project (d : Db) (id : string)
    : option (Track.t * Project.t) :=
  t ← track_by_id d id;
  p ← project_by_id d (Track.project_id t);
  Some (t, p).

(** A comment with its track, as the inner join selects it. *)
Definition comment_with_track (d : Db) (id : string)
    : option (Comment.t * Track.t) :=
  c ← single (filter (λ c, Comment.id c = id) (review_comments d));
  t ← track_by_id d (Comment.track_id c);
  Some (c, t).

Definition update_tracks (id : string) (f : Track.t → Track.t) (d : Db) : Db :=
  mkDb (map (λ t, if decide (Track.id t = id) then f t else t)
            (project_tracks d))
       (review_comments d) (projects d) (editor_profiles d).

Definition update_comments (id : string) (f : Comment.t → Comment.t)
    (d : Db) : Db :=
  mkDb (project_tracks d)
       (map (λ c, if decide (Comment.id c = id) then f c else c)
            (review_comments d))
       (projects d) (editor_profiles d).

Definition MAX_IMAGES_PER_COMMENT : nat := 4.
Definition IMAGE_MAX_SIZE_MB : N := 5.
Definition IMAGE_MAX_SIZE_BYTES : N := IMAGE_MAX_SIZE_MB * 1024 * 1024.
Definition ACCEPTED_IMAGE_TYPES : list string :=
  ["image/jpeg"; "image/png"; "image/webp"].

(** The double quote inside a message. *)
Definition dq : string := String (ascii_of_nat 34) EmptyString.

(** The request to the image host and its answer. *)
Definition post_image (env : Env) (f : File.t) : M string :=
  λ w, (imgbb env f, mkWorld (db w) (requests w ++ [f])).

(** [Promise.all(items.map(job))]: every job runs to its end whatever the
    others do; the batch fails when one job fails.  The error of the first
    failing item is the one reported here; [Promise.all] reports the one
    that fails first in time, which the model does not tell. *)
Fixpoint promise_all {A B} (job : A → M B) (items : list A) : M (list B) :=
  match items with
  | [] => ret []
  | x :: rest =>
      λ w, let '(r, w1) := job x w in
           let '(rs, w2) := promise_all job rest w1 in
           match r, rs with
           | Ok b, Ok bs => (Ok (b :: bs), w2)
           | Err e, _ => (Err e, w2)
           | Ok _, Err e => (Err e, w2)
           end
  end.

(** A loop that awaits each job before the next one. *)
Fixpoint for_each {A B} (job : A → M B) (items : list A) : M (list B) :=
  match items with
  | [] => ret []
  | x :: rest => do b <- job x; do bs <- for_each job rest; ret (b :: bs)
  end.

(** [results.filter((url) => url !== null)]. *)
Definition non_null {A} (l : list (option A)) : list A := omap id l.

(** [s.trim()]. *)
Definition trim (s : list N) : list N :=
  let drop_space := fix go (s : list N) : list N :=
    match s with
    | c :: s' => if LinkEncoder.is_space c then go s' else s
    | [] => []
    end in
  rev (drop_space (rev (drop_space s))).

(* ===================================================================== *)
(** * The actions of the review page (app/review/[trackId]/actions.ts) *)
(* ===================================================================== *)

(** The comment as an action returns it. *)
Module CommentView.
Record t := mk {
  id : string;
  created_at : string;
  comment : CommentData.t;
  commenter_display_name : string;
  isOwnComment : bool
}.
End CommentView.

Inductive Response :=
| Message (message : string)
| WithComment (message : string) (comment : CommentView.t)
| Success (message : string).

Definition PENDING : string := "pending".

Definition is_pending (decision : string) : bool := String.eqb decision PENDING.

(** The fields of the form of [addReviewComment].  [timestamp] is the field
    as [parseFloat] reads it: [None] for an absent or empty field,
    [Some None] for NaN, and a decimal otherwise.  The two infinities, which
    [parseFloat] reads from the texts [Infinity] and [-Infinity], are not
    among these values; [addReviewComment] accepts [Infinity], and the
    store then holds [null] for it.  [links] is the field as [JSON.parse]
    reads it, [None] when it is absent or is not JSON. *)
Module AddForm.
Record t := mk {
  trackId : option string;
  timestamp : option (option Number.t);
  commentText : option (list N);
  commenterName : option string;
  images : list File.t;
  links : option (list LinkEncoder.Link)
}.
End AddForm.

(** The fields of the form of [updateReviewComment].  [existingImages] is
    the field as [JSON.parse] reads it: [None] for an absent or empty field,
    [Some None] for a text that is no JSON array. *)
Module EditForm.
Record t := mk {
  commentId : option string;
  newCommentText : option (list N);
  existingImages : option (option (list string));
  commenterName : option string;
  newImages : list File.t
}.
End EditForm.

(** Modelled from the spec: the stored procedure
    [handle_client_revision_request_v3] is not among the sources.  It
    creates round N+1 with the given steps and sets the decision of round N
    to [revisions_requested], as one transaction. *)
Definition handle_client_revision_request_v3 (env : Env)
    (p_current_track_id p_project_id : string)
    (p_current_round_number : nat) (p_next_round_steps : list Step.t)
    (d : Db) : Db :=
  let closed := update_tracks p_current_track_id
    (λ t, Track.mk (Track.id t) (Track.project_id t) (Track.round_number t)
                   (Track.status t) (Track.steps t) "revisions_requested"
                   (Track.final_deliverable_media_type t)
                   (Track.updated_at t)) d in
  mkDb (project_tracks closed
        ++ [Track.mk (new_id env "project_tracks") p_project_id
                     (p_current_round_number + 1) "in_progress"
                     p_next_round_steps PENDING None (now env)])
       (review_comments closed) (projects closed) (editor_profiles closed).

(** Modelled from the spec: the stored procedure
    [handle_client_approval_v2] is not among the sources.  It sets the
    decision of the track to [approved] and flips the status of the
    project; the spec does not name the new status, [completed] is taken. *)
Definition handle_client_approval_v2 (p_project_id p_track_id : string)
    (d : Db) : Db :=
  let decided := update_tracks p_track_id
    (λ t, Track.mk (Track.id t) (Track.project_id t) (Track.round_number t)
                   (Track.status t) (Track.steps t) "approved"
                   (Track.final_deliverable_media_type t)
                   (Track.updated_at t)) d in
  mkDb (project_tracks decided) (review_comments decided)
       (map (λ p, if decide (Project.id p = p_project_id)
                  then Project.mk (Project.id p) (Project.editor_id p)
                         (Project.title p) "completed" (Project.client_name p)
                         (Project.password_protected p)
                         (Project.access_password p)
                  else p) (projects decided))
       (editor_profiles decided).

(** [.order(key, { ascending: true })] on a text key: rows with equal keys
    keep their order. *)
Fixpoint insert_sorted {A} (key : A → string) (x : A) (l : list A) : list A :=
  match l with
  | [] => [x]
  | y :: r =>
      if text_leb (key y) (key x) then y :: insert_sorted key x r
      else x :: y :: r
  end.

Definition order_by {A} (key : A → string) (rows : list A) : list A :=
  foldl (λ acc x, insert_sorted key x acc) [] rows.

Module Review.
Section Actions.
Variable env : Env.

Definition uploadImageToImgBB (f : File.t) : M string :=
  throw_if (IMAGE_MAX_SIZE_BYTES <? File.size f)%N
    with ("File " +:+ dq +:+ File.name f +:+ dq +:+ " size exceeds "
          +:+ pretty IMAGE_MAX_SIZE_MB +:+ "MB limit.");
  throw_if negb (bool_decide (File.type f ∈ ACCEPTED_IMAGE_TYPES))
    with ("File " +:+ dq +:+ File.name f +:+ dq
          +:+ " has an invalid type. Only JPEG, PNG, WebP allowed.");
  throw_if negb (imgbb_key env) with "Image upload service not configured.";
  λ w, match post_image env f w with
       | (Ok url, w') => (Ok url, w')
       | (Err e, w') => (Err ("Image upload failed: " +:+ e), w')
       end.

(** The row that the store returns for a comment, as the caller sees it. *)
Definition view (c : Comment.t) : CommentView.t :=
  CommentView.mk (Comment.id c) (Comment.created_at c) (Comment.comment c)
    (default "Anonymous Visitor" (or_else (Comment.commenter_name c) None))
    true.

Definition addReviewComment (form : AddForm.t) : M Response :=
  let commenterName :=
    default "Anonymous Visitor" (or_else (AddForm.commenterName form) None) in
  let imageFiles := AddForm.images form in
  match or_else (AddForm.trackId form) None, AddForm.timestamp form with
  | Some trackId, Some timestamp =>
    throw_if (match AddForm.commentText form with
              | Some t => bool_decide (trim t = [])
              | None => true
              end && bool_decide (imageFiles = []))
      with "Comment cannot be empty.";
    match timestamp with
    | None => throw "Invalid timestamp."
    | Some timestamp =>
      throw_if Number.negative timestamp with "Invalid timestamp.";
      throw_if (MAX_IMAGES_PER_COMMENT <? length imageFiles)
        with ("Max " +:+ pretty MAX_IMAGES_PER_COMMENT +:+ " images.");
      do d <- read_db;
      match track_by_id d trackId with
      | None => throw "Track not found."
      | Some trackData =>
        throw_if negb (is_pending (Track.client_decision trackData))
          with ("Decision (" +:+ Track.client_decision trackData
                +:+ ") submitted.");
        do results <- promise_all
          (λ file, if (File.size file =? 0)%N then ret None
                   else do u <- uploadImageToImgBB file; ret (Some u))
          imageFiles;
        let uploadedImageUrls := non_null results in
        match AddForm.commentText form with
        | None => throw "Cannot read properties of null (reading 'trim')"
        | Some commentText =>
          let commentDataToSave :=
            CommentData.mk (trim commentText) timestamp
              (match uploadedImageUrls with
               | [] => None
               | _ :: _ => Some uploadedImageUrls
               end)
              (match AddForm.links form with
               | Some (l :: ls) => Some (l :: ls)
               | _ => None
               end) in
          let row :=
            Comment.mk (new_id env "review_comments") trackId
              commentDataToSave (Some commenterName)
              (or_else (session env) None) (now env) in
          do ok <- write env "review_comments"
            (λ d, mkDb (project_tracks d) (review_comments d ++ [row])
                       (projects d) (editor_profiles d));
          throw_if negb ok with store_error env;
          ret (WithComment "Comment added successfully" (view row))
        end
      end
    end
  | _, _ => throw "Required data missing."
  end.

(** [isOwnComment] of [updateReviewComment] and [deleteReviewComment]. *)
Definition isOwnComment (user : option string) (c : Comment.t) : bool :=
  match user with
  | Some uid => bool_decide (Comment.commenter_id c = Some uid)
  | None => negb (truthy (Comment.commenter_id c))
  end.

Definition updateReviewComment (form : EditForm.t) : M Response :=
  let newImageFiles := EditForm.newImages form in
  match or_else (EditForm.commentId form) None,
        EditForm.newCommentText form, EditForm.existingImages form with
  | Some commentId, Some newCommentText, Some parsed =>
    match parsed with
    | None => throw "Failed to parse existing images."
    | Some imagesToKeep =>
      do d <- read_db;
      match comment_with_track d commentId with
      | None => throw "Comment/track not found."
      | Some (commentData, track) =>
        throw_if negb (isOwnComment (session env) commentData)
          with "You can only edit your own comments.";
        throw_if negb (is_pending (Track.client_decision track))
          with ("Decision (" +:+ Track.client_decision track
                +:+ ") submitted.");
        do uploadedNewImageUrls <-
          match newImageFiles with
          | [] => ret []
          | _ :: _ =>
            throw_if (MAX_IMAGES_PER_COMMENT
                      <? length imagesToKeep + length newImageFiles)
              with ("Cannot save comment: Exceeds maximum of "
                    +:+ pretty MAX_IMAGES_PER_COMMENT +:+ " images.");
            promise_all uploadImageToImgBB
              (filter (λ f, (0 < File.size f)%N) newImageFiles)
          end;
        let finalImageUrls := imagesToKeep ++ uploadedNewImageUrls in
        let '(processedText, links) :=
          LinkEncoder.detectAndExtractLinks (trim newCommentText) in
        let existingCommentJson := Comment.comment commentData in
        let updatedCommentJsonb :=
          CommentData.mk processedText
            (CommentData.timestamp existingCommentJson)
            (Some finalImageUrls) (Some links) in
        throw_if (bool_decide (processedText = [])
                  && bool_decide (finalImageUrls = []))
          with "Cannot save comment with no text and no images.";
        let rename :=
          truthy (EditForm.commenterName form)
          && negb (bool_decide (EditForm.commenterName form
                                = Comment.commenter_name commentData)) in
        let updated (c : Comment.t) :=
          Comment.mk (Comment.id c) (Comment.track_id c) updatedCommentJsonb
            (if rename then EditForm.commenterName form
             else Comment.commenter_name c)
            (Comment.commenter_id c) (Comment.created_at c) in
        do ok <- write env "review_comments"
          (update_comments commentId updated);
        throw_if negb ok with "Database error updating comment.";
        ret (WithComment "Comment updated successfully"
               (view (updated commentData)))
      end
    end
  | _, _, _ => throw "Required data missing."
  end.

Definition deleteReviewComment (commentId : string) : M Response :=
  throw_if String.eqb commentId "" with "Comment ID missing.";
  do d <- read_db;
  match comment_with_track d commentId with
  | None => throw "Comment/track not found."
  | Some (commentData, track) =>
    throw_if negb (isOwnComment (session env) commentData)
      with "You can only delete your own comments.";
    throw_if negb (is_pending (Track.client_decision track))
      with ("Decision (" +:+ Track.client_decision track +:+ ") submitted.");
    do ok <- write env "review_comments"
      (λ d, mkDb (project_tracks d)
                 (filter (λ c, Comment.id c ≠ commentId) (review_comments d))
                 (projects d) (editor_profiles d));
    throw_if negb ok with "Database error deleting comment.";
    ret (Message "Comment deleted successfully")
  end.

(** The comments of a track in the order of the query: by the text of
    [comment->>timestamp], ascending. *)
Definition comments_for_next_round (d : Db) (trackId : string)
    : list Comment.t :=
  order_by (λ c, Number.to_text (CommentData.timestamp (Comment.comment c)))
    (filter (λ c, Comment.track_id c = trackId) (review_comments d)).

(** The steps that [clientRequestRevisions] builds for the next round. *)
Definition nextRoundSteps (commentsData : list Comment.t) : list Step.t :=
  imap (λ i c,
          Step.mk None Pending None None
            (Some (Metadata.mk (Some "comment") (Some (Comment.id c))
                     (Some (CommentData.text (Comment.comment c)))
                     (Some (CommentData.timestamp (Comment.comment c)))
                     (Some (default [] (CommentData.images (Comment.comment c))))
                     (Some (default [] (CommentData.links (Comment.comment c))))
                     (Some (Comment.created_at c))
                     (Some i))))
       commentsData
  ++ [Step.mk (Some "Finish Revisions") Pending (Some true) None None].

Definition clientRequestRevisions (trackId : string) : M Response :=
  do d <- read_db;
  match track_by_id d trackId with
  | None => throw "Track not found."
  | Some currentTrack =>
    throw_if negb (is_pending (Track.client_decision currentTrack))
      with "Decision already submitted.";
    let commentsData := comments_for_next_round d trackId in
    do ok <- write env "rpc"
      (handle_client_revision_request_v3 env trackId
         (Track.project_id currentTrack) (Track.round_number currentTrack)
         (nextRoundSteps commentsData));
    throw_if negb ok with ("Revision failed: " +:+ store_error env);
    ret (Success ("Revisions requested. Round "
                  +:+ pretty (Track.round_number currentTrack + 1)
                  +:+ " created."))
  end.

Definition clientApproveProject (projectId trackId : string) : M Response :=
  do d <- read_db;
  match single (filter (λ t, Track.id t = trackId
                             ∧ Track.project_id t = projectId)
                       (project_tracks d)) with
  | None => throw "Track not found or invalid."
  | Some trackData =>
    throw_if negb (is_pending (Track.client_decision trackData))
      with "Decision already submitted.";
    do ok <- write env "rpc" (handle_client_approval_v2 projectId trackId);
    throw_if negb ok with ("Database error: " +:+ store_error env);
    ret (Message "Project approved successfully.")
  end.

End Actions.
End Review.

(* ===================================================================== *)
(** * The actions of the dashboard (app/dashboard/projects/[id]/actions.ts) *)
(* ===================================================================== *)

(** The fields of [createProject].  [comments] is the field as [JSON.parse]
    reads it: [None] for an absent or empty field, [Some None] for a text
    that is no JSON; each item is a text and its list of image names.
    [image i j] is the file under the key [image_i_j]. *)
Module ProjectForm.
Record t := mk {
  title : option string;
  comments : option (option (list (list N * option (list string))));
  client_name : option string;
  password_protected : bool;
  access_password : option string;
  image : nat → nat → option File.t
}.
End ProjectForm.

(** A feedback item of [createInitialRound] and [deliverInitialRound]. *)
Module RoundComment.
Record t := mk { text : list N; images : option (list File.t) }.
End RoundComment.

(** The fields of [updateStepContent].  [stepIndex] is the field as
    [parseInt] reads it: [None] for an absent field, [Some None] for NaN.
    [existingImages] is read as in [EditForm]. *)
Module ContentForm.
Record t := mk {
  trackId : option string;
  stepIndex : option (option Z);
  text : option (list N);
  existingImages : option (option (list string));
  newImages : list File.t
}.
End ContentForm.

(** The fields of [updateAllStepContent].  [payload] is [None] when
    [stepsStructure] is absent and [Some None] when one of the three JSON
    fields does not parse.  [newImage i] lists the files under the keys
    [newImage_i_0], [newImage_i_1], and so on, up to the first absent key. *)
Module BulkForm.
Record payload_t := mkPayload {
  stepsStructure : list Step.t;
  stepsToProcess : list nat;
  stepsWithNewImages : list nat
}.
Record t := mk {
  trackId : option string;
  payload : option (option payload_t);
  newImage : nat → list File.t
}.
End BulkForm.

Module Dashboard.
Import LinkEncoder.

(** The class [\w]. *)
Definition is_word (c : N) : bool :=
  is_digit c || ((65 <=? c)%N && (c <=? 90)%N)
  || ((97 <=? c)%N && (c <=? 122)%N) || (c =? 95)%N.

(** The lookbehind and the word boundary of the URL pattern of this file,
    on the reversed text before the position: the text does not end with
    the placeholder prefix, and its last character is no word character. *)
Definition may_start (before_rev : list N) : bool :=
  negb (starts_with (rev (lit "[LINK:")) before_rev)
  && match before_rev with
     | c :: _ => negb (is_word c)
     | [] => true
     end.

Fixpoint tokenize (before_rev : list N) (skip : nat) (s : list N)
    : list token :=
  match s with
  | [] => []
  | c :: s' =>
      match skip with
      | S k => tokenize (c :: before_rev) k s'
      | O =>
          match (if may_start before_rev then url_at s else None) with
          | Some n => Url (take n s) :: tokenize (c :: before_rev) (n - 1) s'
          | None => Gap c :: tokenize (c :: before_rev) 0 s'
          end
      end
  end.

Definition extract_step (acc : list N * list Link) (m : nat * list N)
    : list N * list Link :=
  let '(processedText, links) := acc in
  let '(_, u) := m in
  match findIndex u links with
  | Some i => (replace_first u (placeholder i) processedText, links)
  | None =>
      (replace_first u (placeholder (length links)) processedText,
       links ++ [mkLink u u])
  end.

(** [detectAndExtractLinks] of this file. *)
Definition detectAndExtractLinks (t : list N) : list N * list Link :=
  foldl extract_step (t, []) (matches_of 0 (tokenize [] 0 t)).

(** [originalSteps.find((s) => s.is_final)]. *)
Definition find_final (steps : list Step.t) : option Step.t :=
  head (filter (λ s, final s = true) steps).

(** [oldStepMap]: the non-final steps by comment id; a later step with the
    same id replaces an earlier one. *)
Definition oldStepMap (originalSteps : list Step.t) : gmap string Step.t :=
  foldl (λ m step,
           match Step.metadata step ≫= Metadata.comment_id with
           | Some cid =>
               if negb (final step) && truthy (Some cid)
               then <[cid := step]> m else m
           | None => m
           end)
        ∅ originalSteps.

(** The step that [updateTrackStructure] makes of one descriptor. *)
Definition restructured (old : gmap string Step.t) (index : nat)
    (newStepInfo : StepInfo.t) : Step.t :=
  let new_cid := StepInfo.metadata newStepInfo ≫= Metadata.comment_id in
  let oldStep :=
    if truthy new_cid then new_cid ≫= (λ cid, old !! cid) else None in
  let old_md := oldStep ≫= Step.metadata in
  let merged :=
    Metadata.spread (default Metadata.empty old_md)
                    (default Metadata.empty (StepInfo.metadata newStepInfo)) in
  Step.mk
    (Some (default ("Step " +:+ pretty (index + 1))
                   (or_else (StepInfo.name newStepInfo) None)))
    (match oldStep with
     | Some o => Step.status o
     | None => Pending
     end)
    (Some false)
    None
    (Some (Metadata.mk
             (Some (default "comment"
                      (or_else (old_md ≫= Metadata.type) None)))
             (or_else (old_md ≫= Metadata.comment_id) new_cid)
             (Metadata.text merged) (Metadata.timestamp merged)
             (Metadata.images merged) (Metadata.links merged)
             (Metadata.created_at merged) (Metadata.step_index merged))).

(** [finalNewSteps] of [updateTrackStructure]. *)
Definition finalNewSteps (originalSteps : list Step.t)
    (originalFinishStep : Step.t) (newStepsStructure : list StepInfo.t)
    : list Step.t :=
  imap (restructured (oldStepMap originalSteps)) newStepsStructure
  ++ [originalFinishStep].

Definition set_steps (steps : list Step.t) (updated_at : string)
    (t : Track.t) : Track.t :=
  Track.mk (Track.id t) (Track.project_id t) (Track.round_number t)
           (Track.status t) steps (Track.client_decision t)
           (Track.final_deliverable_media_type t) updated_at.

Section Actions.
Variable env : Env.

Definition uploadImageToImgBB (f : File.t) : M string :=
  throw_if (IMAGE_MAX_SIZE_BYTES <? File.size f)%N
    with ("File " +:+ dq +:+ File.name f +:+ dq +:+ " size exceeds "
          +:+ pretty IMAGE_MAX_SIZE_MB +:+ "MB limit.");
  throw_if negb (bool_decide (File.type f ∈ ACCEPTED_IMAGE_TYPES))
    with ("File " +:+ dq +:+ File.name f +:+ dq
          +:+ " has an invalid type (" +:+ File.type f
          +:+ "). Only JPEG, PNG, and WebP are supported.");
  throw_if negb (imgbb_key env)
    with "Image upload service is not configured.";
  λ w, match post_image env f w with
       | (Ok url, w') => (Ok url, w')
       | (Err e, w') =>
           (Err ("Failed to upload image " +:+ dq +:+ File.name f +:+ dq
                 +:+ ": " +:+ e), w')
       end.

(** A [try] whose [catch] throws a fixed message. *)
Definition rethrow {A} (msg : string) (c : M A) : M A :=
  λ w, match c w with
       | (Ok a, w') => (Ok a, w')
       | (Err _, w') => (Err msg, w')
       end.

Definition comment_step (name : option string) (status : StepStatus)
    (processedText : list N) (imageUrls : list string) (links : list Link)
    (index : nat) : Step.t :=
  Step.mk name status None None
    (Some (Metadata.mk (Some "comment") None (Some processedText) None
             (Some imageUrls) (Some links) (Some (now env)) (Some index))).

(** The loop of [createProject] over the feedback items; [index] is the
    position of the first item of [comments]. *)
Fixpoint project_steps (form : ProjectForm.t) (index : nat)
    (comments : list (list N * option (list string))) : M (list Step.t) :=
  match comments with
  | [] => ret []
  | (text, images) :: rest =>
      do results <- promise_all
        (λ imgIndex,
           match ProjectForm.image form index imgIndex with
           | None => ret None
           | Some file => do u <- uploadImageToImgBB file; ret (Some u)
           end)
        (seq 0 (length (default [] images)));
      let '(processedText, links) := detectAndExtractLinks text in
      do steps <- project_steps form (S index) rest;
      ret (comment_step (Some ("Step " +:+ pretty (index + 1))) Pending
             processedText (non_null results) links index :: steps)
  end.

(** The key of the delete request that undoes the insert of the project.
    It is a request of its own, and [createProject] does not look at its
    answer. *)
Definition rollback : string := "projects (rollback)".

(** [createProject].  When the [comments] field is no JSON, the action
    rethrows the error of [JSON.parse]; its message is the engine's and
    stands here as [SyntaxError]. *)
Definition createProject (form : ProjectForm.t) : M Response :=
  match session env with
  | None => throw "Not authenticated"
  | Some uid =>
    do d <- read_db;
    match profile_by_user d uid with
    | None => throw "Failed to fetch editor profile"
    | Some editorProfile =>
      match or_else (ProjectForm.title form) None,
            ProjectForm.comments form,
            or_else (ProjectForm.client_name form) None with
      | Some title, Some parsed, Some clientName =>
        match parsed with
        | None => throw "SyntaxError"
        | Some comments =>
          let project :=
            Project.mk (new_id env "projects") (EditorProfile.id editorProfile)
              title "active" clientName (ProjectForm.password_protected form)
              (if ProjectForm.password_protected form
               then ProjectForm.access_password form else None) in
          do ok <- write env "projects"
            (λ d, mkDb (project_tracks d) (review_comments d)
                       (projects d ++ [project]) (editor_profiles d));
          throw_if negb ok with store_error env;
          do commentSteps <- project_steps form 0 comments;
          let steps :=
            commentSteps
            ++ [Step.mk (Some "Finish") Pending (Some true) None None] in
          do ok <- write env "project_tracks"
            (λ d, mkDb (project_tracks d
                        ++ [Track.mk (new_id env "project_tracks")
                              (Project.id project) 1 "in_progress" steps
                              PENDING None (now env)])
                       (review_comments d) (projects d) (editor_profiles d));
          if ok
          then ret (Message "Project created successfully with work steps")
          else
            do _ <- write env rollback
              (λ d, mkDb (project_tracks d) (review_comments d)
                         (filter (λ p, Project.id p ≠ Project.id project)
                                 (projects d))
                         (editor_profiles d));
            throw "Failed to create the initial workflow track."
        end
      | _, _, _ =>
          throw "Project title, client name, and work steps are required"
      end
    end
  end.

Definition updateProjectTrackStepStatus (trackId : string) (stepIndex : Z)
    (newStatus : StepStatus) (linkValue : option string)
    (finalMediaType : option MediaType) : M Response :=
  do d <- read_db;
  match track_by_id d trackId with
  | None => throw (store_error env)
  | Some trackData =>
    let steps := Track.steps trackData in
    throw_if ((stepIndex <? 0)%Z || (Z.of_nat (length steps) <=? stepIndex)%Z)
      with ("Invalid step index: " +:+ pretty stepIndex);
    match steps !! Z.to_nat stepIndex with
    | None => throw ("Step at index " +:+ pretty stepIndex +:+ " not found")
    | Some stepToUpdate =>
      let isFinalStep := final stepToUpdate in
      let record :=
        isFinalStep && bool_decide (newStatus = Completed) && truthy linkValue
        && bool_decide (is_Some finalMediaType) in
      let clear :=
        isFinalStep && negb record && bool_decide (newStatus = Pending) in
      let updatedStep :=
        Step.mk (Step.name stepToUpdate) newStatus
          (Step.is_final stepToUpdate)
          (if record then linkValue
           else if clear then None
           else Step.deliverable_link stepToUpdate)
          (Step.metadata stepToUpdate) in
      let updatedSteps := <[Z.to_nat stepIndex := updatedStep]> steps in
      let final_deliverable_media_type :=
        if record then finalMediaType
        else if clear then None
        else Track.final_deliverable_media_type trackData in
      do ok <- write env "project_tracks"
        (update_tracks trackId
           (λ t, Track.mk (Track.id t) (Track.project_id t)
                   (Track.round_number t) (Track.status t) updatedSteps
                   (Track.client_decision t) final_deliverable_media_type
                   (now env)));
      throw_if negb ok with store_error env;
      ret (Message "Step status updated successfully")
    end
  end.

Definition updateTrackStructure (trackId : string)
    (newStepsStructure : list StepInfo.t) : M Response :=
  throw_if String.eqb trackId ""
    with "Invalid parameters: Track ID and steps array required.";
  match session env with
  | None => throw "Editor not authenticated"
  | Some uid =>
    do d <- read_db;
    match profile_by_user d uid with
    | None => throw "Editor profile not found."
    | Some editorProfile =>
      match track_with_project d trackId with
      | None => throw "Track or associated project not found."
      | Some (track, project) =>
        throw_if negb (String.eqb (Project.editor_id project)
                                  (EditorProfile.id editorProfile))
          with "Unauthorized: Project track does not belong to this editor.";
        throw_if negb (is_pending (Track.client_decision track))
          with ("Client decision is '" +:+ Track.client_decision track
                +:+ "'. Cannot modify structure.");
        let originalSteps := Track.steps track in
        match find_final originalSteps with
        | None =>
            throw "Critical error: Track is missing the mandatory 'Finish' step."
        | Some originalFinishStep =>
          do ok <- write env "project_tracks"
            (update_tracks trackId
               (set_steps (finalNewSteps originalSteps originalFinishStep
                             newStepsStructure) (now env)));
          throw_if negb ok
            with ("Database error updating track structure: "
                  +:+ store_error env);
          ret (Message "Workflow steps updated successfully.")
        end
      end
    end
  end.

Definition updateStepContent (form : ContentForm.t) : M Response :=
  match session env with
  | None => throw "Editor not authenticated"
  | Some uid =>
    let textFromEditor := trim (default [] (ContentForm.text form)) in
    let newImageFiles := ContentForm.newImages form in
    match ContentForm.trackId form, ContentForm.stepIndex form with
    | Some trackId, Some parsedIndex =>
      match parsedIndex with
      | None => throw "Invalid step index."
      | Some stepIndex =>
        throw_if (stepIndex <? 0)%Z with "Invalid step index.";
        let imagesToKeep :=
          default [] (mjoin (ContentForm.existingImages form)) in
        do d <- read_db;
        match track_with_project d trackId with
        | None => throw "Track or associated project not found."
        | Some (track, project) =>
          throw_if negb (bool_decide
              (EditorProfile.id <$> profile_by_user d uid
               = Some (Project.editor_id project)))
            with "Unauthorized: Project track does not belong to this editor.";
          throw_if negb (is_pending (Track.client_decision track))
            with ("Client has already submitted their decision ("
                  +:+ Track.client_decision track
                  +:+ "). Cannot modify step content.");
          let steps := Track.steps track in
          match steps !! Z.to_nat stepIndex with
          | None => throw "Invalid step index or steps format issue."
          | Some stepToUpdate =>
            throw_if final stepToUpdate
              with "The final deliverable step content cannot be edited directly.";
            let '(processedText, links) :=
              detectAndExtractLinks textFromEditor in
            do uploadedNewImageUrls <-
              match newImageFiles with
              | [] => ret []
              | _ :: _ =>
                throw_if (MAX_IMAGES_PER_COMMENT
                          <? length imagesToKeep + length newImageFiles)
                  with ("Cannot exceed " +:+ pretty MAX_IMAGES_PER_COMMENT
                        +:+ " images in total.");
                promise_all uploadImageToImgBB
                  (filter (λ f, (0 < File.size f)%N) newImageFiles)
              end;
            let finalImageUrls := imagesToKeep ++ uploadedNewImageUrls in
            let currentMetadata :=
              default (Metadata.mk (Some "comment") None None None None None
                         (Some (now env)) None)
                      (Step.metadata stepToUpdate) in
            let updatedMetadata :=
              Metadata.mk (Metadata.type currentMetadata)
                (Metadata.comment_id currentMetadata) (Some processedText)
                (Metadata.timestamp currentMetadata) (Some finalImageUrls)
                (Some links) (Metadata.created_at currentMetadata)
                (Metadata.step_index currentMetadata) in
            let updatedStep :=
              Step.mk (Step.name stepToUpdate) (Step.status stepToUpdate)
                (Step.is_final stepToUpdate)
                (Step.deliverable_link stepToUpdate) (Some updatedMetadata) in
            do ok <- write env "project_tracks"
              (update_tracks trackId
                 (set_steps (<[Z.to_nat stepIndex := updatedStep]> steps)
                            (now env)));
            throw_if negb ok with store_error env;
            ret (Message "Step content updated successfully.")
          end
        end
      end
    | _, _ => throw "Missing track ID or step index."
    end
  end.

(** The loop of [deliverInitialRound] and of [createInitialRound] over
    the feedback items; [index] is [steps.length] at the first item. *)
Fixpoint round_steps (name : nat → option string) (status : StepStatus)
    (index : nat) (comments : list RoundComment.t) : M (list Step.t) :=
  match comments with
  | [] => ret []
  | comment :: rest =>
      do imageUrls <- rethrow "Failed to upload one or more images"
        (promise_all uploadImageToImgBB
           (default [] (RoundComment.images comment)));
      let '(processedText, links) :=
        detectAndExtractLinks (RoundComment.text comment) in
      do steps <- round_steps name status (S index) rest;
      ret (comment_step (name index) status processedText imageUrls links
             index :: steps)
  end.

Definition initial_track (d : Db) (trackId : string) : option Track.t :=
  single (filter (λ t, Track.id t = trackId ∧ Track.round_number t = 1)
                 (project_tracks d)).

Definition set_round (steps : list Step.t) (status : string) (t : Track.t)
    : Track.t :=
  Track.mk (Track.id t) (Track.project_id t) (Track.round_number t) status
           steps (Track.client_decision t)
           (Track.final_deliverable_media_type t) (now env).

Definition deliverInitialRound (trackId deliverableLink : string)
    (comments : list RoundComment.t) : M Response :=
  do d <- read_db;
  match initial_track d trackId with
  | None => throw (store_error env)
  | Some track =>
    do commentSteps <- round_steps (λ _, None) Completed 0 comments;
    let steps :=
      commentSteps
      ++ [Step.mk None Completed (Some true) (Some deliverableLink) None] in
    do ok <- write env "project_tracks"
      (update_tracks trackId (set_round steps "in_review"));
    throw_if negb ok with store_error env;
    ret (Message "Initial round delivered successfully")
  end.

Definition createInitialRound (projectId trackId : string)
    (comments : list RoundComment.t) : M Response :=
  do d <- read_db;
  match initial_track d trackId with
  | None => throw (store_error env)
  | Some track =>
    do commentSteps <-
      round_steps (λ i, Some ("Step " +:+ pretty (i + 1))) Pending 0 comments;
    let steps :=
      commentSteps
      ++ [Step.mk (Some "Finish") Pending (Some true) None None] in
    do ok <- write env "project_tracks"
      (update_tracks trackId (set_round steps "in_progress"));
    throw_if negb ok with store_error env;
    ret (Message "Initial round created successfully")
  end.

(** [timestampMap] of [updateAllStepContent]. *)
Definition timestampMap (currentSteps : list Step.t)
    : gmap string Number.t :=
  foldl (λ m step,
           match Step.metadata step with
           | Some md =>
               match Metadata.comment_id md, Metadata.timestamp md with
               | Some cid, Some ts =>
                   if truthy (Some cid) then <[cid := ts]> m else m
               | _, _ => m
               end
           | None => m
           end)
        ∅ currentSteps.

(** The body of the loop over [stepsToProcess]. *)
Definition process_step (timestamps : gmap string Number.t)
    (stepsStructure : list Step.t) (stepIndex : nat) : list Step.t :=
  match stepsStructure !! stepIndex with
  | Some stepData =>
      match Step.metadata stepData with
      | Some md =>
          let '(processedText, links) :=
            detectAndExtractLinks (default [] (Metadata.text md)) in
          let commentId := Metadata.comment_id md in
          let preservedTimestamp :=
            match Metadata.timestamp md with
            | Some t => t
            | None =>
                default (Number.of_Z 0)
                  (if truthy commentId
                   then commentId ≫= (λ cid, timestamps !! cid)
                   else None)
            end in
          <[stepIndex :=
              Step.mk (Step.name stepData) (Step.status stepData)
                (Step.is_final stepData) (Step.deliverable_link stepData)
                (Some (Metadata.mk (Metadata.type md) commentId
                         (Some processedText) (Some preservedTimestamp)
                         (Metadata.images md) (Some links)
                         (Metadata.created_at md) (Metadata.step_index md)))]>
            stepsStructure
      | None => stepsStructure
      end
  | None => stepsStructure
  end.

(** The loop over [stepsWithNewImages]: the files of a step are uploaded
    one after the other. *)
Fixpoint attach_images (form : BulkForm.t) (indices : list nat)
    (stepsStructure : list Step.t) : M (list Step.t) :=
  match indices with
  | [] => ret stepsStructure
  | stepIndex :: rest =>
      match stepsStructure !! stepIndex with
      | Some stepData =>
          match Step.metadata stepData with
          | Some md =>
              do newImageUrls <- for_each uploadImageToImgBB
                (filter (λ f, (0 < File.size f)%N)
                        (BulkForm.newImage form stepIndex));
              attach_images form rest
                (match newImageUrls with
                 | [] => stepsStructure
                 | _ :: _ =>
                   <[stepIndex :=
                       Step.mk (Step.name stepData) (Step.status stepData)
                         (Step.is_final stepData)
                         (Step.deliverable_link stepData)
                         (Some (Metadata.mk (Metadata.type md)
                                  (Metadata.comment_id md) (Metadata.text md)
                                  (Metadata.timestamp md)
                                  (Some (default [] (Metadata.images md)
                                         ++ newImageUrls))
                                  (Metadata.links md)
                                  (Metadata.created_at md)
                                  (Metadata.step_index md)))]>
                     stepsStructure
                 end)
          | None => attach_images form rest stepsStructure
          end
      | None => attach_images form rest stepsStructure
      end
  end.

Definition updateAllStepContent (form : BulkForm.t) : M Response :=
  match session env with
  | None => throw "Editor not authenticated"
  | Some uid =>
    match or_else (BulkForm.trackId form) None, BulkForm.payload form with
    | Some trackId, Some parsed =>
      match parsed with
      | None => throw "Invalid steps data format."
      | Some payload =>
        do d <- read_db;
        match track_with_project d trackId with
        | None => throw "Track or associated project not found."
        | Some (track, project) =>
          throw_if negb (bool_decide
              (EditorProfile.id <$> profile_by_user d uid
               = Some (Project.editor_id project)))
            with "Unauthorized: Project track does not belong to this editor.";
          throw_if negb (is_pending (Track.client_decision track))
            with ("Client has already submitted their decision ("
                  +:+ Track.client_decision track +:+ "). Cannot modify.");
          let processed :=
            foldl (process_step (timestampMap (Track.steps track)))
                  (BulkForm.stepsStructure payload)
                  (BulkForm.stepsToProcess payload) in
          do stepsStructure <-
            attach_images form (BulkForm.stepsWithNewImages payload) processed;
          do ok <- write env "project_tracks"
            (update_tracks trackId (set_steps stepsStructure (now env)));
          throw_if negb ok with store_error env;
          ret (Message "All steps updated successfully.")
        end
      end
    | _, _ => throw "Missing track ID or steps structure."
    end
  end.

End Actions.
End Dashboard.

(* ===================================================================== *)
(** * The actions as requests *)
(* ===================================================================== *)

Inductive Op :=
| AddReviewComment (form : AddForm.t)
| UpdateReviewComment (form : EditForm.t)
| DeleteReviewComment (commentId : string)
| ClientRequestRevisions (trackId : string)
| ClientApproveProject (projectId trackId : string)
| CreateProject (form : ProjectForm.t)
| UpdateProjectTrackStepStatus (trackId : string) (stepIndex : Z)
    (newStatus : StepStatus) (linkValue : option string)
    (finalMediaType : option MediaType)
| UpdateTrackStructure (trackId : string) (newStepsStructure : list StepInfo.t)
| UpdateStepContent (form : ContentForm.t)
| DeliverInitialRound (trackId deliverableLink : string)
    (comments : list RoundComment.t)
| CreateInitialRound (projectId trackId : string)
    (comments : list RoundComment.t)
| UpdateAllStepContent (form : BulkForm.t).

Definition run (env : Env) (op : Op) : M Response :=
  match op with
  | AddReviewComment form => Review.addReviewComment env form
  | UpdateReviewComment form => Review.updateReviewComment env form
  | DeleteReviewComment commentId => Review.deleteReviewComment env commentId
  | ClientRequestRevisions trackId => Review.clientRequestRevisions env trackId
  | ClientApproveProject projectId trackId =>
      Review.clientApproveProject env projectId trackId
  | CreateProject form => Dashboard.createProject env form
  | UpdateProjectTrackStepStatus trackId stepIndex newStatus linkValue mediaType =>
      Dashboard.updateProjectTrackStepStatus env trackId stepIndex newStatus
        linkValue mediaType
  | UpdateTrackStructure trackId newStepsStructure =>
      Dashboard.updateTrackStructure env trackId newStepsStructure
  | UpdateStepContent form => Dashboard.updateStepContent env form
  | DeliverInitialRound trackId deliverableLink comments =>
      Dashboard.deliverInitialRound env trackId deliverableLink comments
  | CreateInitialRound projectId trackId comments =>
      Dashboard.createInitialRound env projectId trackId comments
  | UpdateAllStepContent form => Dashboard.updateAllStepContent env form
  end.

(* ===================================================================== *)
(** * The review page and its password protection (app/review/[trackId]) *)
(* ===================================================================== *)

(** [.order(comment->timestamp, { ascending: true })]: the operator [->]
    keeps the JSON number, so the rows come in the order of the values;
    rows with equal values keep their order. *)
Fixpoint insert_by_value {A} (key : A → Number.t) (x : A) (l : list A)
    : list A :=
  match l with
  | [] => [x]
  | y :: r =>
      if Number.ltb (key x) (key y) then x :: y :: r
      else y :: insert_by_value key x r
  end.

Definition order_by_value {A} (key : A → Number.t) (rows : list A) : list A :=
  foldl (λ acc x, insert_by_value key x acc) [] rows.

Module ReviewRoute.

(** The name of the cookie that remembers a verified password. *)
Definition cookie_name (projectId : string) : string :=
  "project_auth_" +:+ projectId.

Record Verdict := mkVerdict { success : bool; message : string }.

(** [verifyProjectPassword] of the review actions, on the cookies of the
    visitor, by name. *)
Definition verifyProjectPassword (d : Db) (projectId password : string)
    (cookies : gmap string string) : Verdict * gmap string string :=
  if String.eqb projectId "" || String.eqb password ""
  then (mkVerdict false "Missing project ID or password", cookies)
  else
    match project_by_id d projectId with
    | None => (mkVerdict false "Project not found", cookies)
    | Some project =>
        if negb (Project.password_protected project)
        then (mkVerdict true "Project is not password protected", cookies)
        else if bool_decide (Project.access_password project = Some password)
        then (mkVerdict true "Password verified successfully",
              <[cookie_name projectId := "verified"]> cookies)
        else (mkVerdict false "Incorrect password", cookies)
    end.

(** What the page hands to the review component of the track and of the
    project. *)
Record TrackProps := mkTrackProps {
  id : string;
  projectId : string;
  roundNumber : nat;
  clientDecision : string
}.

Record ProjectProps := mkProjectProps { project_id : string; title : string }.

(** What the page renders. *)
Inductive View :=
| notFound
| PasswordProtectionPage (trackId projectId : string)
| ReviewNotReady (round_number : nat)
| ReviewPage (track : TrackProps) (project : ProjectProps)
    (deliverableLink : string) (deliverableMediaType : option MediaType)
    (initialComments : list CommentView.t) (isAuthenticated : bool)
    (userId : option string).

(** [isOwnComment] as the page computes it for a comment. *)
Definition isOwnComment (user : option string) (c : Comment.t) : bool :=
  match user with
  | Some uid => bool_decide (Comment.commenter_id c = Some uid)
  | None => false
  end.

(** The default export of page.tsx. *)
Definition Page (env : Env) (d : Db) (cookies : gmap string string)
    (trackId : string) : View :=
  if String.eqb trackId "" || String.eqb trackId "undefined" then notFound
  else
    match track_by_id d trackId with
    | None => notFound
    | Some trackBasic =>
      match project_by_id d (Track.project_id trackBasic) with
      | None => notFound
      | Some projectProtection =>
        if Project.password_protected projectProtection
           && bool_decide
                (cookies !! cookie_name (Track.project_id trackBasic) = None)
        then PasswordProtectionPage trackId (Track.project_id trackBasic)
        else
          match track_with_project d trackId with
          | None => notFound
          | Some (trackData, project) =>
            let finishStep := Dashboard.find_final (Track.steps trackData) in
            match or_else (finishStep ≫= Step.deliverable_link) None with
            | None => ReviewNotReady (Track.round_number trackData)
            | Some deliverableLink =>
              let commentsData :=
                order_by_value
                  (λ c, CommentData.timestamp (Comment.comment c))
                  (filter (λ c, Comment.track_id c = trackId)
                          (review_comments d)) in
              ReviewPage
                (mkTrackProps (Track.id trackData)
                   (Track.project_id trackData)
                   (Track.round_number trackData)
                   (Track.client_decision trackData))
                (mkProjectProps (Project.id project) (Project.title project))
                deliverableLink
                (Track.final_deliverable_media_type trackData)
                (map (λ c,
                        CommentView.mk (Comment.id c) (Comment.created_at c)
                          (Comment.comment c)
                          (default "Anonymous Visitor"
                             (or_else (Comment.commenter_name c) None))
                          (isOwnComment (session env) c))
                     commentsData)
                (bool_decide (is_Some (session env)))
                (or_else (session env) None)
            end
          end
      end
    end.

End ReviewRoute.

(* ===================================================================== *)
(** * Helpers of the dashboard pages *)
(* ===================================================================== *)

(** app/dashboard/projects/components/AllProjectsPageClient.tsx. *)
Module AllProjectsPageClient.

(** [isNewRound]: a track with steps that are all pending. *)
Definition isNewRound (track : option Track.t) : bool :=
  match track with
  | None => false
  | Some track =>
      match Track.steps track with
      | [] => false
      | _ :: _ =>
          forallb (λ step, bool_decide (Step.status step = Pending))
                  (Track.steps track)
      end
  end.

End AllProjectsPageClient.

(** app/dashboard/components/libs: the helpers beside the link encoder. *)
Module Libs.

(** [l.toUpperCase()] on one character of the class [\w]. *)
Definition toUpperCase (c : N) : N :=
  if (97 <=? c)%N && (c <=? 122)%N then (c - 32)%N else c.

(** [s.replace(/\b\w/g, (l) => l.toUpperCase())]: a word character is put
    in upper case when no word character stands before it. *)
Fixpoint capitalise (boundary : bool) (s : list N) : list N :=
  match s with
  | [] => []
  | c :: r =>
      (if boundary && Dashboard.is_word c then toUpperCase c else c)
      :: capitalise (negb (Dashboard.is_word c)) r
  end.

(** [formatStatus]: underscores (95) become spaces (32), words are
    capitalised; an empty status reads as unknown. *)
Definition formatStatus (status : list N) : list N :=
  match status with
  | [] => LinkEncoder.lit "Unknown"
  | _ :: _ =>
      capitalise true (map (λ c, if (c =? 95)%N then 32%N else c) status)
  end.

End Libs.

(* ===================================================================== *)
(** * The actions of the project list (app/dashboard/projects/actions.ts) *)
(* ===================================================================== *)

Module ProjectSettings.

(** A row of [projects] with the columns that these actions read and
    write. *)
Module Row.
Record t := mk {
  id : string;
  editor_id : string;
  title : list N;
  description : option (list N);
  deadline : option string;
  client_name : list N;
  client_email : option (list N);
  password_protected : bool;
  access_password : option (list N);
  updated_at : string
}.
End Row.

(** The two tables that these actions touch. *)
Record Store := mkStore {
  projects : list Row.t;
  editor_profiles : list EditorProfile.t
}.

(** The fields of the form of [updateProject]; [None] is an absent
    field. *)
Module Form.
Record t := mk {
  title : option (list N);
  description : option (list N);
  deadline : option string;
  client_name : option (list N);
  client_email : option (list N);
  password_protected : option string;
  access_password : option (list N)
}.
End Form.

(** JavaScript truthiness of a text that may be [null]. *)
Definition truthy_text (s : option (list N)) : bool :=
  match s with
  | Some (_ :: _) => true
  | _ => false
  end.

(** [s?.trim() || null]. *)
Definition trimmed_or_null (s : option (list N)) : option (list N) :=
  match s with
  | Some t => if truthy_text (Some (trim t)) then Some (trim t) else None
  | None => None
  end.

(** The project with the given id that belongs to the profile of the
    signed-in user, or the error of the check that fails. *)
Definition owned_project (env : Env) (st : Store) (projectId : string)
    (denied : string) : result Row.t :=
  match session env with
  | None => Err "Not authenticated."
  | Some uid =>
    match single (filter (λ e, EditorProfile.user_id e = uid)
                         (editor_profiles st)) with
    | None => Err "Editor profile not found."
    | Some editorProfile =>
      match single (filter (λ p, Row.id p = projectId
                                 ∧ Row.editor_id p
                                   = EditorProfile.id editorProfile)
                           (projects st)) with
      | None => Err denied
      | Some project => Ok project
      end
    end
  end.

Definition updateProject (env : Env) (projectId : string) (form : Form.t)
    (st : Store) : result Response * Store :=
  match owned_project env st projectId
          "Project not found or you don't have permission to edit it." with
  | Err msg => (Err msg, st)
  | Ok project =>
    let password_protected :=
      bool_decide (Form.password_protected form = Some "true") in
    let access_password := Form.access_password form in
    let title := Form.title form in
    let client_name := Form.client_name form in
    if negb (truthy_text title && truthy_text (trim <$> title))
    then (Err "Project title cannot be empty.", st)
    else if 255 <? length (default [] title)
    then (Err "Project title is too long (max 255 chars).", st)
    else if negb (truthy_text client_name
                  && truthy_text (trim <$> client_name))
    then (Err "Client name cannot be empty.", st)
    else if password_protected && negb (Row.password_protected project)
            && negb (truthy_text access_password)
    then (Err "Password is required when enabling protection.", st)
    else
      let updated (p : Row.t) :=
        Row.mk (Row.id p) (Row.editor_id p) (trim (default [] title))
          (trimmed_or_null (Form.description form))
          (or_else (Form.deadline form) None)
          (trim (default [] client_name))
          (trimmed_or_null (Form.client_email form))
          password_protected
          (match access_password with
           | Some pw => Some (trim pw)
           | None =>
               if negb password_protected then None
               else Row.access_password p
           end)
          (now env) in
      if write_ok env "projects"
      then (Ok (Message "Project updated successfully."),
            mkStore (map (λ p, if decide (Row.id p = projectId)
                               then updated p else p) (projects st))
                    (editor_profiles st))
      else (Err ("Database error: " +:+ store_error env), st)
  end.

(** [code] is the error code of the store when it refuses the deletion. *)
Definition deleteProject (env : Env) (code : string) (projectId : string)
    (st : Store) : result Response * Store :=
  match owned_project env st projectId
          "Project not found or you don't have permission to delete it." with
  | Err msg => (Err msg, st)
  | Ok project =>
    if write_ok env "projects"
    then (Ok (Message "Project deleted successfully."),
          mkStore (filter (λ p, Row.id p ≠ projectId) (projects st))
                  (editor_profiles st))
    else if String.eqb code "23503"
    then (Err "Cannot delete project: Related data might exist.", st)
    else (Err ("Database error: " +:+ store_error env), st)
  end.

End ProjectSettings.

(* ===================================================================== *)
(** * Vocabulary of the properties *)
(* ===================================================================== *)

(** [needle] occurs in [hay]. *)
Fixpoint contains (needle hay : string) : bool :=
  String.prefix needle hay
  || match hay with
     | EmptyString => false
     | String _ rest => contains needle rest
     end.

(** The track whose decision guards a request, for the actions that read
    the decision. *)
Definition guarded_track (d : Db) (op : Op) : option Track.t :=
  match op with
  | AddReviewComment form =>
      or_else (AddForm.trackId form) None ≫= track_by_id d
  | UpdateReviewComment form =>
      snd <$> (or_else (EditForm.commentId form) None ≫= comment_with_track d)
  | DeleteReviewComment commentId => snd <$> comment_with_track d commentId
  | ClientRequestRevisions trackId => track_by_id d trackId
  | ClientApproveProject projectId trackId =>
      single (filter (λ t, Track.id t = trackId ∧ Track.project_id t = projectId)
                     (project_tracks d))
  | UpdateTrackStructure trackId _ => track_by_id d trackId
  | UpdateStepContent form => ContentForm.trackId form ≫= track_by_id d
  | _ => None
  end.

(** The error of the decision check of each of these actions. *)
Definition decision_error (op : Op) (decision : string) : string :=
  match op with
  | AddReviewComment _ | UpdateReviewComment _ | DeleteReviewComment _ =>
      "Decision (" +:+ decision +:+ ") submitted."
  | UpdateTrackStructure _ _ =>
      "Client decision is '" +:+ decision +:+ "'. Cannot modify structure."
  | UpdateStepContent _ =>
      "Client has already submitted their decision (" +:+ decision
      +:+ "). Cannot modify step content."
  | _ => "Decision already submitted."
  end.

(** The errors of the checks that come before the decision check. *)
Definition earlier_errors (op : Op) : list string :=
  match op with
  | AddReviewComment _ =>
      ["Required data missing."; "Comment cannot be empty.";
       "Invalid timestamp."; "Max 4 images."]
  | UpdateReviewComment _ =>
      ["Required data missing."; "Failed to parse existing images.";
       "You can only edit your own comments."]
  | DeleteReviewComment _ =>
      ["Comment ID missing."; "You can only delete your own comments."]
  | UpdateTrackStructure _ _ =>
      ["Invalid parameters: Track ID and steps array required.";
       "Editor not authenticated"; "Editor profile not found.";
       "Track or associated project not found.";
       "Unauthorized: Project track does not belong to this editor."]
  | UpdateStepContent _ =>
      ["Editor not authenticated"; "Missing track ID or step index.";
       "Invalid step index."; "Track or associated project not found.";
       "Unauthorized: Project track does not belong to this editor."]
  | _ => []
  end.

(** The signed-in user has a profile, and it is the editor of the project
    of the track. *)
Definition editor_owns (env : Env) (d : Db) (trackId : string) : bool :=
  match session env, track_with_project d trackId with
  | Some uid, Some (_, project) =>
      bool_decide (EditorProfile.id <$> profile_by_user d uid
                   = Some (Project.editor_id project))
  | _, _ => false
  end.

(** The comment of the request is found and is the requester's own. *)
Definition own_comment (env : Env) (d : Db) (commentId : option string)
    : bool :=
  match commentId ≫= comment_with_track d with
  | Some (c, _) => Review.isOwnComment (session env) c
  | None => false
  end.

(** No check that comes before the decision check fails: the fields of the
    request are there and valid, a comment is edited or deleted by its
    author, a track is restructured and a step edited by the editor of the
    project.  Requesting revisions and approving check nothing before the
    decision but that the track is there. *)
Definition passes_earlier_checks (env : Env) (d : Db) (op : Op) : bool :=
  match op with
  | AddReviewComment form =>
      truthy (AddForm.trackId form)
      && match AddForm.timestamp form with
         | Some (Some t) => negb (Number.negative t)
         | _ => false
         end
      && negb (match AddForm.commentText form with
               | Some t => bool_decide (trim t = [])
               | None => true
               end
               && bool_decide (AddForm.images form = []))
      && negb (MAX_IMAGES_PER_COMMENT <? length (AddForm.images form))
  | UpdateReviewComment form =>
      truthy (EditForm.commentId form)
      && bool_decide (is_Some (EditForm.newCommentText form))
      && bool_decide (is_Some (mjoin (EditForm.existingImages form)))
      && own_comment env d (EditForm.commentId form)
  | DeleteReviewComment commentId =>
      truthy (Some commentId) && own_comment env d (Some commentId)
  | UpdateTrackStructure trackId _ =>
      truthy (Some trackId) && editor_owns env d trackId
  | UpdateStepContent form =>
      match ContentForm.trackId form, ContentForm.stepIndex form with
      | Some trackId, Some (Some stepIndex) =>
          negb (stepIndex <? 0)%Z && editor_owns env d trackId
      | _, _ => false
      end
  | _ => true
  end.

(** Exactly one step is final, and it is the last one. *)
Definition final_last (steps : list Step.t) : Prop :=
  ∃ init fin, steps = init ++ [fin] ∧ final fin = true
              ∧ Forall (λ s, final s = false) init.

(** The actions that build the step list of a round: round creation,
    restructuring, and the next round of a revision request. *)
Definition builds_round (op : Op) : bool :=
  match op with
  | CreateProject _ | CreateInitialRound _ _ _ | DeliverInitialRound _ _ _
  | UpdateTrackStructure _ _ | ClientRequestRevisions _ => true
  | _ => false
  end.

(** The prior step that a descriptor matches: the last non-final step with
    the descriptor's comment id, when that id is not empty. *)
Definition matching_prior (originalSteps : list Step.t) (info : StepInfo.t)
    : option Step.t :=
  match StepInfo.metadata info ≫= Metadata.comment_id with
  | Some cid =>
      if String.eqb cid "" then None
      else last (filter (λ s, final s = false
                              ∧ Step.metadata s ≫= Metadata.comment_id
                                = Some cid)
                        originalSteps)
  | None => None
  end.

Definition step_timestamp (s : Step.t) : option Number.t :=
  Step.metadata s ≫= Metadata.timestamp.

(** The ownership predicate of the specification. *)
Definition isOwn (user : option string) (c : Comment.t) : Prop :=
  (∃ uid, user = Some uid ∧ Comment.commenter_id c = Some uid)
  ∨ (Comment.commenter_id c = None ∧ user = None).

(** The comment that a request edits or deletes. *)
Definition edited_comment (op : Op) : option string :=
  match op with
  | UpdateReviewComment form => or_else (EditForm.commentId form) None
  | DeleteReviewComment commentId => Some commentId
  | _ => None
  end.

(** A computation that leaves the store alone. *)
Definition keeps_db {A} (c : M A) : Prop :=
  ∀ w r w', c w = (r, w') → db w' = db w.

(** What a computation returns when it returns. *)
Definition returns {A} (P : A → Prop) (c : M A) : Prop :=
  ∀ w a w', c w = (Ok a, w') → P a.

(** A step that is not final. *)
Definition plain (s : Step.t) : Prop := final s = false.

(** The round that a request of these actions writes when it succeeds.
    [createProject] and a revision request append one track, whose steps
    end with their one final step, and keep the steps of every track that
    was there.  The other actions write the tracks with the given id, of
    which there is one, so that their steps end with their one final step,
    and leave every other track as it was. *)
Definition round_written (op : Op) (w w' : World) : Prop :=
  match op with
  | CreateProject _ | ClientRequestRevisions _ =>
      ∃ kept t',
        project_tracks (db w') = kept ++ [t']
        ∧ Forall2 (λ t u, Track.id u = Track.id t
                          ∧ Track.steps u = Track.steps t)
                  (project_tracks (db w)) kept
        ∧ final_last (Track.steps t')
  | CreateInitialRound _ trackId _ | DeliverInitialRound trackId _ _
  | UpdateTrackStructure trackId _ =>
      (∃ t, t ∈ project_tracks (db w) ∧ Track.id t = trackId)
      ∧ Forall2 (λ t u, Track.id u = Track.id t
                        ∧ if decide (Track.id t = trackId)
                          then final_last (Track.steps u)
                          else u = t)
                (project_tracks (db w)) (project_tracks (db w'))
  | _ => False
  end.

(** A metadata field of a step and of a descriptor. *)
Definition step_field {A} (f : Metadata.t → option A) (s : Step.t) : option A :=
  Step.metadata s ≫= f.
Definition info_field {A} (f : Metadata.t → option A) (i : StepInfo.t)
    : option A :=
  StepInfo.metadata i ≫= f.

(** The rows of an edit: same identity, same position in time. *)
Definition same_place (commentId : option string) (old new : Comment.t)
    : Prop :=
  Comment.id new = Comment.id old
  ∧ Comment.track_id new = Comment.track_id old
  ∧ CommentData.timestamp (Comment.comment new)
    = CommentData.timestamp (Comment.comment old)
  ∧ Comment.commenter_id new = Comment.commenter_id old
  ∧ Comment.created_at new = Comment.created_at old
  ∧ (Some (Comment.id old) ≠ commentId → new = old).

(** A step of the first track of the store. *)
Definition step_at (w : World) (i : nat) : option Step.t :=
  head (project_tracks (db w)) ≫= λ t, Track.steps t !! i.

(** A file that the image pipeline accepts: at most 5 MiB, of one of the
    three image types. *)
Definition acceptable (f : File.t) : Prop :=
  (File.size f ≤ IMAGE_MAX_SIZE_BYTES)%N ∧ File.type f ∈ ACCEPTED_IMAGE_TYPES.

(** The number of images that a request would leave on its comment or
    step, for the actions that count them. *)
Definition images_after (op : Op) : nat :=
  match op with
  | AddReviewComment form => length (AddForm.images form)
  | UpdateReviewComment form =>
      match EditForm.newImages form with
      | [] => 0
      | _ :: _ =>
          length (default [] (mjoin (EditForm.existingImages form)))
          + length (EditForm.newImages form)
      end
  | UpdateStepContent form =>
      match ContentForm.newImages form with
      | [] => 0
      | _ :: _ =>
          length (default [] (mjoin (ContentForm.existingImages form)))
          + length (ContentForm.newImages form)
      end
  | _ => 0
  end.

(** A step with another status and deliverable link. *)
Definition with_status_and_link (s : Step.t) (status : StepStatus)
    (link : option string) : Step.t :=
  Step.mk (Step.name s) status (Step.is_final s) link (Step.metadata s).

(** The world after the step [i] of the track [trackId] was replaced by
    [s] and the media type of the track set to [media]. *)
Definition status_written (env : Env) (trackId : string) (t : Track.t)
    (i : nat) (s : Step.t) (media : option MediaType) (w : World) : World :=
  mkWorld
    (update_tracks trackId
       (λ t', Track.mk (Track.id t') (Track.project_id t')
                (Track.round_number t') (Track.status t')
                (<[i := s]> (Track.steps t)) (Track.client_decision t')
                media (now env))
       (db w))
    (requests w).

(** The track that an editor's request changes. *)
Definition edited_track (op : Op) : option string :=
  match op with
  | UpdateTrackStructure trackId _ => Some trackId
  | UpdateStepContent form => ContentForm.trackId form
  | UpdateAllStepContent form => or_else (BulkForm.trackId form) None
  | _ => None
  end.

(** The signed-in user is the editor of the project of the track. *)
Definition owns_track (env : Env) (d : Db) (trackId : string) : Prop :=
  ∃ uid profile t p,
    session env = Some uid
    ∧ profile_by_user d uid = Some profile
    ∧ track_with_project d trackId = Some (t, p)
    ∧ Project.editor_id p = EditorProfile.id profile.

(** The step that carries a comment into the next round. *)
Definition carried (i : nat) (c : Comment.t) : Step.t :=
  Step.mk None Pending None None
    (Some (Metadata.mk (Some "comment") (Some (Comment.id c))
             (Some (CommentData.text (Comment.comment c)))
             (Some (CommentData.timestamp (Comment.comment c)))
             (Some (default [] (CommentData.images (Comment.comment c))))
             (Some (default [] (CommentData.links (Comment.comment c))))
             (Some (Comment.created_at c)) (Some i))).

(** What is known of a match of the pattern in [t]. *)
Definition match_of (t u : list N) : Prop :=
  ∃ k n, LinkEncoder.url_at (drop k t) = Some n ∧ u = take n (drop k t).

(** The link table of a scan: its entries are matches, each once, with the
    url as text. *)
Definition table_ok (t : list N) (links : list LinkEncoder.Link) : Prop :=
  NoDup (LinkEncoder.url <$> links)
  ∧ ∀ l, l ∈ links → LinkEncoder.text l = LinkEncoder.url l
         ∧ match_of t (LinkEncoder.url l).

(** The tables that a request may write. *)
Definition writes_comments (op : Op) : bool :=
  match op with
  | AddReviewComment _ | UpdateReviewComment _ | DeleteReviewComment _ => true
  | _ => false
  end.

Definition writes_projects (op : Op) : bool :=
  match op with
  | CreateProject _ => true
  | _ => false
  end.

(** The requests that end in a stored procedure. *)
Definition calls_procedure (op : Op) : bool :=
  match op with
  | ClientRequestRevisions _ | ClientApproveProject _ _ => true
  | _ => false
  end.

(** A computation that may send uploads and does nothing else. *)
Definition only_uploads {A} (c : M A) : Prop :=
  ∀ w r w', c w = (r, w') → db w' = db w ∧ requests w `prefix_of` requests w'.

(** The files that an action sends: the ones that are not empty. *)
Definition sent (files : list File.t) : list File.t :=
  filter (λ f, File.size f ≠ 0%N) files.

(** The first round that a request writes: the track, the feedback items,
    and the status of the steps, the deliverable link and the status of
    the track that it writes. *)
Definition first_round (op : Op)
    : option (string * list RoundComment.t * StepStatus * option string
              * string) :=
  match op with
  | DeliverInitialRound trackId deliverableLink comments =>
      Some (trackId, comments, Completed, Some deliverableLink, "in_review")
  | CreateInitialRound _ trackId comments =>
      Some (trackId, comments, Pending, None, "in_progress")
  | _ => None
  end.

(** A step of the next round carries a comment. *)
Definition carries (c : Comment.t) (s : Step.t) : Prop :=
  Step.status s = Pending
  ∧ final s = false
  ∧ Step.deliverable_link s = None
  ∧ step_field Metadata.comment_id s = Some (Comment.id c)
  ∧ step_field Metadata.text s = Some (CommentData.text (Comment.comment c))
  ∧ step_timestamp s = Some (CommentData.timestamp (Comment.comment c))
  ∧ step_field Metadata.images s
    = Some (default [] (CommentData.images (Comment.comment c)))
  ∧ step_field Metadata.links s
    = Some (default [] (CommentData.links (Comment.comment c)))
  ∧ step_field Metadata.created_at s = Some (Comment.created_at c).

(** A stored step keeps the frame of the submitted one: name, status,
    flag and deliverable link, the presence of metadata, the comment id,
    and the timestamp when one was submitted. *)
Definition same_frame (s s' : Step.t) : Prop :=
  Step.name s' = Step.name s
  ∧ Step.status s' = Step.status s
  ∧ Step.is_final s' = Step.is_final s
  ∧ Step.deliverable_link s' = Step.deliverable_link s
  ∧ (is_Some (Step.metadata s') ↔ is_Some (Step.metadata s))
  ∧ step_field Metadata.comment_id s' = step_field Metadata.comment_id s
  ∧ (is_Some (step_timestamp s) → step_timestamp s' = step_timestamp s).

(** The signed-in user is the editor of the project [p]. *)
Definition edits (env : Env) (st : ProjectSettings.Store)
    (p : ProjectSettings.Row.t) : Prop :=
  ∃ uid profile,
    session env = Some uid
    ∧ profile ∈ ProjectSettings.editor_profiles st
    ∧ EditorProfile.user_id profile = uid
    ∧ ProjectSettings.Row.editor_id p = EditorProfile.id profile
    ∧ p ∈ ProjectSettings.projects st.

(** A protected project has a password that is not empty: one that a
    visitor can enter. *)
Definition well_protected (p : ProjectSettings.Row.t) : Prop :=
  ProjectSettings.Row.password_protected p = true →
  ∃ pw, ProjectSettings.Row.access_password p = Some pw ∧ pw ≠ [].

(* ===================================================================== *)
(** * A sample project *)
(* ===================================================================== *)

(** One project of editor [e1] (user [u1]) with one track [t1]; the image
    host answers every request, the store accepts every write. *)
Module Sample.
Import LinkEncoder.

Definition env (user : option string) : Env :=
  mkEnv user "2025-05-01T10:00:00Z" true
        (λ f, Ok ("https://i.ibb.co/" +:+ File.name f))
        (λ _, true) "store error" (λ table, "new-" +:+ table).

Definition feedback (cid : string) (seconds : Z) (status : StepStatus)
    : Step.t :=
  Step.mk (Some "Step 1") status (Some false) None
    (Some (Metadata.mk (Some "comment") (Some cid) (Some (lit "fix the cut"))
             (Some (Number.of_Z seconds)) (Some []) (Some [])
             (Some "2025-04-30T09:00:00Z") (Some 0))).

Definition finish : Step.t :=
  Step.mk (Some "Finish") Pending (Some true) None None.

Definition track (decision : string) : Track.t :=
  Track.mk "t1" "p1" 1 "in_review" [feedback "c1" 2 Completed; finish]
           decision None "2025-04-30T09:00:00Z".

Definition comment (id : string) (timestamp : Number.t)
    (author : option string) : Comment.t :=
  Comment.mk id "t1" (CommentData.mk (lit "too dark") timestamp None None)
             (Some "Ann") author "2025-04-30T12:00:00Z".

Definition world (decision : string) (comments : list Comment.t) : World :=
  mkWorld
    (mkDb [track decision] comments
          [Project.mk "p1" "e1" "Trailer" "active" "Ann" false None]
          [EditorProfile.mk "e1" "u1"; EditorProfile.mk "e2" "u2"])
    [].

Definition png (name : string) : File.t := File.mk name "image/png" 1000.

(** A descriptor that names the comment [c1] and brings its own
    timestamp. *)
Definition descriptor (seconds : Z) : StepInfo.t :=
  StepInfo.mk (Some "Colour")
    (Some (Metadata.mk None (Some "c1") (Some (lit "fix the colour")) 
             (Some (Number.of_Z seconds)) None None None None)).

(** A bulk update that attaches five new images to the first step. *)
Definition bulk : BulkForm.t :=
  BulkForm.mk (Some "t1")
    (Some (Some (BulkForm.mkPayload [feedback "c1" 2 Completed; finish]
                   [] [0])))
    (λ i, match i with
          | O => [png "a.png"; png "b.png"; png "c.png"; png "d.png";
                  png "e.png"]
          | S _ => []
          end).

Definition add_form : AddForm.t :=
  AddForm.mk (Some "t1") (Some (Some (Number.mk 105 1)))
             (Some (lit "too dark")) (Some "Ann") [] None.

Definition edit_form : EditForm.t :=
  EditForm.mk (Some "k1") (Some (lit "see https://x.io/ref"))
              (Some (Some [])) None [].
End Sample.

(** More sample data: files, forms, and the project protected and
    delivered. *)
Module Cases.
Import LinkEncoder.

Definition gif : File.t := File.mk "a.gif" "image/gif" 10.

(** A comment with one image. *)
Definition add_with_image : AddForm.t :=
  AddForm.mk (Some "t1") (Some (Some (Number.of_Z 3)))
             (Some (lit " too dark ")) (Some "Ann") [Sample.png "a.png"] None.

(** A comment with an image and a file that is no image. *)
Definition add_with_gif : AddForm.t :=
  AddForm.mk (Some "t1") (Some (Some (Number.of_Z 3)))
             (Some (lit "too dark")) (Some "Ann") [Sample.png "a.png"; gif]
             None.

Definition add_five : AddForm.t :=
  AddForm.mk (Some "t1") (Some (Some (Number.of_Z 3)))
             (Some (lit "too dark")) (Some "Ann")
             [Sample.png "a.png"; Sample.png "b.png"; Sample.png "c.png";
              Sample.png "d.png"; Sample.png "e.png"] None.

(** The sample project with a comment [k1] of user [u1]. *)
Definition commented : World :=
  Sample.world "pending" [Sample.comment "k1" (Number.of_Z 2) (Some "u1")].

Definition content : ContentForm.t :=
  ContentForm.mk (Some "t1") (Some (Some 0%Z)) (Some (lit "fix the grade"))
                 (Some (Some ["https://i.ibb.co/old.png"]))
                 [Sample.png "a.png"].

Definition project : ProjectForm.t :=
  ProjectForm.mk (Some "Teaser") (Some (Some [(lit "shorten the intro", None)]))
                 (Some "Bob") false (Some "unused") (λ _ _, None).

(** A bulk update that submits the first step of the sample track and no
    final step. *)
Definition no_final : BulkForm.t :=
  BulkForm.mk (Some "t1")
    (Some (Some (BulkForm.mkPayload [Sample.feedback "c1" 2 Completed] [] [])))
    (λ _, []).

(** The sample environment with a store that refuses tracks. *)
Definition no_tracks : Env :=
  mkEnv (Some "u1") "2025-05-01T10:00:00Z" true
        (λ f, Ok ("https://i.ibb.co/" +:+ File.name f))
        (λ table, negb (String.eqb table "project_tracks")) "store error"
        (λ table, "new-" +:+ table).

(** The same, with a store that refuses the delete request of the
    rollback as well. *)
Definition no_rollback : Env :=
  mkEnv (Some "u1") "2025-05-01T10:00:00Z" true
        (λ f, Ok ("https://i.ibb.co/" +:+ File.name f))
        (λ table, String.eqb table "projects") "store error"
        (λ table, "new-" +:+ table).

(** The sample project, protected, with its round delivered. *)
Definition delivered : Track.t :=
  Track.mk "t1" "p1" 1 "in_review"
    [Sample.feedback "c1" 2 Completed;
     Step.mk (Some "Finish") Completed (Some true) (Some "https://v.io/1")
             None]
    "pending" (Some Video) "2025-04-30T09:00:00Z".

Definition protected : Db :=
  mkDb [delivered]
       [Sample.comment "k2" (Number.of_Z 10) None;
        Sample.comment "k1" (Number.of_Z 2) (Some "u1")]
       [Project.mk "p1" "e1" "Trailer" "active" "Ann" true (Some "secret")]
       [EditorProfile.mk "e1" "u1"].

End Cases.

Module SettingsCases.
Import LinkEncoder.

(** The project [p1] of editor [e1], not protected, and a project of
    another editor. *)
Definition store : ProjectSettings.Store :=
  ProjectSettings.mkStore
    [ProjectSettings.Row.mk "p1" "e1" (lit "Trailer") None None (lit "Ann")
       None false None "2025-04-30T09:00:00Z";
     ProjectSettings.Row.mk "p2" "e2" (lit "Teaser") None None (lit "Bob")
       None true (Some (lit "hunter2")) "2025-04-30T09:00:00Z"]
    [EditorProfile.mk "e1" "u1"; EditorProfile.mk "e2" "u2"].

(** A form that renames the project and switches protection on. *)
Definition protect : ProjectSettings.Form.t :=
  ProjectSettings.Form.mk (Some (lit " Trailer v2 ")) None None
    (Some (lit "Ann")) None (Some "true") (Some (lit "secret")).

(** The same form with a password of three blanks. *)
Definition blank : ProjectSettings.Form.t :=
  ProjectSettings.Form.mk (Some (lit " Trailer v2 ")) None None
    (Some (lit "Ann")) None (Some "true") (Some (lit "   ")).

End SettingsCases.

(* ===================================================================== *)
(** * The encoder on sample texts *)
(* ===================================================================== *)

Module EncoderExamples.
Import LinkEncoder.

Example encode_two_urls :
  detectAndExtractLinks (lit "see http://a.com and http://a.com/b now")
  = (lit "see [LINK:0] and [LINK:1] now",
     [mkLink (lit "http://a.com") (lit "http://a.com");
      mkLink (lit "http://a.com/b") (lit "http://a.com/b")]).
Proof. vm_compute. reflexivity. Qed.

Example encode_repeated_url :
  detectAndExtractLinks (lit "https://x.org/a?b=1 then https://x.org/a?b=1")
  = (lit "[LINK:0] then [LINK:0]",
     [mkLink (lit "https://x.org/a?b=1") (lit "https://x.org/a?b=1")]).
Proof. vm_compute. reflexivity. Qed.

Example decode_two_urls :
  let r := detectAndExtractLinks (lit "see http://a.com and http://a.com/b now") in
  renderPlainTextWithUrls (Some r.1) (Some r.2)
  = lit "see http://a.com and http://a.com/b now".
Proof. vm_compute. reflexivity. Qed.

End EncoderExamples.

(* ===================================================================== *)
(** * Facts about the link encoder *)
(* ===================================================================== *)

Module LinkEncoderFacts.
Import LinkEncoder.

Lemma starts_with_prefix p s : starts_with p s = true ↔ p `prefix_of` s.
Proof.
  revert s; induction p as [|a p IH]; intros [|b s]; simpl.
  - split; [intros _; apply prefix_nil | done].
  - split; [intros _; apply prefix_nil | done].
  - split; [done | intros H; by apply prefix_nil_not in H].
  - rewrite andb_true_iff, N.eqb_eq, IH. split.
    + intros [-> H]. by apply prefix_cons.
    + intros H. split; [by apply prefix_cons_inv_1 in H
                       | by apply prefix_cons_inv_2 in H].
Qed.

Lemma starts_with_app p r : starts_with p (p ++ r) = true.
Proof. apply starts_with_prefix, prefix_app_r. done. Qed.

Lemma starts_with_split p s :
  starts_with p s = true → s = p ++ drop (length p) s.
Proof.
  intros [k ->]%starts_with_prefix. by rewrite drop_app_length.
Qed.

Lemma scheme_at_spec s k :
  scheme_at s = Some k →
  ∃ sch, (sch = https_scheme ∨ sch = http_scheme)
         ∧ length sch = k ∧ s = sch ++ drop k s.
Proof.
  unfold scheme_at. intros H.
  destruct (starts_with (lit "https://") s) eqn:E1.
  - inversion H; subst. exists https_scheme. split; [by left|].
    split; [done|]. by apply starts_with_split in E1.
  - destruct (starts_with (lit "http://") s) eqn:E2; [|done].
    inversion H; subst. exists http_scheme. split; [by right|].
    split; [done|]. by apply starts_with_split in E2.
Qed.

Lemma scheme_at_https r : scheme_at (https_scheme ++ r) = Some 8.
Proof. unfold scheme_at. by rewrite (starts_with_app (lit "https://")). Qed.

Lemma scheme_at_http c r :
  scheme_at (http_scheme ++ c :: r) = Some 7.
Proof.
  unfold scheme_at.
  replace (starts_with (lit "https://") (http_scheme ++ c :: r)) with false
    by reflexivity.
  by rewrite (starts_with_app (lit "http://")).
Qed.

Lemma take_while_nonempty p s :
  take_while p s ≠ [] ↔ ∃ c r, s = c :: r ∧ p c = true.
Proof.
  destruct s as [|c r]; simpl.
  - split; [done | by intros (?&?&?&?)].
  - destruct (p c) eqn:E.
    + split; [eauto | done].
    + split; [done | intros (?&?&[= <- <-]&?); congruence].
Qed.

Lemma take_while_length p s : length (take_while p s) ≤ length s.
Proof. induction s as [|c s IH]; simpl; [lia|]. destruct (p c); simpl; lia. Qed.

Lemma url_at_none s : url_at s = None → ¬ is_url_start s.
Proof.
  unfold url_at. intros H (sch & c & r & Hs & -> & Hc).
  destruct Hs as [-> | ->].
  - rewrite scheme_at_https in H.
    change (drop 8 (https_scheme ++ c :: r)) with (c :: r) in H.
    simpl in H. by rewrite Hc in H.
  - rewrite scheme_at_http in H.
    change (drop 7 (http_scheme ++ c :: r)) with (c :: r) in H.
    simpl in H. by rewrite Hc in H.
Qed.

Lemma url_at_some s n :
  url_at s = Some n →
  1 ≤ n ≤ length s ∧ is_url_start (take n s).
Proof.
  unfold url_at. intros H.
  destruct (scheme_at s) as [k|] eqn:Hk; [|done].
  destruct (scheme_at_spec _ _ Hk) as (sch & Hsch & Hlen & Hs).
  destruct (length (take_while url_char (drop k s))) as [|m] eqn:Hm; [done|].
  inversion H; subst n; clear H.
  assert (Hne : take_while url_char (drop k s) ≠ []).
  { intros E. by rewrite E in Hm. }
  apply take_while_nonempty in Hne as (c & r & Hd & Hc).
  pose proof (take_while_length url_char (drop k s)) as Hle.
  rewrite Hm, length_drop in Hle.
  assert (k ≤ length s).
  { rewrite Hs, length_app. lia. }
  split; [lia|].
  exists sch, c, (take m r). split; [done|]. split; [|done].
  rewrite Hs at 1. rewrite Hd.
  rewrite take_app, <- Hlen.
  rewrite take_ge by lia.
  replace (length sch + S m - length sch) with (S m) by lia.
  done.
Qed.

Lemma is_url_start_app u r : is_url_start u → is_url_start (u ++ r).
Proof.
  intros (sch & c & r' & Hs & -> & Hc). exists sch, c, (r' ++ r).
  split; [done|]. split; [|done]. by rewrite <- app_assoc.
Qed.

Lemma is_url_start_head s : is_url_start s → ∃ r, s = 104%N :: r.
Proof. intros (sch & c & r & [-> | ->] & -> & _); eexists; reflexivity. Qed.

Lemma is_url_start_nonempty u : is_url_start u → u ≠ [].
Proof. intros [r ->]%is_url_start_head. done. Qed.

(** Putting a bracket where a URL stood, after some text, starts no new
    match in that text. *)
Lemma is_url_start_bracket q u x y :
  q ≠ [] → is_url_start u →
  is_url_start (q ++ 91%N :: x) → is_url_start (q ++ u ++ y).
Proof.
  intros Hq Hu (sch & c & r & Hs & Heq & Hc).
  apply app_eq_inv in Heq as [(k & -> & Hk) | (k & -> & Hk)].
  - destruct k as [|c' k]; simpl in Hk.
    + apply is_url_start_head in Hu as [u' ->].
      exists sch, 104%N, (u' ++ y). by rewrite app_nil_r.
    + inversion Hk; subst. exists sch, c', (k ++ u ++ y).
      split; [done|]. split; [|done]. by rewrite <- app_assoc.
  - destruct k as [|c' k]; simpl in Hk.
    + rewrite app_nil_r in *. inversion Hk; subst.
      apply is_url_start_head in Hu as [u' ->].
      exists q, 104%N, (u' ++ y). done.
    + inversion Hk; subst c'. exfalso.
      assert (Hin : ∀ l : jstring, q ++ 91%N :: k = l → 91%N ∈ l).
      { intros l <-. apply elem_of_app. right. left. }
      destruct Hs as [Hs | Hs]; apply Hin, (bool_decide_pack _) in Hs;
        by vm_compute in Hs.
Qed.

Lemma tokenize_skip a b : tokenize (length a) (a ++ b) = tokenize 0 b.
Proof. induction a as [|c a IH]; simpl; [by destruct b | done]. Qed.

Lemma tokenize_match s n :
  url_at s = Some n → tokenize 0 s = Url (take n s) :: tokenize 0 (drop n s).
Proof.
  intros H. destruct (url_at_some _ _ H) as [[H1 H2] _].
  destruct s as [|c s]; [simpl in H2; lia|].
  simpl tokenize. rewrite H. f_equal.
  destruct n as [|n]; [lia|]. simpl. rewrite Nat.sub_0_r.
  rewrite <- (take_drop n s) at 1.
  rewrite <- tokenize_skip with (a := take n s).
  rewrite length_take. simpl in H2. by rewrite Nat.min_l by lia.
Qed.

Lemma tokenize_ok_aux n s :
  length s ≤ n → tokens_ok (tokenize 0 s) ∧ flatten (tokenize 0 s) = s.
Proof.
  revert s; induction n as [|n IH]; intros s Hn.
  - destruct s; [|simpl in Hn; lia]. split; [constructor | done].
  - destruct s as [|c s]; [split; [constructor | done]|].
    destruct (url_at (c :: s)) as [m|] eqn:Hm.
    + rewrite (tokenize_match _ _ Hm).
      destruct (url_at_some _ _ Hm) as [[H1 H2] H3].
      destruct (IH (drop m (c :: s))) as [IH1 IH2].
      { rewrite length_drop. simpl in *. lia. }
      split.
      * by constructor.
      * simpl. rewrite IH2. apply take_drop.
    + simpl tokenize. rewrite Hm.
      destruct (IH s) as [IH1 IH2]; [simpl in Hn; lia|].
      split.
      * constructor; [|done]. rewrite IH2. by apply url_at_none.
      * simpl. by rewrite IH2.
Qed.

Lemma tokenize_ok s : tokens_ok (tokenize 0 s).
Proof. by apply (tokenize_ok_aux (length s)). Qed.

Lemma flatten_tokenize s : flatten (tokenize 0 s) = s.
Proof. by apply (tokenize_ok_aux (length s)). Qed.

(** ** The link table *)

Lemma findIndex_app_l u l m i :
  findIndex u l = Some i → findIndex u (l ++ m) = Some i.
Proof.
  revert i; induction l as [|x l IH]; intros i; simpl; [done|].
  case_bool_decide; [done|].
  destruct (findIndex u l) as [j|]; simpl; [|done].
  intros [= <-]. by rewrite (IH j).
Qed.

Lemma findIndex_lookup u l i :
  findIndex u l = Some i → ∃ lk, l !! i = Some lk ∧ url lk = u.
Proof.
  revert i; induction l as [|x l IH]; intros i; simpl; [done|].
  case_bool_decide as Hx.
  - intros [= <-]. by exists x.
  - destruct (findIndex u l) as [j|]; simpl; [|done].
    intros [= <-]. by apply IH.
Qed.

Lemma findIndex_none u l : findIndex u l = None ↔ u ∉ url <$> l.
Proof.
  induction l as [|x l IH]; simpl.
  - split; [intros _; apply not_elem_of_nil | done].
  - rewrite not_elem_of_cons. case_bool_decide as Hx.
    + split; [done | intros [? _]; congruence].
    + destruct (findIndex u l); simpl.
      * split; [done|]. intros [_ H]. by apply IH in H.
      * split; [|done]. intros _. split; [congruence | by apply IH].
Qed.

Lemma findIndex_snoc u l :
  findIndex u l = None → findIndex u (l ++ [mkLink u u]) = Some (length l).
Proof.
  induction l as [|x l IH]; simpl.
  - intros _. by rewrite bool_decide_eq_true_2.
  - case_bool_decide; [done|].
    destruct (findIndex u l); simpl; [done|]. intros _. by rewrite IH.
Qed.

Lemma intern_index u l : findIndex u (intern u l).2 = Some (intern u l).1.
Proof.
  unfold intern. destruct (findIndex u l) eqn:E; simpl; [done|].
  by apply findIndex_snoc.
Qed.

Lemma intern_extends u l : ∃ m, (intern u l).2 = l ++ m.
Proof.
  unfold intern. destruct (findIndex u l); simpl.
  - exists []. by rewrite app_nil_r.
  - by eexists.
Qed.

Lemma collect_extends toks : ∀ l, ∃ m, collect l toks = l ++ m.
Proof.
  induction toks as [|[c|u] r IH]; intros l; simpl.
  - exists []. by rewrite app_nil_r.
  - apply IH.
  - destruct (intern_extends u l) as [m1 ->].
    destruct (IH (l ++ m1)) as [m2 ->]. exists (m1 ++ m2).
    by rewrite app_assoc.
Qed.

Lemma collect_index u r l :
  findIndex u (collect (intern u l).2 r) = Some (intern u l).1.
Proof.
  destruct (collect_extends r (intern u l).2) as [m ->].
  apply findIndex_app_l, intern_index.
Qed.

(** ** One step of the loop *)

Lemma extract_step_intern orig txt links pos u :
  substring (pos - 6) pos orig ≠ lit "[LINK:" →
  extract_step orig (txt, links) (pos, u)
  = (replace_first u (placeholder (intern u links).1) txt, (intern u links).2).
Proof.
  intros H. unfold extract_step, intern.
  rewrite bool_decide_eq_false_2 by done.
  by destruct (findIndex u links).
Qed.

Lemma no_placeholder_guard orig pos :
  no_placeholder orig → substring (pos - 6) pos orig ≠ lit "[LINK:".
Proof.
  intros Hno Heq. specialize (Hno (pos - 6)).
  assert (starts_with (lit "[LINK:") (drop (pos - 6) orig) = true); [|congruence].
  apply starts_with_prefix. rewrite <- Heq. unfold substring.
  eexists. symmetry. apply take_drop.
Qed.

Lemma replace_first_hit pat rep s :
  pat ≠ [] → starts_with pat s = true →
  replace_first pat rep s = rep ++ drop (length pat) s.
Proof.
  intros Hp H. destruct s as [|c s]; [by destruct pat|].
  cbn [replace_first]. by rewrite H.
Qed.

Lemma replace_first_miss pat rep c s :
  starts_with pat (c :: s) = false →
  replace_first pat rep (c :: s) = c :: replace_first pat rep s.
Proof. intros H. cbn [replace_first]. by rewrite H. Qed.

Lemma replace_first_at u ph P rest :
  u ≠ [] →
  (∀ k, k < length P → starts_with u (drop k (P ++ u ++ rest)) = false) →
  replace_first u ph (P ++ u ++ rest) = P ++ ph ++ rest.
Proof.
  intros Hu. induction P as [|c P IH]; intros H.
  - rewrite app_nil_l.
    rewrite replace_first_hit by (done || apply starts_with_app).
    by rewrite drop_app_length.
  - rewrite <- !app_comm_cons.
    rewrite replace_first_miss by (apply (H 0); simpl; lia).
    f_equal. apply IH. intros k Hk. apply (H (S k)). simpl. lia.
Qed.

Lemma placeholder_head i : ∃ r, placeholder i = 91%N :: r.
Proof. eexists. reflexivity. Qed.

Lemma uint_codes_digits d : Forall (λ c, is_digit c = true) (uint_codes d).
Proof. induction d; simpl; constructor; done. Qed.

Lemma placeholder_not_h i : 104%N ∉ placeholder i.
Proof.
  unfold placeholder. rewrite !elem_of_app. intros [H | [H | H]].
  - apply (bool_decide_pack _) in H. by vm_compute in H.
  - pose proof (uint_codes_digits (Nat.to_uint i)) as Hd.
    rewrite Forall_forall in Hd. apply Hd in H. by vm_compute in H.
  - apply (bool_decide_pack _) in H. by vm_compute in H.
Qed.

Lemma drop_in_placeholder i j X :
  j < length (placeholder i) → ¬ is_url_start (drop j (placeholder i ++ X)).
Proof.
  intros Hj Hs. apply is_url_start_head in Hs as [r Hr].
  rewrite drop_app_le in Hr by lia.
  destruct (drop j (placeholder i)) as [|c q] eqn:E.
  - apply (f_equal length) in E. rewrite length_drop in E.
    change (length (@nil N)) with 0 in E. lia.
  - simpl in Hr. inversion Hr; subst c.
    apply (placeholder_not_h i).
    apply (list_elem_of_lookup_2 _ j).
    rewrite <- (Nat.add_0_r j), <- lookup_drop, E. done.
Qed.

(** ** The loop over the matches *)

Lemma no_placeholder_app pre s :
  no_placeholder (pre ++ s) → no_placeholder s.
Proof.
  intros H k. specialize (H (length pre + k)).
  by rewrite <- drop_drop, drop_app_length in H.
Qed.

Lemma fold_scan orig toks :
  tokens_ok toks → no_placeholder orig →
  ∀ P links pre,
    orig = pre ++ flatten toks →
    (∀ k, k < length P → ¬ is_url_start (drop k (P ++ flatten toks))) →
    foldl (extract_step orig) (P ++ flatten toks, links)
          (matches_of (length pre) toks)
    = (P ++ render (collect links toks) toks, collect links toks).
Proof.
  intros Hok Hno. induction Hok as [|c r Hc Hr IH|u r Hu Hr IH];
    intros P links pre Horig Hinv.
  - done.
  - cbn [matches_of flatten render collect].
    replace (S (length pre)) with (length (pre ++ [c]))
      by (rewrite length_app; simpl; lia).
    rewrite (cons_middle c P (flatten r)), (cons_middle c P (render _ r)).
    rewrite !app_assoc. apply IH.
    + by rewrite <- app_assoc.
    + intros k Hk. rewrite <- app_assoc. simpl.
      rewrite length_app in Hk. simpl in Hk.
      destruct (decide (k < length P)) as [Hlt|Hge]; [by apply Hinv|].
      replace k with (length P) by lia.
      rewrite drop_app_length. exact Hc.
  - cbn [matches_of flatten render collect foldl].
    rewrite extract_step_intern by (by apply no_placeholder_guard).
    rewrite replace_first_at; cycle 1.
    { by apply is_url_start_nonempty. }
    { intros k Hk. destruct (starts_with u _) eqn:E; [|done]. exfalso.
      apply (Hinv k Hk). apply starts_with_split in E. simpl. rewrite E.
      by apply is_url_start_app. }
    rewrite collect_index. simpl default.
    replace (length pre + length u) with (length (pre ++ u))
      by (by rewrite length_app).
    rewrite !app_assoc. apply IH.
    + rewrite Horig. simpl. by rewrite <- app_assoc.
    + intros k Hk. rewrite <- app_assoc.
      destruct (decide (k < length P)) as [Hlt|Hge].
      * intros Hs. apply (Hinv k Hlt). simpl.
        rewrite drop_app_le in Hs |- * by lia.
        destruct (placeholder_head (intern u links).1) as [x Hx].
        rewrite Hx in Hs. simpl in Hs.
        apply is_url_start_bracket with (x := x ++ flatten r); [|done|done].
        intros E. apply (f_equal length) in E. rewrite length_drop in E.
        simpl in E. lia.
      * rewrite length_app in Hk.
        replace k with (length P + (k - length P)) by lia.
        rewrite <- drop_drop, drop_app_length.
        apply drop_in_placeholder. lia.
Qed.

Lemma detectAndExtractLinks_scan t :
  no_placeholder t →
  detectAndExtractLinks t
  = (render (collect [] (tokenize 0 t)) (tokenize 0 t),
     collect [] (tokenize 0 t)).
Proof.
  intros Hno. unfold detectAndExtractLinks, matchAll.
  pose proof (fold_scan t (tokenize 0 t) (tokenize_ok t) Hno [] [] []) as H.
  rewrite flatten_tokenize in H. simpl in H. apply H; [done|].
  intros k Hk. lia.
Qed.

(** ** Decoding *)

Lemma parseInt_uint d acc :
  foldl (λ acc c, 10 * acc + (N.to_nat c - 48)) acc (uint_codes d)
  = Nat.of_uint_acc d acc.
Proof.
  revert acc; induction d; intros acc; simpl; [done|..];
    rewrite IHd, Nat.tail_mul_spec; f_equal; lia.
Qed.

Lemma parseInt_show_nat i : parseInt (show_nat i) = i.
Proof.
  unfold parseInt, show_nat. rewrite parseInt_uint.
  apply DecimalNat.Unsigned.of_to.
Qed.

Lemma show_nat_nonempty i : show_nat i ≠ [].
Proof.
  unfold show_nat.
  rewrite <- (DecimalNat.Unsigned.of_to i) at 1.
  rewrite DecimalNat.Unsigned.to_of. unfold Decimal.unorm.
  destruct (Decimal.nzhead (Nat.to_uint i)); done.
Qed.

Lemma take_while_digits ds c X :
  Forall (λ c, is_digit c = true) ds → is_digit c = false →
  take_while is_digit (ds ++ c :: X) = ds.
Proof.
  intros Hds Hc. induction Hds as [|d ds Hd _ IH]; simpl.
  - by rewrite Hc.
  - by rewrite Hd, IH.
Qed.

Lemma placeholder_at_placeholder i X :
  placeholder_at (placeholder i ++ X) = Some (i, length (placeholder i)).
Proof.
  unfold placeholder_at, placeholder.
  rewrite <- !app_assoc. rewrite (starts_with_app (lit "[LINK:")).
  change (drop 6 (lit "[LINK:" ++ show_nat i ++ lit "]" ++ X))
    with (show_nat i ++ 93%N :: X).
  rewrite take_while_digits by (apply uint_codes_digits || done).
  pose proof (show_nat_nonempty i) as Hne.
  destruct (show_nat i) as [|d ds] eqn:E; [done|].
  replace (drop (6 + length (d :: ds))
                (lit "[LINK:" ++ (d :: ds) ++ lit "]" ++ X))
    with (93%N :: X).
  - rewrite bool_decide_eq_true_2 by done.
    rewrite <- E, parseInt_show_nat. do 2 f_equal.
    rewrite !length_app. simpl. lia.
  - change (6 + length (d :: ds)) with (length (lit "[LINK:") + length (d :: ds)).
    rewrite <- drop_drop, drop_app_length. by rewrite drop_app_length.
Qed.

Lemma replace_placeholders_skip links a b :
  replace_placeholders links (length a) (a ++ b)
  = replace_placeholders links 0 b.
Proof. induction a as [|c a IH]; simpl; [by destruct b | done]. Qed.

Lemma replace_placeholders_placeholder links i l X :
  links !! i = Some l → url l ≠ [] →
  replace_placeholders links 0 (placeholder i ++ X)
  = url l ++ replace_placeholders links 0 X.
Proof.
  intros Hl Hu.
  destruct (placeholder_head i) as [r Hr].
  pose proof (placeholder_at_placeholder i X) as Hp.
  rewrite Hr in Hp |- *. simpl app in Hp |- *.
  cbn [replace_placeholders]. rewrite Hp, Hl.
  replace (length (91%N :: r) - 1) with (length r) by (simpl; lia).
  rewrite replace_placeholders_skip. by destruct (url l).
Qed.

Lemma replace_placeholders_gap links c X :
  starts_with (lit "[LINK:") (c :: X) = false →
  replace_placeholders links 0 (c :: X)
  = c :: replace_placeholders links 0 X.
Proof.
  intros H. cbn [replace_placeholders]. unfold placeholder_at. by rewrite H.
Qed.

(** A text without brackets that heads the encoded text heads the
    original text too. *)
Lemma render_prefix links p :
  91%N ∉ p → ∀ toks, p `prefix_of` render links toks →
  p `prefix_of` flatten toks.
Proof.
  induction p as [|x p IH]; intros Hp toks H; [apply prefix_nil|].
  apply not_elem_of_cons in Hp as [Hx Hp].
  destruct toks as [|[c|u] r]; cbn [render flatten] in *.
  - by apply prefix_nil_not in H.
  - pose proof (prefix_cons_inv_1 _ _ _ _ H) as ->.
    apply prefix_cons, IH; [done|]. by apply prefix_cons_inv_2 in H.
  - destruct (placeholder_head (default 0 (findIndex u links))) as [q Hq].
    rewrite Hq in H. simpl in H. by apply prefix_cons_inv_1 in H.
Qed.

Lemma render_gap_clean links c r :
  starts_with (lit "[LINK:") (c :: flatten r) = false →
  starts_with (lit "[LINK:") (c :: render links r) = false.
Proof.
  intros H. destruct (starts_with _ (c :: render links r)) eqn:E; [|done].
  rewrite <- H. symmetry. apply starts_with_prefix.
  apply starts_with_prefix in E.
  change (lit "[LINK:") with (91%N :: lit "LINK:") in E |- *.
  pose proof (prefix_cons_inv_1 _ _ _ _ E) as <-.
  apply prefix_cons_inv_2 in E. apply prefix_cons.
  apply (render_prefix links); [|done].
  intros Hin. apply (bool_decide_pack _) in Hin. by vm_compute in Hin.
Qed.

Lemma decode_render links toks :
  tokens_ok toks → no_placeholder (flatten toks) →
  (∀ u, Url u ∈ toks → is_Some (findIndex u links)) →
  replace_placeholders links 0 (render links toks) = flatten toks.
Proof.
  intros Hok. induction Hok as [|c r Hc Hr IH|u r Hu Hr IH]; intros Hno Hin.
  - done.
  - cbn [render flatten]. rewrite replace_placeholders_gap.
    + f_equal. apply IH.
      * by apply (no_placeholder_app [c]).
      * intros u Hu. apply Hin. by right.
    + apply render_gap_clean. apply (Hno 0).
  - cbn [render flatten]. destruct (Hin u) as [i Hi]; [by left|].
    rewrite Hi. simpl default.
    destruct (findIndex_lookup _ _ _ Hi) as (l & Hl & Hul).
    rewrite (replace_placeholders_placeholder links i l) by
      (done || (rewrite Hul; by apply is_url_start_nonempty)).
    rewrite Hul. f_equal. apply IH.
    + by apply (no_placeholder_app u).
    + intros u' Hu'. apply Hin. by right.
Qed.

(** ** The link table against the URLs of the text *)

Lemma matches_of_urls toks : ∀ pos, (matches_of pos toks).*2 = token_urls toks.
Proof.
  induction toks as [|[c|u] r IH]; intros pos; simpl; [done|apply IH|].
  by rewrite IH.
Qed.

Lemma elem_of_token_urls u toks : u ∈ token_urls toks ↔ Url u ∈ toks.
Proof.
  induction toks as [|[c|v] r IH]; simpl.
  - by rewrite !elem_of_nil.
  - rewrite elem_of_cons, IH. naive_solver.
  - rewrite !elem_of_cons, IH. naive_solver.
Qed.

Lemma intern_urls u l :
  url <$> (intern u l).2
  = if decide (u ∈ url <$> l) then url <$> l else (url <$> l) ++ [u].
Proof.
  unfold intern. destruct (findIndex u l) eqn:E; simpl.
  - rewrite decide_True; [done|].
    destruct (decide (u ∈ url <$> l)) as [|Hn]; [done|].
    apply findIndex_none in Hn. congruence.
  - apply findIndex_none in E. rewrite decide_False by done.
    by rewrite fmap_app.
Qed.

Lemma collect_NoDup toks : ∀ l,
  NoDup (url <$> l) → NoDup (url <$> collect l toks).
Proof.
  induction toks as [|[c|u] r IH]; intros l Hl; simpl; [done|by apply IH|].
  apply IH. rewrite intern_urls. case_decide; [done|].
  apply NoDup_app. split; [done|]. split; [|apply NoDup_singleton].
  intros x Hx ->%list_elem_of_singleton. done.
Qed.

Lemma collect_elem toks : ∀ l u,
  u ∈ url <$> collect l toks ↔ u ∈ url <$> l ∨ Url u ∈ toks.
Proof.
  induction toks as [|[c|v] r IH]; intros l u; simpl.
  - rewrite elem_of_nil. naive_solver.
  - rewrite IH, elem_of_cons. naive_solver.
  - rewrite IH, intern_urls, elem_of_cons. case_decide as Hv.
    + split; [naive_solver|]. intros [?|[[= ->]|?]]; auto.
    + rewrite elem_of_app, list_elem_of_singleton. naive_solver.
Qed.

Lemma collect_covers toks l u :
  Url u ∈ toks → is_Some (findIndex u (collect l toks)).
Proof.
  intros Hu. destruct (findIndex u (collect l toks)) eqn:E; [by eexists|].
  apply findIndex_none in E. exfalso. apply E, collect_elem. by right.
Qed.

Lemma render_nil links toks : render links toks = [] → toks = [].
Proof.
  destruct toks as [|[c|u] r]; cbn [render]; [done..|].
  destruct (placeholder_head (default 0 (findIndex u links))) as [q ->]. done.
Qed.

Lemma render_no_urls links toks :
  (∀ u, Url u ∉ toks) → render links toks = flatten toks.
Proof.
  induction toks as [|[c|u] r IH]; intros H; simpl; [done|..].
  - f_equal. apply IH. intros u Hu. apply (H u). by right.
  - exfalso. apply (H u). by left.
Qed.

(** The number of distinct URLs of a text. *)
Lemma collect_length t :
  length (collect [] (tokenize 0 t)) = length (remove_dups (urls t)).
Proof.
  rewrite <- (length_fmap url). apply Permutation_length.
  apply NoDup_Permutation.
  - apply collect_NoDup. simpl. apply NoDup_nil_2.
  - apply NoDup_remove_dups.
  - intros u. rewrite elem_of_remove_dups, collect_elem. unfold urls, matchAll.
    rewrite matches_of_urls, elem_of_token_urls. simpl.
    rewrite elem_of_nil. naive_solver.
Qed.

(** C7. For a text [t] that holds the placeholder prefix nowhere and has [k]
    distinct URLs, decoding the encoder's output gives [t] back, the link
    table has [k] entries with pairwise different URLs, and the encoded
    text is [t] with every occurrence of a URL replaced by the placeholder
    of that URL's one position in the table.  The condition that no URL is
    part of another one is not needed for this encoder. *)
Theorem encode_decode_roundtrip (t : jstring) (k : nat) :
  no_placeholder t →
  length (remove_dups (urls t)) = k →
  renderPlainTextWithUrls (Some (detectAndExtractLinks t).1)
                          (Some (detectAndExtractLinks t).2) = t
  ∧ length (detectAndExtractLinks t).2 = k
  ∧ NoDup (url <$> (detectAndExtractLinks t).2)
  ∧ (detectAndExtractLinks t).1
    = render (detectAndExtractLinks t).2 (tokenize 0 t).
Proof.
  intros Hno Hk. rewrite (detectAndExtractLinks_scan t Hno). simpl.
  split; [|split; [|split]].
  - unfold renderPlainTextWithUrls.
    destruct (render (collect [] (tokenize 0 t)) (tokenize 0 t))
      as [|c txt] eqn:Er.
    { apply render_nil in Er. by rewrite <- (flatten_tokenize t), Er. }
    destruct (collect [] (tokenize 0 t)) as [|l ls] eqn:Ec.
    + rewrite <- Er, render_no_urls; [apply flatten_tokenize|].
      intros u Hu. apply (collect_covers _ []) in Hu. rewrite Ec in Hu.
      by destruct Hu.
    + rewrite <- Er, <- Ec. rewrite decode_render.
      * apply flatten_tokenize.
      * apply tokenize_ok.
      * by rewrite flatten_tokenize.
      * intros u Hu. by apply collect_covers.
  - by rewrite collect_length.
  - apply collect_NoDup. apply NoDup_nil_2.
  - done.
Qed.

Lemma encode_decode_roundtrip_witness :
  let t := lit "a http://x.io/1 b https://y.io c http://x.io/1" in
  renderPlainTextWithUrls (Some (detectAndExtractLinks t).1)
                          (Some (detectAndExtractLinks t).2) = t
  ∧ length (detectAndExtractLinks t).2 = 2
  ∧ NoDup (url <$> (detectAndExtractLinks t).2)
  ∧ (detectAndExtractLinks t).1
    = render (detectAndExtractLinks t).2 (tokenize 0 t).
Proof.
  apply encode_decode_roundtrip.
  - intros k. destruct (decide (k < 46)) as [Hk|Hk].
    + do 46 (destruct k as [|k]; [reflexivity|]). lia.
    + rewrite drop_ge; [reflexivity|]. vm_compute length. lia.
  - vm_compute. reflexivity.
Defined.

End LinkEncoderFacts.

(* ===================================================================== *)
(** * Facts about the workflow *)
(* ===================================================================== *)

Module WorkflowFacts.

Ltac unfold_actions :=
  unfold run, Review.addReviewComment, Review.updateReviewComment,
    Review.deleteReviewComment, Review.clientRequestRevisions,
    Review.clientApproveProject, Dashboard.updateTrackStructure,
    Dashboard.updateStepContent, Dashboard.updateProjectTrackStepStatus,
    Dashboard.updateAllStepContent, Dashboard.createProject,
    Dashboard.createInitialRound, Dashboard.deliverInitialRound,
    bind, throw, ret, read_db.

(** Runs an action as far as two given equations decide it. *)
Ltac run_with Ht Hd :=
  repeat first
    [ rewrite Ht | rewrite Hd
    | progress cbv beta iota zeta
    | progress cbn [negb mbind option_bind]
    | progress simplify_eq
    | match goal with
      | H : (_ ≫= _) = Some _ |- _ => apply bind_Some in H as (? & ? & ?)
      end
    | case_match ].

(** ** Effects of the building blocks *)


Lemma keeps_db_ret {A} (a : A) : keeps_db (ret a).
Proof. intros w r w' [= <- <-]. done. Qed.

Lemma keeps_db_throw {A} msg : keeps_db (@throw A msg).
Proof. intros w r w' [= <- <-]. done. Qed.

Lemma keeps_db_bind {A B} (c : M A) (k : A → M B) :
  keeps_db c → (∀ a, keeps_db (k a)) → keeps_db (bind c k).
Proof.
  intros Hc Hk w r w'. unfold bind.
  destruct (c w) as [[a|e] w1] eqn:E; intros H.
  - rewrite (Hk a _ _ _ H). eapply Hc, E.
  - inversion H; subst. eapply Hc, E.
Qed.

Lemma keeps_db_post env f : keeps_db (post_image env f).
Proof. intros w r w' [= <- <-]. done. Qed.

Lemma keeps_db_review_upload env f : keeps_db (Review.uploadImageToImgBB env f).
Proof.
  unfold Review.uploadImageToImgBB.
  repeat case_match; try apply keeps_db_throw.
  intros w r w'. destruct (post_image env f w) as [[u|e] w1] eqn:E;
    intros [= <- <-]; eapply keeps_db_post, E.
Qed.

Lemma keeps_db_upload env f : keeps_db (Dashboard.uploadImageToImgBB env f).
Proof.
  unfold Dashboard.uploadImageToImgBB.
  repeat case_match; try apply keeps_db_throw.
  intros w r w'. destruct (post_image env f w) as [[u|e] w1] eqn:E;
    intros [= <- <-]; eapply keeps_db_post, E.
Qed.

Lemma keeps_db_promise_all {A B} (job : A → M B) items :
  (∀ x, keeps_db (job x)) → keeps_db (promise_all job items).
Proof.
  intros Hjob. induction items as [|x rest IH]; [apply keeps_db_ret|].
  intros w r w'. simpl.
  destruct (job x w) as [r1 w1] eqn:E1.
  destruct (promise_all job rest w1) as [r2 w2] eqn:E2.
  intros H. assert (w' = w2) as -> by (repeat case_match; by simplify_eq).
  rewrite (IH _ _ _ E2). eapply Hjob, E1.
Qed.

Lemma keeps_db_for_each {A B} (job : A → M B) items :
  (∀ x, keeps_db (job x)) → keeps_db (for_each job items).
Proof.
  intros Hjob. induction items as [|x rest IH]; [apply keeps_db_ret|].
  simpl. apply keeps_db_bind; [done|]. intros b.
  apply keeps_db_bind; [done|]. intros bs. apply keeps_db_ret.
Qed.

Lemma keeps_db_rethrow {A} msg (c : M A) :
  keeps_db c → keeps_db (Dashboard.rethrow msg c).
Proof.
  intros Hc w r w'. unfold Dashboard.rethrow.
  destruct (c w) as [[a|e] w1] eqn:E; intros [= <- <-]; eapply Hc, E.
Qed.


Lemma round_steps_spec env name status comments : ∀ index,
  keeps_db (Dashboard.round_steps env name status index comments)
  ∧ returns (Forall plain)
            (Dashboard.round_steps env name status index comments).
Proof.
  induction comments as [|c rest IH]; intros index; simpl.
  - split; [apply keeps_db_ret|]. intros w a w' [= <- <-]. constructor.
  - destruct (IH (S index)) as [IH1 IH2]. split.
    + apply keeps_db_bind.
      * apply keeps_db_rethrow, keeps_db_promise_all, keeps_db_upload.
      * intros urls. destruct (Dashboard.detectAndExtractLinks _).
        apply keeps_db_bind; [apply IH1|]. intros. apply keeps_db_ret.
    + intros w a w'. unfold bind.
      destruct (Dashboard.rethrow _ _ w) as [[urls|e] w1]; [|done].
      destruct (Dashboard.detectAndExtractLinks _).
      destruct (Dashboard.round_steps _ _ _ _ _ w1) as [[steps|e] w2] eqn:E;
        [|done].
      intros [= <- <-]. constructor; [done|]. eapply IH2, E.
Qed.

Lemma project_steps_spec env form comments : ∀ index,
  keeps_db (Dashboard.project_steps env form index comments)
  ∧ returns (Forall plain) (Dashboard.project_steps env form index comments).
Proof.
  induction comments as [|[text images] rest IH]; intros index; simpl.
  - split; [apply keeps_db_ret|]. intros w a w' [= <- <-]. constructor.
  - destruct (IH (S index)) as [IH1 IH2]. split.
    + apply keeps_db_bind.
      * apply keeps_db_promise_all. intros i. case_match.
        -- apply keeps_db_bind; [apply keeps_db_upload|].
           intros. apply keeps_db_ret.
        -- apply keeps_db_ret.
      * intros urls. destruct (Dashboard.detectAndExtractLinks _).
        apply keeps_db_bind; [apply IH1|]. intros. apply keeps_db_ret.
    + intros w a w'. unfold bind.
      destruct (promise_all _ _ w) as [[urls|e] w1]; [|done].
      destruct (Dashboard.detectAndExtractLinks _).
      destruct (Dashboard.project_steps _ _ _ _ w1) as [[steps|e] w2] eqn:E;
        [|done].
      intros [= <- <-]. constructor; [done|]. eapply IH2, E.
Qed.

Lemma final_last_snoc init fin :
  Forall plain init → final fin = true → final_last (init ++ [fin]).
Proof. intros. by exists init, fin. Qed.

Lemma single_filter_found {A} (P : A → Prop) `{∀ x, Decision (P x)}
    (l : list A) (x : A) :
  single (filter P l) = Some x → x ∈ l ∧ P x.
Proof.
  intros Hs. assert (Hin : x ∈ filter P l).
  { destruct (filter P l) as [|z [|z' rest]]; simplify_eq/=. by left. }
  by apply list_elem_of_filter in Hin as [? ?].
Qed.

Lemma tracks_appended (tracks tracks' : list Track.t) t :
  final_last (Track.steps t) →
  tracks' = tracks ++ [t] →
  ∃ kept t',
    tracks' = kept ++ [t']
    ∧ Forall2 (λ t u, Track.id u = Track.id t ∧ Track.steps u = Track.steps t)
              tracks kept
    ∧ final_last (Track.steps t').
Proof.
  intros Hs ->. exists tracks, t. split_and!; [done| |done].
  by apply Forall_Forall2_diag, Forall_forall.
Qed.

Lemma tracks_updated (d : Db) (tracks' : list Track.t) id f t :
  t ∈ project_tracks d → Track.id t = id →
  (∀ t, Track.id (f t) = Track.id t) →
  (∀ t, final_last (Track.steps (f t))) →
  tracks' = project_tracks (update_tracks id f d) →
  (∃ t, t ∈ project_tracks d ∧ Track.id t = id)
  ∧ Forall2 (λ t u, Track.id u = Track.id t
                    ∧ if decide (Track.id t = id)
                      then final_last (Track.steps u)
                      else u = t)
            (project_tracks d) tracks'.
Proof.
  intros Hin Hid Hf Hs ->. split; [by exists t|]. simpl.
  apply Forall2_fmap_r, Forall_Forall2_diag, Forall_forall.
  intros u _. unfold compose. destruct (decide (Track.id u = id)); by simpl.
Qed.

Lemma nextRoundSteps_final_last cs : final_last (Review.nextRoundSteps cs).
Proof.
  apply final_last_snoc; [|done].
  apply Forall_forall. intros s Hs.
  apply list_elem_of_lookup in Hs as [i Hi].
  rewrite list_lookup_imap in Hi.
  destruct (cs !! i); simpl in Hi; [|done]. by inversion Hi.
Qed.

Lemma find_final_final steps fin :
  Dashboard.find_final steps = Some fin → final fin = true.
Proof.
  unfold Dashboard.find_final. intros H.
  assert (Hin : fin ∈ filter (λ s, final s = true) steps).
  { destruct (filter _ steps); simplify_eq/=. by left. }
  by apply list_elem_of_filter in Hin as [? _].
Qed.

Lemma restructured_not_final old i info :
  Step.is_final (Dashboard.restructured old i info) = Some false.
Proof. done. Qed.

Lemma finalNewSteps_final_last orig fin new :
  final fin = true → final_last (Dashboard.finalNewSteps orig fin new).
Proof.
  intros Hfin. apply final_last_snoc; [|done].
  apply Forall_forall. intros s Hs.
  apply list_elem_of_lookup in Hs as [i Hi].
  rewrite list_lookup_imap in Hi.
  destruct (new !! i); simpl in Hi; [|done]. by inversion Hi.
Qed.

Ltac use_effects :=
  repeat match goal with
  | H : Dashboard.round_steps ?env ?n ?s ?i ?c _ = (Ok _, _) |- _ =>
      pose proof (proj2 (round_steps_spec env n s c i) _ _ _ H);
      apply (proj1 (round_steps_spec env n s c i)) in H
  | H : Dashboard.round_steps ?env ?n ?s ?i ?c _ = (Err _, _) |- _ =>
      apply (proj1 (round_steps_spec env n s c i)) in H
  | H : Dashboard.project_steps ?env ?f ?i ?c _ = (Ok _, _) |- _ =>
      pose proof (proj2 (project_steps_spec env f c i) _ _ _ H);
      apply (proj1 (project_steps_spec env f c i)) in H
  | H : Dashboard.project_steps ?env ?f ?i ?c _ = (Err _, _) |- _ =>
      apply (proj1 (project_steps_spec env f c i)) in H
  end.

(** Runs an action through every branch. *)
Ltac run_all :=
  unfold_actions; unfold write;
  repeat first [ progress cbv beta iota zeta | case_match ];
  intros; simplify_eq; use_effects.

(** Round creation, restructuring and the revision request build a step
    list that ends with its one final step.  A request that succeeds
    writes such a list: to the track that it appends, or to the tracks with
    the id of the request, of which there is one; the other tracks keep
    their steps.  A request that fails leaves the tracks as they were.  The
    steps that a revision request hands to the stored procedure end with
    their one final step whatever the comments are.  A restructuring that
    succeeds writes the mapped descriptors, all with [is_final = false],
    followed by the first final step of the track as it was. *)
Lemma round_builders_end_with_final (env : Env) (op : Op) (w : World)
    (r : result Response) (w' : World) :
  builds_round op = true →
  run env op w = (r, w') →
  match r with
  | Ok _ => round_written op w w'
  | Err _ => project_tracks (db w') = project_tracks (db w)
  end
  ∧ (∀ commentsData, final_last (Review.nextRoundSteps commentsData))
  ∧ (∀ trackId new t resp,
       op = UpdateTrackStructure trackId new → r = Ok resp →
       track_by_id (db w) trackId = Some t →
       ∃ fin, Dashboard.find_final (Track.steps t) = Some fin
         ∧ ∀ t', t' ∈ project_tracks (db w') → Track.id t' = trackId →
             ∃ mapped, Track.steps t' = mapped ++ [fin]
               ∧ length mapped = length new
               ∧ Forall (λ s, Step.is_final s = Some false) mapped).
Proof.
  intros Hop Hrun.
  split; [|split; [apply nextRoundSteps_final_last|]].
  - destruct op; try done; clear Hop; revert Hrun; run_all.
    all: try (simpl;
              repeat match goal with
                     | E : db _ = _ |- _ => rewrite E; clear E
                     end; done).
    + (* clientRequestRevisions *)
      simpl. eexists _, _. split; [reflexivity|]. split.
      * apply Forall2_fmap_r, Forall_Forall2_diag, Forall_forall.
        intros u _. unfold compose. by case_decide.
      * apply nextRoundSteps_final_last.
    + (* createProject, protected *)
      simpl. eapply tracks_appended; cycle 1.
      * match goal with E : db _ = _ |- _ => rewrite E end. reflexivity.
      * simpl. by apply final_last_snoc.
    + (* createProject, open *)
      simpl. eapply tracks_appended; cycle 1.
      * match goal with E : db _ = _ |- _ => rewrite E end. reflexivity.
      * simpl. by apply final_last_snoc.
    + (* updateTrackStructure *)
      match goal with H : track_with_project _ _ = Some _ |- _ =>
        unfold track_with_project in H;
        apply bind_Some in H as (t9 & Ht9 & H);
        apply bind_Some in H as (p9 & Hp9 & H); simplify_eq
      end.
      apply single_filter_found in Ht9 as [Hin Hid].
      eapply tracks_updated; [exact Hin|exact Hid|..]; cycle 2;
        [reflexivity|done|].
      intros u. simpl. apply finalNewSteps_final_last.
      by eapply find_final_final.
    + (* deliverInitialRound *)
      match goal with H : Dashboard.initial_track _ _ = Some _ |- _ =>
        apply single_filter_found in H as [Hin [Hid _]]
      end.
      match goal with E : db _ = _ |- _ => simpl; rewrite E end.
      eapply tracks_updated; [exact Hin|exact Hid|..]; cycle 2;
        [reflexivity|done|].
      intros u. simpl. by apply final_last_snoc.
    + (* createInitialRound *)
      match goal with H : Dashboard.initial_track _ _ = Some _ |- _ =>
        apply single_filter_found in H as [Hin [Hid _]]
      end.
      match goal with E : db _ = _ |- _ => simpl; rewrite E end.
      eapply tracks_updated; [exact Hin|exact Hid|..]; cycle 2;
        [reflexivity|done|].
      intros u. simpl. by apply final_last_snoc.
  - intros trackId new t resp -> -> Ht. revert Hrun. run_all.
    match goal with H : track_with_project _ _ = Some _ |- _ =>
      unfold track_with_project in H;
      apply bind_Some in H as (t9 & Ht9 & H);
      apply bind_Some in H as (p9 & Hp9 & H); simplify_eq
    end.
    eexists. split; [done|]. simpl. intros t'' Hin Hid.
    apply list_elem_of_fmap in Hin as (told & -> & Htold).
    case_decide; [|done]. simpl.
    eexists. split; [reflexivity|]. split.
    + by rewrite length_imap.
    + apply Forall_forall. intros s' Hs.
      apply list_elem_of_lookup in Hs as [i Hi].
      rewrite list_lookup_imap in Hi.
      destruct (new !! i); simpl in Hi; [|done].
      by inversion Hi.
Qed.

Lemma is_pending_false d : d ≠ PENDING → is_pending d = false.
Proof. intros H. by apply String.eqb_neq. Qed.

Lemma same_editor (e : EditorProfile.t) (p : Project.t) :
  bool_decide (EditorProfile.id <$> Some e = Some (Project.editor_id p))
  = String.eqb (Project.editor_id p) (EditorProfile.id e).
Proof.
  cbn. destruct (String.eqb_spec (Project.editor_id p) (EditorProfile.id e)).
  - rewrite bool_decide_true; congruence.
  - rewrite bool_decide_false; congruence.
Qed.

Ltac listed := apply (bool_decide_unpack _); by vm_compute.

(** Closes a branch of a refused request: the error that is thrown, and
    what the earlier checks say about it. *)
Ltac settled :=
  repeat match goal with
  | H : negb ?x = true |- _ => apply negb_true_iff in H; rewrite ?H
  | H : negb ?x = false |- _ => apply negb_false_iff in H; rewrite ?H
  end;
  eexists; split; [reflexivity|]; split; intros Hp;
  first [ reflexivity | listed
        | exfalso; cbn in Hp; rewrite ?andb_false_r in Hp; cbn in Hp;
          discriminate Hp ].

(** C1, amended. Adding, editing or deleting a review comment,
    restructuring steps, editing step content, requesting revisions and
    approving, on a track whose decision is not [pending]: the action fails
    and leaves the store and the image host as they were.  When no check
    that the action makes before the decision check fails, the error is the
    decision error of the action; it carries the decision for the first
    five actions and is a fixed message for the last two.  When such a
    check fails, the error is the error of one of these checks. *)
Theorem decided_track_rejects (env : Env) (op : Op) (w : World) (t : Track.t) :
  guarded_track (db w) op = Some t →
  Track.client_decision t ≠ PENDING →
  ∃ msg, run env op w = (Err msg, w)
         ∧ (passes_earlier_checks env (db w) op = true →
            msg = decision_error op (Track.client_decision t))
         ∧ (passes_earlier_checks env (db w) op = false →
            msg ∈ earlier_errors op).
Proof.
  intros Ht Hd. apply is_pending_false in Hd.
  destruct op; simpl in Ht; try done; unfold_actions;
    unfold passes_earlier_checks, own_comment, editor_owns, or_else in *.
  - destruct (truthy (AddForm.trackId form)); [|done].
    destruct (AddForm.trackId form) as [tid|]; [|done].
    simpl in Ht. run_with Ht Hd; settled.
  - destruct (truthy (EditForm.commentId form)); [|done].
    destruct (EditForm.commentId form) as [cid|]; [|done].
    simpl in Ht.
    destruct (comment_with_track (db w) cid) as [[c t']|] eqn:E; [|done].
    simpl in Ht. simplify_eq. run_with E Hd; settled.
  - destruct (comment_with_track (db w) commentId) as [[c t']|] eqn:E; [|done].
    simpl in Ht. simplify_eq. unfold truthy. run_with E Hd; settled.
  - run_with Ht Hd; settled.
  - run_with Ht Hd; settled.
  - unfold track_with_project, truthy.
    run_with Ht Hd; rewrite ?same_editor; settled.
  - destruct (ContentForm.trackId form) as [tid|]; [|done]. simpl in Ht.
    unfold track_with_project. run_with Ht Hd; settled.
Qed.

Lemma truthy_Some s : truthy (Some s) = negb (String.eqb s "").
Proof. done. Qed.

Lemma oldStepMap_lookup steps cid :
  cid ≠ "" →
  Dashboard.oldStepMap steps !! cid
  = last (filter (λ s, final s = false
                       ∧ Step.metadata s ≫= Metadata.comment_id = Some cid)
                 steps).
Proof.
  intros Hcid. unfold Dashboard.oldStepMap.
  induction steps as [|x steps IH] using rev_ind; [done|].
  rewrite foldl_app, filter_app. simpl foldl.
  destruct (Step.metadata x ≫= Metadata.comment_id) as [c|] eqn:Ec.
  - destruct (final x) eqn:Ef; simpl.
    + rewrite filter_cons_False, filter_nil, app_nil_r by (intros [? ?]; congruence).
      apply IH.
    + destruct (String.eqb_spec c "") as [->|Hc]; simpl.
      * rewrite filter_cons_False, filter_nil, app_nil_r by (intros [? ?]; congruence).
        apply IH.
      * destruct (decide (c = cid)) as [->|Hne].
        -- rewrite lookup_insert_eq, filter_cons_True, filter_nil by done.
           by rewrite last_snoc.
        -- rewrite lookup_insert_ne by done.
           rewrite filter_cons_False, filter_nil, app_nil_r by (intros [? ?]; congruence).
           apply IH.
  - rewrite filter_cons_False, filter_nil, app_nil_r by (intros [? ?]; congruence).
    apply IH.
Qed.

Lemma restructured_prior steps info :
  (if truthy (StepInfo.metadata info ≫= Metadata.comment_id)
   then (StepInfo.metadata info ≫= Metadata.comment_id)
          ≫= (λ cid, Dashboard.oldStepMap steps !! cid)
   else None)
  = matching_prior steps info.
Proof.
  unfold matching_prior.
  destruct (StepInfo.metadata info ≫= Metadata.comment_id) as [cid|]; [|done].
  rewrite truthy_Some. destruct (String.eqb_spec cid ""); simpl; [done|].
  by apply oldStepMap_lookup.
Qed.

Lemma restructured_spec steps index info :
  let s := Dashboard.restructured (Dashboard.oldStepMap steps) index info in
  match matching_prior steps info with
  | Some old =>
      Step.status s = Step.status old
      ∧ step_timestamp s
        = from_option Some (step_timestamp old)
                      (info_field Metadata.timestamp info)
      ∧ step_field Metadata.text s
        = from_option Some (step_field Metadata.text old)
                      (info_field Metadata.text info)
      ∧ step_field Metadata.images s
        = from_option Some (step_field Metadata.images old)
                      (info_field Metadata.images info)
      ∧ step_field Metadata.links s
        = from_option Some (step_field Metadata.links old)
                      (info_field Metadata.links info)
  | None => Step.status s = Pending
  end.
Proof.
  unfold Dashboard.restructured. rewrite restructured_prior.
  destruct (matching_prior steps info) as [old|]; [|done].
  unfold step_timestamp, step_field, info_field. simpl.
  destruct (Step.metadata old) as [mo|], (StepInfo.metadata info) as [mi|];
    simpl; repeat split; try done; by repeat case_match.
Qed.

(** C4, amended. After a successful [updateTrackStructure], the step
    written for a descriptor that matches a prior non-final step by comment
    id (the last such step when there are several) has the status of that
    step, and each of its timestamp, text, images and links is the
    descriptor's when the descriptor carries one and the prior step's
    otherwise.  The step written for a descriptor without a match is
    [pending]. *)
Theorem restructure_keeps_status (env : Env) (trackId : string)
    (new : list StepInfo.t) (w : World) (resp : Response) (w' : World)
    (t : Track.t) :
  track_by_id (db w) trackId = Some t →
  run env (UpdateTrackStructure trackId new) w = (Ok resp, w') →
  ∀ t' i info,
    t' ∈ project_tracks (db w') → Track.id t' = trackId →
    new !! i = Some info →
    ∃ s, Track.steps t' !! i = Some s
      ∧ match matching_prior (Track.steps t) info with
        | Some old =>
            Step.status s = Step.status old
            ∧ step_timestamp s
              = from_option Some (step_timestamp old)
                            (info_field Metadata.timestamp info)
            ∧ step_field Metadata.text s
              = from_option Some (step_field Metadata.text old)
                            (info_field Metadata.text info)
            ∧ step_field Metadata.images s
              = from_option Some (step_field Metadata.images old)
                            (info_field Metadata.images info)
            ∧ step_field Metadata.links s
              = from_option Some (step_field Metadata.links old)
                            (info_field Metadata.links info)
        | None => Step.status s = Pending
        end.
Proof.
  intros Ht Hrun. revert Hrun. run_all.
  match goal with H : track_with_project _ _ = Some _ |- _ =>
    unfold track_with_project in H;
    apply bind_Some in H as (t9 & Ht9 & H);
    apply bind_Some in H as (p9 & Hp9 & H); simplify_eq
  end.
  match goal with H : _ ∈ _ |- _ =>
    simpl in H; apply list_elem_of_fmap in H as (told & Heq & Htold)
  end.
  case_decide; [|by subst].
  rewrite Heq. simpl.
  exists (Dashboard.restructured (Dashboard.oldStepMap (Track.steps t)) i info).
  split; [|apply restructured_spec].
  unfold Dashboard.finalNewSteps.
  rewrite lookup_app_l.
  - rewrite list_lookup_imap. by match goal with H : new !! i = _ |- _ =>
      rewrite H end.
  - rewrite length_imap. eapply lookup_lt_Some. eassumption.
Qed.

Lemma isOwnComment_isOwn user c :
  Comment.commenter_id c ≠ Some "" →
  Review.isOwnComment user c = true ↔ isOwn user c.
Proof.
  intros Hc. unfold Review.isOwnComment, isOwn.
  destruct user as [uid|].
  - rewrite bool_decide_eq_true. split.
    + intros H. left. by exists uid.
    + intros [(u & [= <-] & H)|[_ ?]]; done.
  - destruct (Comment.commenter_id c) as [s|] eqn:E; simpl.
    + destruct (String.eqb_spec s "") as [->|Hs]; simpl; [done|].
      split; [done|]. intros [(u & ? & _)|[? _]]; done.
    + split; [by right | done].
Qed.

Lemma not_own_rejected env op cid w c t :
  edited_comment op = Some cid →
  comment_with_track (db w) cid = Some (c, t) →
  Review.isOwnComment (session env) c = false →
  ∃ msg, run env op w = (Err msg, w).
Proof.
  intros Hop Hc Hown. destruct op; simpl in Hop; try done; unfold_actions.
  - rewrite Hop. run_with Hc Hown; by eexists.
  - simplify_eq. run_with Hc Hown; by eexists.
Qed.

(** C6. [updateReviewComment] and [deleteReviewComment] on a stored
    comment (whose author id, when there is one, is not the empty text)
    succeed only for its owner: a signed-in user whose id is the comment's
    author id, or nobody signed in on a comment without author.  Any other
    request fails and changes nothing; so does a signed-in user on an
    anonymous comment, and user B on the comment of user A. *)
Theorem comment_edit_requires_owner (env : Env) (op : Op) (commentId : string)
    (w : World) (c : Comment.t) (t : Track.t) :
  edited_comment op = Some commentId →
  comment_with_track (db w) commentId = Some (c, t) →
  Comment.commenter_id c ≠ Some "" →
  (∀ resp w', run env op w = (Ok resp, w') → isOwn (session env) c)
  ∧ (¬ isOwn (session env) c → ∃ msg, run env op w = (Err msg, w))
  ∧ (Comment.commenter_id c = None → is_Some (session env) →
     ∃ msg, run env op w = (Err msg, w))
  ∧ (∀ a b, Comment.commenter_id c = Some a → session env = Some b → a ≠ b →
     ∃ msg, run env op w = (Err msg, w)).
Proof.
  intros Hop Hc Hid.
  assert (Hrej : ¬ isOwn (session env) c → ∃ msg, run env op w = (Err msg, w)).
  { intros Hno. eapply not_own_rejected; [done..|].
    destruct (Review.isOwnComment (session env) c) eqn:E; [|done].
    by apply isOwnComment_isOwn in E. }
  split; [|split; [done|split]].
  - intros resp w' Hrun. apply isOwnComment_isOwn; [done|].
    destruct (Review.isOwnComment (session env) c) eqn:E; [done|].
    destruct (not_own_rejected env op commentId w c t Hop Hc E) as [msg Hm].
    congruence.
  - intros Hanon [u Hu]. apply Hrej.
    intros [(u' & _ & ?)|[_ ?]]; congruence.
  - intros a b Ha Hb Hab. apply Hrej.
    intros [(u' & ? & ?)|[? _]]; congruence.
Qed.

Lemma single_filter_unique {A} (P : A → Prop) `{∀ x, Decision (P x)}
    (l : list A) (x y : A) :
  single (filter P l) = Some x → y ∈ l → P y → y = x.
Proof.
  intros Hs Hy HP.
  assert (Hin : y ∈ filter P l) by (by apply list_elem_of_filter).
  destruct (filter P l) as [|z [|z' rest]]; simplify_eq/=.
  by apply list_elem_of_singleton in Hin.
Qed.

(** ** Editing a comment *)

Lemma review_uploads_keep_db env files w r w' :
  promise_all (Review.uploadImageToImgBB env) files w = (r, w') →
  db w' = db w.
Proof. apply keeps_db_promise_all. intros f. apply keeps_db_review_upload. Qed.

Lemma single_filter_holds {A} (P : A → Prop) `{∀ x, Decision (P x)}
    (l : list A) (x : A) :
  single (filter P l) = Some x → P x.
Proof.
  intros Hs. assert (Hin : x ∈ filter P l).
  { destruct (filter P l) as [|z [|z' rest]]; simplify_eq/=. by left. }
  by apply list_elem_of_filter in Hin as [? _].
Qed.

Lemma same_place_update commentId c updated rows :
  single (filter (λ x, Comment.id x = commentId) rows) = Some c →
  same_place (Some commentId) c (updated c) →
  Forall2 (same_place (Some commentId)) rows
    (map (λ x, if decide (Comment.id x = commentId) then updated x else x)
         rows).
Proof.
  intros Hs Hc. apply Forall2_fmap_r, Forall_Forall2_diag, Forall_forall.
  intros x Hx. unfold compose. case_decide as Hid.
  - by rewrite (single_filter_unique _ _ _ x Hs Hx Hid).
  - repeat split; try done.
Qed.

(** C10. A successful [updateReviewComment] changes no track and keeps
    every comment at its place: the stored rows are the rows of before, one
    by one, with the same id, track, author, creation time and timestamp,
    and every row but the edited one is unchanged. *)
Theorem update_keeps_timestamp (env : Env) (form : EditForm.t) (w : World)
    (resp : Response) (w' : World) :
  run env (UpdateReviewComment form) w = (Ok resp, w') →
  project_tracks (db w') = project_tracks (db w)
  ∧ Forall2 (same_place (or_else (EditForm.commentId form) None))
            (review_comments (db w)) (review_comments (db w')).
Proof.
  intros Hrun. revert Hrun. run_all.
  all: repeat match goal with
       | H : promise_all _ _ _ = _ |- _ =>
           apply review_uploads_keep_db in H
       end.
  all: match goal with H : comment_with_track _ _ = Some _ |- _ =>
         unfold comment_with_track in H;
         apply bind_Some in H as (c9 & Hc9 & H);
         apply bind_Some in H as (t9 & Ht9 & H); simplify_eq
       end.
  all: simpl; try match goal with E : db _ = db _ |- _ => rewrite E end.
  all: split; [done|].
  all: pose proof (single_filter_holds _ _ _ Hc9) as Hid9; simpl in Hid9.
  all: eapply same_place_update; [eassumption|].
  all: repeat split; try done; intros []; by f_equal.
Qed.

Lemma update_keeps_timestamp_witness :
  let w := Sample.world PENDING
             [Sample.comment "k1" (Number.mk 105 1) None;
              Sample.comment "k2" (Number.of_Z 2) (Some "u1")] in
  ∃ resp w',
    run (Sample.env None) (UpdateReviewComment Sample.edit_form) w
    = (Ok resp, w')
    ∧ project_tracks (db w') = project_tracks (db w)
    ∧ Forall2 (same_place (Some "k1"))
              (review_comments (db w)) (review_comments (db w')).
Proof.
  intros w. eexists _, _. split; [vm_compute; reflexivity|].
  eapply (update_keeps_timestamp (Sample.env None) Sample.edit_form w).
  vm_compute. reflexivity.
Defined.

(** ** Numbers *)

Lemma Number_ltb_value x y :
  Number.ltb x y = true ↔ (Number.value x < Number.value y)%Q.
Proof.
  unfold Number.ltb, Number.value, Qlt. simpl.
  rewrite !Z2Pos.id by (apply Z.pow_pos_nonneg; lia).
  apply Z.ltb_lt.
Qed.

(** ** Image validation *)

(** X6. A file that is too large or of another type is refused before any
    request for it, by the review page and by the dashboard. *)
Lemma unacceptable_file_sends_no_request env f w :
  ¬ acceptable f →
  (∃ msg, Review.uploadImageToImgBB env f w = (Err msg, w))
  ∧ (∃ msg, Dashboard.uploadImageToImgBB env f w = (Err msg, w)).
Proof.
  intros Hf. unfold Review.uploadImageToImgBB, Dashboard.uploadImageToImgBB.
  destruct (IMAGE_MAX_SIZE_BYTES <? File.size f)%N eqn:Es.
  { split; by eexists. }
  destruct (bool_decide (File.type f ∈ ACCEPTED_IMAGE_TYPES)) eqn:Et; simpl.
  - exfalso. apply Hf. split.
    + by apply N.ltb_ge.
    + by apply bool_decide_eq_true in Et.
  - split; by eexists.
Qed.

(** X7. More than four images on a comment, or on a step edited by
    [updateStepContent]: the action fails and no request is sent. *)
Lemma too_many_images_send_no_request env op w :
  MAX_IMAGES_PER_COMMENT < images_after op →
  ∃ msg, run env op w = (Err msg, w).
Proof.
  intros Hn. destruct op; simpl in Hn; try lia; unfold_actions.
  - assert (Hn' : (MAX_IMAGES_PER_COMMENT <? length (AddForm.images form))
                  = true) by (by apply Nat.ltb_lt).
    run_with Hn' Hn'; by eexists.
  - destruct (EditForm.newImages form) as [|f fs] eqn:En; [lia|].
    destruct (EditForm.existingImages form) as [[keep|]|] eqn:Ek.
    + assert (Hn' : (MAX_IMAGES_PER_COMMENT
                     <? length keep + length (f :: fs)) = true)
        by (by apply Nat.ltb_lt).
      run_with Hn' Hn'; by eexists.
    + run_with Ek Ek; by eexists.
    + run_with Ek Ek; by eexists.
  - destruct (ContentForm.newImages form) as [|f fs] eqn:En; [lia|].
    assert (Hn' : (MAX_IMAGES_PER_COMMENT
                   <? length (default [] (mjoin (ContentForm.existingImages
                                                   form)))
                      + length (f :: fs)) = true)
      by (by apply Nat.ltb_lt).
    run_with Hn' Hn'; by eexists.
Qed.

(** ** The status of the final step *)

Lemma step_index_in_range (steps : list Step.t) i s :
  steps !! i = Some s →
  ((Z.of_nat i <? 0)%Z || (Z.of_nat (length steps) <=? Z.of_nat i)%Z) = false.
Proof.
  intros H%lookup_lt_Some. apply orb_false_iff. split.
  - apply Z.ltb_ge. lia.
  - apply Z.leb_gt. lia.
Qed.

(** X15. Marking the final step completed with a link and a media type records
    both; setting it back to pending clears both. *)
Lemma final_step_status_written env trackId i w t s :
  track_by_id (db w) trackId = Some t →
  Track.steps t !! i = Some s →
  final s = true →
  write_ok env "project_tracks" = true →
  (∀ link media, link ≠ "" →
     run env (UpdateProjectTrackStepStatus trackId (Z.of_nat i) Completed
                (Some link) (Some media)) w
     = (Ok (Message "Step status updated successfully"),
        status_written env trackId t i
          (with_status_and_link s Completed (Some link)) (Some media) w))
  ∧ (∀ link media,
     run env (UpdateProjectTrackStepStatus trackId (Z.of_nat i) Pending
                link media) w
     = (Ok (Message "Step status updated successfully"),
        status_written env trackId t i
          (with_status_and_link s Pending None) None w)).
Proof.
  intros Ht Hs Hf Hw. pose proof (step_index_in_range _ _ _ Hs) as Hi.
  split; intros link media; [intros Hl|]; unfold_actions; unfold write;
    cbv beta iota zeta; rewrite Ht, Hi, Nat2Z.id, Hs, Hf, Hw; simpl.
  - apply String.eqb_neq in Hl. unfold truthy. by rewrite Hl.
  - done.
Qed.

(** ** Who may restructure and edit *)

(** X13. Restructuring, editing the content of a step and the bulk update
    succeed only for the editor who owns the project. *)
Lemma editor_actions_require_owner env op trackId w resp w' :
  edited_track op = Some trackId →
  run env op w = (Ok resp, w') →
  owns_track env (db w) trackId.
Proof.
  intros Hop Hrun. destruct op; simpl in Hop; try done; revert Hrun.
  - run_all. eexists _, _, _, _. repeat split; try eassumption.
    match goal with H : negb (String.eqb _ _) = false |- _ =>
      apply negb_false_iff, String.eqb_eq in H; exact H end.
  - unfold_actions. rewrite Hop. run_all.
    all: match goal with H : negb (bool_decide _) = false |- _ =>
           apply negb_false_iff, bool_decide_eq_true in H;
           apply fmap_Some in H as (profile & Hp & Hid)
         end.
    all: eexists _, _, _, _; repeat split; try eassumption; done.
  - unfold_actions. rewrite Hop. run_all.
    all: match goal with H : negb (bool_decide _) = false |- _ =>
           apply negb_false_iff, bool_decide_eq_true in H;
           apply fmap_Some in H as (profile & Hp & Hid)
         end.
    all: eexists _, _, _, _; repeat split; try eassumption; done.
Qed.

(** ** The steps of the next round *)

(** One pending step per comment, in the order given, then the final
    step. *)
Lemma nextRoundSteps_shape cs :
  Review.nextRoundSteps cs
  = imap carried cs
    ++ [Step.mk (Some "Finish Revisions") Pending (Some true) None None].
Proof. reflexivity. Qed.

Lemma nextRoundSteps_lookup cs i c :
  cs !! i = Some c → Review.nextRoundSteps cs !! i = Some (carried i c).
Proof.
  intros H. rewrite nextRoundSteps_shape, lookup_app_l.
  - by rewrite list_lookup_imap, H.
  - rewrite length_imap. by eapply lookup_lt_Some.
Qed.

Lemma insert_sorted_Permutation {A} (key : A → string) x l :
  insert_sorted key x l ≡ₚ x :: l.
Proof.
  induction l as [|y l IH]; simpl; [done|].
  case_match; [|done]. rewrite IH. apply Permutation_swap.
Qed.

Lemma order_by_Permutation {A} (key : A → string) rows :
  order_by key rows ≡ₚ rows.
Proof.
  unfold order_by.
  assert (H : ∀ acc, foldl (λ acc x, insert_sorted key x acc) acc rows
                     ≡ₚ acc ++ rows).
  { induction rows as [|x rows IH]; intros acc; simpl.
    - by rewrite app_nil_r.
    - rewrite IH, insert_sorted_Permutation. simpl.
      apply Permutation_middle. }
  apply (H []).
Qed.

(** The next round carries exactly the comments of the track. *)
Lemma comments_for_next_round_Permutation d trackId :
  Review.comments_for_next_round d trackId
  ≡ₚ filter (λ c, Comment.track_id c = trackId) (review_comments d).
Proof. apply order_by_Permutation. Qed.

Lemma text_leb_total a b : text_leb a b = false → text_leb b a = true.
Proof.
  revert b; induction a as [|x a IH]; intros [|y b]; simpl; try done.
  destruct (Nat.ltb_spec (nat_of_ascii x) (nat_of_ascii y)); [done|].
  destruct (Nat.ltb_spec (nat_of_ascii y) (nat_of_ascii x)); [done|].
  apply IH.
Qed.

Lemma insert_sorted_Sorted {A} (key : A → string) x l :
  Sorted (λ a b, text_leb (key a) (key b) = true) l →
  Sorted (λ a b, text_leb (key a) (key b) = true) (insert_sorted key x l).
Proof.
  induction 1 as [|y l Hl IH Hy]; simpl.
  - by repeat constructor.
  - destruct (text_leb (key y) (key x)) eqn:E.
    + constructor; [done|].
      destruct Hy as [|z l Hz]; simpl.
      * by constructor.
      * case_match; by constructor.
    + constructor; [by constructor|].
      constructor. by apply text_leb_total.
Qed.

(** The comments come in the order of the texts of their timestamps. *)
Lemma comments_for_next_round_Sorted d trackId :
  Sorted (λ a b,
            text_leb
              (Number.to_text (CommentData.timestamp (Comment.comment a)))
              (Number.to_text (CommentData.timestamp (Comment.comment b)))
            = true)
         (Review.comments_for_next_round d trackId).
Proof.
  unfold Review.comments_for_next_round, order_by.
  generalize (filter (λ c, Comment.track_id c = trackId) (review_comments d)).
  intros rows.
  assert (H : ∀ acc,
    Sorted (λ a b,
              text_leb
                (Number.to_text (CommentData.timestamp (Comment.comment a)))
                (Number.to_text (CommentData.timestamp (Comment.comment b)))
              = true) acc →
    Sorted (λ a b,
              text_leb
                (Number.to_text (CommentData.timestamp (Comment.comment a)))
                (Number.to_text (CommentData.timestamp (Comment.comment b)))
              = true)
           (foldl (λ acc x,
                     insert_sorted
                       (λ c, Number.to_text
                               (CommentData.timestamp (Comment.comment c)))
                       x acc) acc rows)).
  { induction rows as [|x rows IH]; intros acc Hacc; simpl; [done|].
    apply IH. by apply (insert_sorted_Sorted
      (λ c, Number.to_text (CommentData.timestamp (Comment.comment c)))). }
  apply H. constructor.
Qed.

(** ** Edits of one step keep the final flags *)

Lemma insert_keeps_finals (steps : list Step.t) i s s' :
  steps !! i = Some s → final s' = final s →
  map final (<[i := s']> steps) = map final steps.
Proof.
  intros Hs Hf. rewrite (list_fmap_insert final), Hf.
  apply list_insert_id. by rewrite list_lookup_fmap, Hs.
Qed.

(** X16. Setting the status of a step and editing the content of a step leave
    the final flag of every step of every track as it was. *)
Lemma step_edits_keep_finals env op w r w' :
  match op with
  | UpdateProjectTrackStepStatus _ _ _ _ _ | UpdateStepContent _ => True
  | _ => False
  end →
  run env op w = (r, w') →
  Forall2 (λ t t', map final (Track.steps t') = map final (Track.steps t))
          (project_tracks (db w)) (project_tracks (db w')).
Proof.
  intros Hop Hrun. destruct op; try done; clear Hop; revert Hrun; run_all.
  all: repeat match goal with
       | H : promise_all _ _ _ = _ |- _ =>
           apply (keeps_db_promise_all _ _ (keeps_db_upload env)) in H
       end.
  all: simpl; try match goal with E : db _ = db _ |- _ => rewrite E end.
  all: try (apply Forall_Forall2_diag, Forall_forall; done).
  all: apply Forall2_fmap_r, Forall_Forall2_diag, Forall_forall.
  all: intros t' Ht'; unfold compose; cbv beta.
  all: match goal with |- context [decide (Track.id ?x = ?id)] =>
         destruct (decide (Track.id x = id)) as [Hid|]; [simpl|done]
       end.
  all: match goal with H : track_by_id _ _ = Some _ |- _ =>
         rewrite (single_filter_unique _ _ _ t' H Ht') by done
       | H : track_with_project _ _ = Some _ |- _ =>
         unfold track_with_project in H;
         apply bind_Some in H as (t9 & Ht9 & H);
         apply bind_Some in H as (p9 & Hp9 & H); simplify_eq;
         rewrite (single_filter_unique _ _ _ t' Ht9 Ht') by done
       end.
  all: eapply insert_keeps_finals; [eassumption|done].
Qed.

(** ** The author of a stored comment *)

Lemma or_else_not_empty a : or_else a None ≠ Some "".
Proof.
  unfold or_else, truthy. destruct a as [s|]; [|done].
  destruct (String.eqb_spec s ""); simpl; congruence.
Qed.

(** [addReviewComment] stores no comment whose author id is the empty
    text. *)
Lemma added_author_not_empty env form w r w' :
  run env (AddReviewComment form) w = (r, w') →
  Forall (λ c, Comment.commenter_id c ≠ Some "") (review_comments (db w)) →
  Forall (λ c, Comment.commenter_id c ≠ Some "") (review_comments (db w')).
Proof.
  intros Hrun Hw. revert Hrun. run_all.
  all: repeat match goal with
       | H : promise_all _ _ _ = _ |- _ =>
           eapply keeps_db_promise_all in H;
             [|intros x; case_match;
               [apply keeps_db_ret
               |apply keeps_db_bind;
                [apply keeps_db_review_upload|intros; apply keeps_db_ret]]]
       end.
  all: simpl; try match goal with E : db _ = db _ |- _ => rewrite E end.
  all: try done.
  all: apply Forall_app; split; [done|]; constructor; [|constructor].
  all: apply or_else_not_empty.
Qed.

(** ** The claims on the sample project *)

(** C1, as stated, fails.  On an approved track a revision request is
    refused with a message that does not carry the decision, and an edit of
    somebody else's comment is refused with the ownership error, which does
    not carry it either; nothing is changed in both cases. *)
Lemma decision_error_without_value :
  let w := Sample.world "approved"
             [Sample.comment "k1" (Number.of_Z 2) (Some "u1")] in
  run (Sample.env None) (ClientRequestRevisions "t1") w
  = (Err "Decision already submitted.", w)
  ∧ contains "approved" "Decision already submitted." = false
  ∧ run (Sample.env (Some "u2")) (UpdateReviewComment Sample.edit_form) w
    = (Err "You can only edit your own comments.", w)
  ∧ contains "approved" "You can only edit your own comments." = false.
Proof. repeat split; vm_compute; reflexivity. Qed.

(** The status of a step is set on an approved track all the same:
    [updateProjectTrackStepStatus] does not read the decision. *)
Lemma step_status_ignores_decision :
  let w := Sample.world "approved" [] in
  let '(r, w') := run (Sample.env (Some "u1"))
                      (UpdateProjectTrackStepStatus "t1" 0 Pending None None)
                      w in
  r = Ok (Message "Step status updated successfully")
  ∧ Step.status <$> step_at w 0 = Some Completed
  ∧ Step.status <$> step_at w' 0 = Some Pending.
Proof. vm_compute. done. Qed.

Lemma decided_track_rejects_witness :
  let env := Sample.env (Some "u2") in
  let w := Sample.world "approved" [] in
  let op := AddReviewComment Sample.add_form in
  passes_earlier_checks env (db w) op = true
  ∧ run env op w = (Err "Decision (approved) submitted.", w).
Proof.
  intros env w op. split; [vm_compute; reflexivity|].
  destruct (decided_track_rejects env op w (Sample.track "approved")
              eq_refl ltac:(discriminate)) as (msg & Hrun & Hpass & _).
  rewrite Hrun, (Hpass ltac:(vm_compute; reflexivity)). reflexivity.
Defined.

(** C2. Three comments stored at the timestamps 2, 10.5 and 1: the next
    round lists them as 1, 10.5, 2 and then the final step, the order of
    the texts, while 2 is less than 10.5. *)
Theorem request_revisions_orders_by_text :
  let w := Sample.world PENDING
             [Sample.comment "a" (Number.of_Z 2) None;
              Sample.comment "b" (Number.mk 105 1) None;
              Sample.comment "c" (Number.of_Z 1) None] in
  let '(r, w') := run (Sample.env None) (ClientRequestRevisions "t1") w in
  r = Ok (Success "Revisions requested. Round 2 created.")
  ∧ (map step_timestamp ∘ Track.steps <$> last (project_tracks (db w')))
    = Some [Some (Number.of_Z 1); Some (Number.mk 105 1);
            Some (Number.of_Z 2); None]
  ∧ Number.ltb (Number.of_Z 2) (Number.mk 105 1) = true.
Proof. vm_compute. done. Qed.

(** The first round of the sample project is created anew: the track [t1]
    gets a step list that ends with its one final step. *)
Lemma round_builders_end_with_final_sample :
  let w := Sample.world PENDING [] in
  let op := CreateInitialRound "p1" "t1"
              [RoundComment.mk (LinkEncoder.lit "shorten the intro") None] in
  ∃ resp w', run (Sample.env (Some "u1")) op w = (Ok resp, w')
             ∧ round_written op w w'.
Proof.
  intros w op.
  destruct (run (Sample.env (Some "u1")) op w) as [[resp|msg] w'] eqn:E;
    [|vm_compute in E; discriminate].
  exists resp, w'. split; [reflexivity|].
  exact (proj1 (round_builders_end_with_final _ op w _ w' eq_refl E)).
Defined.

(** C3. A bulk update that submits the steps of the track without the
    final step succeeds, and the list is stored as it is: the track, whose
    steps ended with their one final step, is left with no final step. *)
Theorem bulk_update_stores_steps_without_final :
  let w := Sample.world PENDING [] in
  let '(r, w') := run (Sample.env (Some "u1"))
                      (UpdateAllStepContent Cases.no_final) w in
  r = Ok (Message "All steps updated successfully.")
  ∧ (map final ∘ Track.steps <$> head (project_tracks (db w)))
    = Some [false; true]
  ∧ (map final ∘ Track.steps <$> head (project_tracks (db w')))
    = Some [false].
Proof. vm_compute. done. Qed.

(** C4, as stated, fails: the descriptor names the comment of a prior
    step with timestamp 2 and brings the timestamp 5, and the step that is
    written has the timestamp 5. *)
Lemma restructure_takes_new_timestamp :
  let w := Sample.world PENDING [] in
  let '(r, w') := run (Sample.env (Some "u1"))
                      (UpdateTrackStructure "t1" [Sample.descriptor 5]) w in
  r = Ok (Message "Workflow steps updated successfully.")
  ∧ step_timestamp <$> step_at w 0 = Some (Some (Number.of_Z 2))
  ∧ step_timestamp <$> step_at w' 0 = Some (Some (Number.of_Z 5)).
Proof. vm_compute. done. Qed.

Lemma restructure_keeps_status_witness :
  let w := Sample.world PENDING [] in
  let op := UpdateTrackStructure "t1" [Sample.descriptor 5] in
  Forall (λ t', Track.id t' = "t1" →
                ∃ s, Track.steps t' !! 0 = Some s
                  ∧ Step.status s = Completed
                  ∧ step_timestamp s = Some (Number.of_Z 5))
         (project_tracks (db (run (Sample.env (Some "u1")) op w).2)).
Proof.
  intros w op. apply Forall_forall. intros t' Hin Hid.
  destruct (run (Sample.env (Some "u1")) op w) as [r w'] eqn:E.
  assert (Hr : r = Ok (Message "Workflow steps updated successfully."))
    by (vm_compute in E; congruence).
  subst r.
  destruct (restructure_keeps_status (Sample.env (Some "u1")) "t1"
              [Sample.descriptor 5] w _ w' (Sample.track PENDING)
              eq_refl E t' 0 (Sample.descriptor 5) Hin Hid eq_refl)
    as (s & Hs & Hst & Hts & _).
  exists s. split; [done|]. split; [exact Hst | exact Hts].
Defined.

(** C5. Without a session, the status of a step of another editor's
    track is changed all the same. *)
Theorem step_status_ignores_requester :
  let w := Sample.world PENDING [] in
  let '(r, w') := run (Sample.env None)
                      (UpdateProjectTrackStepStatus "t1" 0 Pending None None)
                      w in
  r = Ok (Message "Step status updated successfully")
  ∧ Step.status <$> step_at w 0 = Some Completed
  ∧ Step.status <$> step_at w' 0 = Some Pending.
Proof. vm_compute. done. Qed.

Lemma comment_edit_requires_owner_witness :
  let w := Sample.world PENDING [Sample.comment "k1" (Number.of_Z 2) None] in
  let op := DeleteReviewComment "k1" in
  let env := Sample.env (Some "u1") in
  (∀ resp w', run env op w = (Ok resp, w') →
     isOwn (session env) (Sample.comment "k1" (Number.of_Z 2) None))
  ∧ ∃ msg, run env op w = (Err msg, w).
Proof.
  intros w op env.
  destruct (comment_edit_requires_owner env op "k1" w
              (Sample.comment "k1" (Number.of_Z 2) None) (Sample.track PENDING)
              eq_refl eq_refl ltac:(discriminate)) as (H1 & _ & H3 & _).
  split; [exact H1|]. apply H3; [reflexivity | by eexists].
Defined.

(** C8. A bulk update that attaches five images to one step sends five
    upload requests and stores the five images. *)
Theorem bulk_update_uploads_five_images :
  let w := Sample.world PENDING [] in
  let '(r, w') := run (Sample.env (Some "u1"))
                      (UpdateAllStepContent Sample.bulk) w in
  r = Ok (Message "All steps updated successfully.")
  ∧ length (requests w') = 5
  ∧ length <$> (step_at w' 0 ≫= step_field Metadata.images) = Some 5.
Proof. vm_compute. done. Qed.

(** C9. The final step is marked completed without a link and without a
    media type: the action succeeds, and neither is recorded. *)
Theorem final_step_completed_without_link :
  let w := Sample.world PENDING [] in
  let '(r, w') := run (Sample.env (Some "u1"))
                      (UpdateProjectTrackStepStatus "t1" 1 Completed None None)
                      w in
  r = Ok (Message "Step status updated successfully")
  ∧ (λ s, (final s, Step.status s, Step.deliverable_link s)) <$> step_at w' 1
    = Some (true, Completed, None)
  ∧ Track.final_deliverable_media_type <$> head (project_tracks (db w'))
    = Some None.
Proof. vm_compute. done. Qed.

End WorkflowFacts.

(* ===================================================================== *)
(** * Further properties of the encoder, the actions and the pages *)
(* ===================================================================== *)

Module EncoderEdgeFacts.
Import LinkEncoder LinkEncoderFacts.

(** ** Decoding *)

Lemma placeholder_at_length s i len :
  placeholder_at s = Some (i, len) → 1 ≤ len ≤ length s.
Proof.
  unfold placeholder_at. destruct (starts_with (lit "[LINK:") s) eqn:E; [|done].
  destruct (take_while is_digit (drop 6 s)) as [|d ds] eqn:Ed; [done|].
  destruct (drop (6 + length (d :: ds)) s) as [|c r] eqn:Er; [done|].
  case_bool_decide; [|done]. intros [= <- <-].
  assert (length (drop (6 + length (d :: ds)) s) = S (length r))
    by (by rewrite Er).
  rewrite length_drop in H0. simpl in *. lia.
Qed.

Lemma replace_placeholders_unknown links :
  ∀ n s, length s ≤ n →
    (∀ k i len, placeholder_at (drop k s) = Some (i, len) →
                length links ≤ i) →
    replace_placeholders links 0 s = s.
Proof.
  induction n as [|n IH]; intros s Hn Hs.
  { destruct s; [done|simpl in Hn; lia]. }
  destruct s as [|c s']; [done|].
  cbn [replace_placeholders].
  destruct (placeholder_at (c :: s')) as [[i len]|] eqn:Ep.
  - pose proof (placeholder_at_length _ _ _ Ep) as Hl.
    pose proof (Hs 0 i len Ep) as Hi.
    rewrite (lookup_ge_None_2 links i) by done.
    destruct len as [|len]; [lia|].
    replace (S len - 1) with len by lia.
    assert (Hsplit : s' = take len s' ++ drop len s')
      by (by rewrite take_drop).
    assert (Hlen : length (take len s') = len).
    { rewrite length_take. simpl in Hl. lia. }
    rewrite Hsplit at 2.
    rewrite <- Hlen at 2. rewrite replace_placeholders_skip.
    rewrite IH.
    + cbn [take]. simpl. by rewrite take_drop.
    + rewrite length_drop. simpl in Hn. lia.
    + intros k j l. rewrite drop_drop. intros H.
      apply (Hs (S (len + k)) j l). exact H.
  - f_equal. apply IH.
    + simpl in Hn. lia.
    + intros k j l H. apply (Hs (S k) j l). exact H.
Qed.

(** X1. A text is decoded to itself when every placeholder in it carries an
    index outside the link table; so is, in particular, a text without
    placeholders. *)
Theorem decode_keeps_unknown_placeholders (t : jstring) (links : list Link) :
  (∀ k i len, placeholder_at (drop k t) = Some (i, len) → length links ≤ i) →
  renderPlainTextWithUrls (Some t) (Some links) = t.
Proof.
  intros H. unfold renderPlainTextWithUrls.
  destruct t as [|c t]; [done|]. destruct links as [|l ls]; [done|].
  by apply (replace_placeholders_unknown _ (length (c :: t))).
Qed.

Lemma decode_keeps_unknown_placeholders_witness :
  let t := lit "see [LINK:3] and [LINK:x]" in
  let links := [mkLink (lit "http://a") (lit "http://a")] in
  renderPlainTextWithUrls (Some t) (Some links) = t.
Proof.
  apply decode_keeps_unknown_placeholders.
  intros k i len.
  do 26 (destruct k as [|k]; [vm_compute; try done; intros [= <- _]; lia|]).
  destruct k; vm_compute; done.
Defined.

(** ** Encoding *)

Lemma take_take_while p (s : list N) :
  take (length (take_while p s)) s = take_while p s.
Proof.
  induction s as [|c s IH]; simpl; [done|].
  destruct (p c); simpl; [by rewrite IH|done].
Qed.

Lemma take_while_Forall (p : N → bool) s :
  Forall (λ c, p c = true) (take_while p s).
Proof.
  induction s as [|c s IH]; simpl; [done|].
  destruct (p c) eqn:E; [by constructor|done].
Qed.

Lemma url_at_chars s n :
  url_at s = Some n → Forall (λ c, url_char c = true) (take n s).
Proof.
  unfold url_at. destruct (scheme_at s) as [k|] eqn:Es; [|done].
  destruct (length (take_while url_char (drop k s))) as [|m] eqn:El; [done|].
  intros [= <-]. apply scheme_at_spec in Es as (sch & Hsch & Hk & Hs).
  rewrite Hs at 1. rewrite take_app_ge by lia.
  apply Forall_app. split.
  - destruct Hsch as [-> | ->]; vm_compute; repeat constructor.
  - replace (k + S m - length sch) with (S m) by lia.
    rewrite <- El, take_take_while. apply take_while_Forall.
Qed.

Lemma tokenize_matches t :
  ∀ s skip k, s = drop k t → ∀ u, Url u ∈ tokenize skip s → match_of t u.
Proof.
  induction s as [|c s IH]; intros skip k Hs u; simpl; [by intros ?%elem_of_nil|].
  assert (Hs' : s = drop (S k) t).
  { replace (S k) with (k + 1) by lia. by rewrite <- drop_drop, <- Hs. }
  destruct skip as [|skip]; [|by apply (IH _ _ Hs')].
  destruct (url_at (c :: s)) as [n|] eqn:En.
  - intros [[= ->]|H]%elem_of_cons; [|by apply (IH _ _ Hs' _ H)].
    exists k, n. by rewrite <- Hs.
  - intros [[=]|H]%elem_of_cons. by apply (IH _ _ Hs' _ H).
Qed.

Lemma dashboard_tokenize_matches t :
  ∀ s before skip k, s = drop k t →
    ∀ u, Url u ∈ Dashboard.tokenize before skip s → match_of t u.
Proof.
  induction s as [|c s IH]; intros before skip k Hs u; simpl;
    [by intros ?%elem_of_nil|].
  assert (Hs' : s = drop (S k) t).
  { replace (S k) with (k + 1) by lia. by rewrite <- drop_drop, <- Hs. }
  destruct skip as [|skip]; [|by apply (IH _ _ _ Hs')].
  destruct (if Dashboard.may_start before then url_at (c :: s) else None)
    as [n|] eqn:En.
  - intros [[= ->]|H]%elem_of_cons; [|by apply (IH _ _ _ Hs' _ H)].
    exists k, n. rewrite <- Hs. split; [|done].
    by destruct (Dashboard.may_start before).
  - intros [[=]|H]%elem_of_cons. by apply (IH _ _ _ Hs' _ H).
Qed.

Lemma matches_of_elem toks : ∀ pos p u,
  (p, u) ∈ matches_of pos toks → Url u ∈ toks.
Proof.
  induction toks as [|[c|v] r IH]; intros pos p u; simpl.
  - by intros ?%elem_of_nil.
  - intros H. right. by eapply IH.
  - intros [[= -> ->]|H]%elem_of_cons; [left|right; by eapply IH].
Qed.

Lemma table_ok_snoc t links u :
  table_ok t links → findIndex u links = None → match_of t u →
  table_ok t (links ++ [mkLink u u]).
Proof.
  intros [Hnd Hl] Hf Hu. split.
  - rewrite fmap_app. apply NoDup_app. split_and!; [done| |].
    + intros x Hx [->|[]%elem_of_nil]%elem_of_cons.
      by apply findIndex_none in Hf.
    + apply NoDup_singleton.
  - intros l [H|[->|[]%elem_of_nil]%elem_of_cons]%elem_of_app; [by apply Hl|].
    done.
Qed.

Lemma extract_table_ok t orig ms :
  (∀ p u, (p, u) ∈ ms → match_of t u) →
  ∀ txt links, table_ok t links →
    table_ok t (foldl (extract_step orig) (txt, links) ms).2.
Proof.
  induction ms as [|[p u] ms IH]; intros Hms txt links Hok; [done|].
  cbn [foldl]. unfold extract_step at 2.
  assert (Hms' : ∀ p u, (p, u) ∈ ms → match_of t u)
    by (intros ???; eapply Hms; by right).
  case_bool_decide; [by apply IH|].
  destruct (findIndex u links) eqn:Ef; apply IH; try done.
  apply table_ok_snoc; try done. eapply Hms. by left.
Qed.

Lemma dashboard_extract_table_ok t ms :
  (∀ p u, (p, u) ∈ ms → match_of t u) →
  ∀ txt links, table_ok t links →
    table_ok t (foldl Dashboard.extract_step (txt, links) ms).2.
Proof.
  induction ms as [|[p u] ms IH]; intros Hms txt links Hok; [done|].
  cbn [foldl]. unfold Dashboard.extract_step at 2.
  assert (Hms' : ∀ p u, (p, u) ∈ ms → match_of t u)
    by (intros ???; eapply Hms; by right).
  destruct (findIndex u links) eqn:Ef; apply IH; try done.
  apply table_ok_snoc; try done. eapply Hms. by left.
Qed.

Lemma table_ok_nil t : table_ok t [].
Proof. split; [constructor|]. by intros ? ?%elem_of_nil. Qed.

Lemma detect_table_ok t :
  table_ok t (detectAndExtractLinks t).2
  ∧ table_ok t (Dashboard.detectAndExtractLinks t).2.
Proof.
  split.
  - apply extract_table_ok; [|apply table_ok_nil].
    intros p u H%matches_of_elem. by eapply (tokenize_matches t t 0 0).
  - apply dashboard_extract_table_ok; [|apply table_ok_nil].
    intros p u H%matches_of_elem.
    by eapply (dashboard_tokenize_matches t t [] 0 0).
Qed.

(** X3. Every link that the two encoders extract is a match of the URL
    pattern in the text: it begins with a scheme, holds no white space, no
    angle bracket and no quote, occurs in the text, and its text is its
    url. *)
Theorem extracted_links_are_urls (t : jstring) (l : Link) :
  l ∈ (detectAndExtractLinks t).2
  ∨ l ∈ (Dashboard.detectAndExtractLinks t).2 →
  text l = url l
  ∧ is_url_start (url l)
  ∧ Forall (λ c, url_char c = true) (url l)
  ∧ ∃ k, url l `prefix_of` drop k t.
Proof.
  intros H. destruct (detect_table_ok t) as [[_ H1] [_ H2]].
  assert (Hl : text l = url l ∧ match_of t (url l))
    by (destruct H; auto).
  destruct Hl as [Ht (k & n & Hn & Hu)]. split; [done|].
  rewrite Hu. split_and!.
  - by apply url_at_some in Hn as [_ ?].
  - by apply url_at_chars.
  - exists k. apply prefix_take.
Qed.

Lemma extracted_links_are_urls_witness :
  let t := lit "cut at http://x.io/1, see <https://y.io>" in
  let l := mkLink (lit "https://y.io") (lit "https://y.io") in
  text l = url l
  ∧ is_url_start (url l)
  ∧ Forall (λ c, url_char c = true) (url l)
  ∧ ∃ k, url l `prefix_of` drop k t.
Proof.
  apply extracted_links_are_urls. left. vm_compute.
  right. left.
Defined.

(** X4. No url is twice in the link table of an encoder. *)
Theorem extracted_links_are_distinct (t : jstring) :
  NoDup (url <$> (detectAndExtractLinks t).2)
  ∧ NoDup (url <$> (Dashboard.detectAndExtractLinks t).2).
Proof. destruct (detect_table_ok t) as [[? _] [? _]]. done. Qed.

Lemma no_match_no_tokens s : ∀ pos,
  (∀ k, url_at (drop k s) = None) → matches_of pos (tokenize 0 s) = [].
Proof.
  induction s as [|c s IH]; intros pos H; [done|]. simpl.
  pose proof (H 0) as H0. cbn [drop] in H0. rewrite H0. simpl.
  apply IH. intros k. apply (H (S k)).
Qed.

Lemma dashboard_no_match_no_tokens s : ∀ pos before,
  (∀ k, url_at (drop k s) = None) →
  matches_of pos (Dashboard.tokenize before 0 s) = [].
Proof.
  induction s as [|c s IH]; intros pos before H; [done|]. simpl.
  pose proof (H 0) as H0. cbn [drop] in H0. rewrite H0.
  destruct (Dashboard.may_start before); simpl;
    apply IH; intros k; apply (H (S k)).
Qed.

(** X2. A text in which neither scheme occurs is left as it is by the two
    encoders, with an empty link table. *)
Theorem encode_without_scheme (t : jstring) :
  (∀ k, starts_with (lit "http://") (drop k t) = false) →
  (∀ k, starts_with (lit "https://") (drop k t) = false) →
  detectAndExtractLinks t = (t, [])
  ∧ Dashboard.detectAndExtractLinks t = (t, []).
Proof.
  intros H1 H2.
  assert (H : ∀ k, url_at (drop k t) = None).
  { intros k. unfold url_at, scheme_at. by rewrite H1, H2. }
  unfold detectAndExtractLinks, Dashboard.detectAndExtractLinks, matchAll.
  by rewrite no_match_no_tokens, dashboard_no_match_no_tokens.
Qed.

End EncoderEdgeFacts.

Module ActionFacts.
Import WorkflowFacts.

Lemma keeps_db_review_job env file :
  keeps_db (if (File.size file =? 0)%N then ret None
            else do u <- Review.uploadImageToImgBB env file; ret (Some u)).
Proof.
  case_match; [apply keeps_db_ret|].
  apply keeps_db_bind; [apply keeps_db_review_upload|].
  intros; apply keeps_db_ret.
Qed.

Lemma keeps_db_attach_images env form indices :
  ∀ steps, keeps_db (Dashboard.attach_images env form indices steps).
Proof.
  induction indices as [|i rest IH]; intros steps; simpl;
    [apply keeps_db_ret|].
  repeat case_match; try apply IH.
  apply keeps_db_bind; [|intros; apply IH].
  apply keeps_db_for_each. apply keeps_db_upload.
Qed.

Ltac uploads_keep_db :=
  repeat match goal with
  | H : promise_all _ _ _ = _ |- _ =>
      first
        [ apply (keeps_db_promise_all _ _ (keeps_db_upload _)) in H
        | apply (keeps_db_promise_all _ _ (keeps_db_review_upload _)) in H
        | apply (keeps_db_promise_all _ _ (keeps_db_review_job _)) in H ]
  | H : Dashboard.rethrow _ _ _ = _ |- _ =>
      apply keeps_db_rethrow in H
  | H : Dashboard.attach_images _ _ _ _ _ = _ |- _ =>
      apply keeps_db_attach_images in H
  end.

(** X22. A request that fails leaves the store as it was, whatever uploads it
    sent before; [createProject], which inserts the project before its
    uploads, is the one exception. *)
Theorem failed_request_keeps_store (env : Env) (op : Op) (w w' : World)
    (msg : string) :
  (∀ form, op ≠ CreateProject form) →
  run env op w = (Err msg, w') →
  db w' = db w.
Proof.
  intros Hop Hrun. destruct op; try (by destruct (Hop form)); clear Hop;
    revert Hrun; run_all; uploads_keep_db; try done.
Qed.

(** ** What a request never writes *)

Lemma only_uploads_ret {A} (a : A) : only_uploads (ret a).
Proof. intros w r w' [= <- <-]. done. Qed.

Lemma only_uploads_throw {A} msg : only_uploads (@throw A msg).
Proof. intros w r w' [= <- <-]. done. Qed.

Lemma only_uploads_bind {A B} (c : M A) (k : A → M B) :
  only_uploads c → (∀ a, only_uploads (k a)) → only_uploads (bind c k).
Proof.
  intros Hc Hk w r w'. unfold bind.
  destruct (c w) as [[a|e] w1] eqn:E; intros H.
  - destruct (Hc _ _ _ E) as [H1 ?]. destruct (Hk a _ _ _ H) as [H2 ?].
    split; [congruence|by etrans].
  - inversion H; subst. eapply Hc, E.
Qed.

Lemma only_uploads_post env f : only_uploads (post_image env f).
Proof.
  intros w r w' [= <- <-]. split; [done|]. simpl. by apply prefix_app_r.
Qed.

Lemma only_uploads_review_upload env f :
  only_uploads (Review.uploadImageToImgBB env f).
Proof.
  unfold Review.uploadImageToImgBB.
  repeat case_match; try apply only_uploads_throw.
  intros w r w'. destruct (post_image env f w) as [[u|e] w1] eqn:E;
    intros [= <- <-]; eapply only_uploads_post, E.
Qed.

Lemma only_uploads_upload env f :
  only_uploads (Dashboard.uploadImageToImgBB env f).
Proof.
  unfold Dashboard.uploadImageToImgBB.
  repeat case_match; try apply only_uploads_throw.
  intros w r w'. destruct (post_image env f w) as [[u|e] w1] eqn:E;
    intros [= <- <-]; eapply only_uploads_post, E.
Qed.

Lemma only_uploads_review_job env file :
  only_uploads (if (File.size file =? 0)%N then ret None
                else do u <- Review.uploadImageToImgBB env file;
                     ret (Some u)).
Proof.
  case_match; [apply only_uploads_ret|].
  apply only_uploads_bind; [apply only_uploads_review_upload|].
  intros; apply only_uploads_ret.
Qed.

Lemma only_uploads_promise_all {A B} (job : A → M B) items :
  (∀ x, only_uploads (job x)) → only_uploads (promise_all job items).
Proof.
  intros Hjob. induction items as [|x rest IH]; [apply only_uploads_ret|].
  intros w r w'. simpl.
  destruct (job x w) as [r1 w1] eqn:E1.
  destruct (promise_all job rest w1) as [r2 w2] eqn:E2.
  intros H. assert (w' = w2) as -> by (repeat case_match; by simplify_eq).
  destruct (Hjob _ _ _ _ E1) as [H1 ?]. destruct (IH _ _ _ E2) as [H2 ?].
  split; [congruence|by etrans].
Qed.

Lemma only_uploads_for_each {A B} (job : A → M B) items :
  (∀ x, only_uploads (job x)) → only_uploads (for_each job items).
Proof.
  intros Hjob. induction items as [|x rest IH]; [apply only_uploads_ret|].
  simpl. apply only_uploads_bind; [done|]. intros b.
  apply only_uploads_bind; [done|]. intros bs. apply only_uploads_ret.
Qed.

Lemma only_uploads_rethrow {A} msg (c : M A) :
  only_uploads c → only_uploads (Dashboard.rethrow msg c).
Proof.
  intros Hc w r w'. unfold Dashboard.rethrow.
  destruct (c w) as [[a|e] w1] eqn:E; intros [= <- <-]; eapply Hc, E.
Qed.

Lemma only_uploads_attach_images env form indices :
  ∀ steps, only_uploads (Dashboard.attach_images env form indices steps).
Proof.
  induction indices as [|i rest IH]; intros steps; simpl;
    [apply only_uploads_ret|].
  repeat case_match; try apply IH.
  apply only_uploads_bind; [|intros; apply IH].
  apply only_uploads_for_each. apply only_uploads_upload.
Qed.

Lemma only_uploads_round_steps env name status comments : ∀ index,
  only_uploads (Dashboard.round_steps env name status index comments).
Proof.
  induction comments as [|c rest IH]; intros index; simpl;
    [apply only_uploads_ret|].
  apply only_uploads_bind.
  - apply only_uploads_rethrow, only_uploads_promise_all,
      only_uploads_upload.
  - intros urls. destruct (Dashboard.detectAndExtractLinks _).
    apply only_uploads_bind; [apply IH|]. intros. apply only_uploads_ret.
Qed.

Lemma only_uploads_project_steps env form comments : ∀ index,
  only_uploads (Dashboard.project_steps env form index comments).
Proof.
  induction comments as [|[text images] rest IH]; intros index; simpl;
    [apply only_uploads_ret|].
  apply only_uploads_bind.
  - apply only_uploads_promise_all. intros i. case_match.
    + apply only_uploads_bind; [apply only_uploads_upload|].
      intros. apply only_uploads_ret.
    + apply only_uploads_ret.
  - intros urls. destruct (Dashboard.detectAndExtractLinks _).
    apply only_uploads_bind; [apply IH|]. intros. apply only_uploads_ret.
Qed.

Ltac uploads_only :=
  repeat match goal with
  | H : promise_all _ _ _ = _ |- _ =>
      first
        [ apply (only_uploads_promise_all _ _ (only_uploads_upload _)) in H
        | apply (only_uploads_promise_all _ _
                   (only_uploads_review_upload _)) in H
        | apply (only_uploads_promise_all _ _
                   (only_uploads_review_job _)) in H ];
      destruct H as [? ?]
  | H : Dashboard.attach_images _ _ _ _ _ = _ |- _ =>
      apply only_uploads_attach_images in H; destruct H as [? ?]
  | H : Dashboard.round_steps _ _ _ _ _ _ = _ |- _ =>
      apply only_uploads_round_steps in H; destruct H as [? ?]
  | H : Dashboard.project_steps _ _ _ _ _ = _ |- _ =>
      apply only_uploads_project_steps in H; destruct H as [? ?]
  end.

(** Runs an action through every branch, keeping what the uploads did. *)
Ltac run_branches :=
  unfold_actions; unfold write;
  repeat first [ progress cbv beta iota zeta | case_match ];
  intros; simplify_eq; uploads_only.

(** X23. A request that calls no stored procedure never changes the editor
    profiles and never takes back an upload request.  The comment actions
    write no track and no project; no other such request writes a comment;
    projects are written by the creation of a project alone. *)
Theorem requests_write_their_tables (env : Env) (op : Op) (w w' : World)
    (r : result Response) :
  calls_procedure op = false →
  run env op w = (r, w') →
  editor_profiles (db w') = editor_profiles (db w)
  ∧ requests w `prefix_of` requests w'
  ∧ (writes_comments op = false →
     review_comments (db w') = review_comments (db w))
  ∧ (writes_comments op = true →
     project_tracks (db w') = project_tracks (db w)
     ∧ projects (db w') = projects (db w))
  ∧ (writes_projects op = false → projects (db w') = projects (db w)).
Proof.
  intros Hop Hrun. destruct op; try done; clear Hop; revert Hrun;
    run_branches; simpl.
  all: repeat match goal with E : db _ = db _ |- _ => rewrite E end.
  all: split_and!; try done; try (intros; done).
Qed.

(** ** Uploads *)

Lemma review_upload_ok env f w u w' :
  Review.uploadImageToImgBB env f w = (Ok u, w') →
  acceptable f ∧ imgbb_key env = true ∧ imgbb env f = Ok u
  ∧ w' = mkWorld (db w) (requests w ++ [f]).
Proof.
  unfold Review.uploadImageToImgBB, acceptable, post_image, throw.
  destruct (IMAGE_MAX_SIZE_BYTES <? File.size f)%N eqn:Es; [done|].
  destruct (bool_decide (File.type f ∈ ACCEPTED_IMAGE_TYPES)) eqn:Et;
    [|done].
  destruct (imgbb_key env); [|done]. simpl.
  destruct (imgbb env f) eqn:Eh; intros [= <- <-].
  apply N.ltb_ge in Es. apply bool_decide_eq_true in Et. done.
Qed.

Lemma dashboard_upload_ok env f w u w' :
  Dashboard.uploadImageToImgBB env f w = (Ok u, w') →
  acceptable f ∧ imgbb_key env = true ∧ imgbb env f = Ok u
  ∧ w' = mkWorld (db w) (requests w ++ [f]).
Proof.
  unfold Dashboard.uploadImageToImgBB, acceptable, post_image, throw.
  destruct (IMAGE_MAX_SIZE_BYTES <? File.size f)%N eqn:Es; [done|].
  destruct (bool_decide (File.type f ∈ ACCEPTED_IMAGE_TYPES)) eqn:Et;
    [|done].
  destruct (imgbb_key env); [|done]. simpl.
  destruct (imgbb env f) eqn:Eh; intros [= <- <-].
  apply N.ltb_ge in Es. apply bool_decide_eq_true in Et. done.
Qed.

Lemma upload_err env f w e w' :
  Review.uploadImageToImgBB env f w = (Err e, w')
  ∨ Dashboard.uploadImageToImgBB env f w = (Err e, w') →
  db w' = db w
  ∧ (requests w' = requests w
     ∨ requests w' = requests w ++ [f] ∧ ∃ e', imgbb env f = Err e').
Proof.
  unfold Review.uploadImageToImgBB, Dashboard.uploadImageToImgBB,
    post_image, throw.
  intros [H|H]; revert H; repeat case_match; intros; simplify_eq; simpl;
    (split; [done|]); first [by left | right; split; [done|by eexists]].
Qed.

(** X5. An upload leaves the store alone and sends at most one request, for
    the file itself.  It succeeds only for an acceptable file, with the
    url that the image host answered for it. *)
Theorem upload_sends_the_file_once (env : Env) (f : File.t) (w w' : World)
    (r : result string) :
  Review.uploadImageToImgBB env f w = (r, w')
  ∨ Dashboard.uploadImageToImgBB env f w = (r, w') →
  db w' = db w
  ∧ match r with
    | Ok u =>
        acceptable f ∧ imgbb_key env = true ∧ imgbb env f = Ok u
        ∧ requests w' = requests w ++ [f]
    | Err _ =>
        requests w' = requests w
        ∨ requests w' = requests w ++ [f] ∧ ∃ e, imgbb env f = Err e
    end.
Proof.
  destruct r as [u|e]; [|apply upload_err].
  intros [H|H];
    [apply review_upload_ok in H|apply dashboard_upload_ok in H];
    destruct H as (? & ? & ? & ->); done.
Qed.

(** ** Adding a comment *)


Lemma review_jobs_ok env files : ∀ w results w',
  promise_all
    (λ file, if (File.size file =? 0)%N then ret None
             else do u <- Review.uploadImageToImgBB env file; ret (Some u))
    files w = (Ok results, w') →
  db w' = db w
  ∧ requests w' = requests w ++ sent files
  ∧ Forall acceptable (sent files)
  ∧ Forall2 (λ f u, imgbb env f = Ok u) (sent files) (non_null results).
Proof.
  induction files as [|f files IH]; intros w results w'.
  { intros [= <- <-]. unfold sent. rewrite app_nil_r.
    split_and!; constructor. }
  unfold sent in *. cbn [promise_all].
  destruct (_ w) as [r1 w1] eqn:E1 at 1.
  destruct (promise_all _ files w1) as [rs w2] eqn:E2.
  destruct r1 as [b|e]; [|done]. destruct rs as [bs|e]; [|done].
  intros [= <- <-]. apply IH in E2 as (Hdb & Hreq & Hacc & Hurl).
  destruct (N.eqb_spec (File.size f) 0) as [Hz|Hz].
  - unfold ret in E1. simplify_eq.
    rewrite filter_cons_False by (intros ?; done). done.
  - unfold bind, ret in E1.
    destruct (Review.uploadImageToImgBB env f w) as [[u|e] w0] eqn:Eu;
      [|done].
    simplify_eq. apply review_upload_ok in Eu as (Ha & _ & Hu & ->).
    rewrite filter_cons_True by done. simpl in *.
    split_and!; [done| |by constructor|by constructor].
    rewrite Hreq. by rewrite <- app_assoc.
Qed.

Lemma add_comment_spec (env : Env) (form : AddForm.t)
    (w w' : World) (resp : Response) :
  run env (AddReviewComment form) w = (Ok resp, w') →
  ∃ trackId track ts text row,
    AddForm.trackId form = Some trackId
    ∧ track_by_id (db w) trackId = Some track
    ∧ Track.client_decision track = PENDING
    ∧ AddForm.timestamp form = Some (Some ts)
    ∧ Number.negative ts = false
    ∧ AddForm.commentText form = Some text
    ∧ length (AddForm.images form) ≤ MAX_IMAGES_PER_COMMENT
    ∧ Forall acceptable (sent (AddForm.images form))
    ∧ requests w' = requests w ++ sent (AddForm.images form)
    ∧ db w' = mkDb (project_tracks (db w)) (review_comments (db w) ++ [row])
                   (projects (db w)) (editor_profiles (db w))
    ∧ write_ok env "review_comments" = true
    ∧ Comment.id row = new_id env "review_comments"
    ∧ Comment.track_id row = trackId
    ∧ Comment.commenter_id row = or_else (session env) None
    ∧ CommentData.text (Comment.comment row) = trim text
    ∧ CommentData.timestamp (Comment.comment row) = ts
    ∧ Forall2 (λ f u, imgbb env f = Ok u) (sent (AddForm.images form))
              (default [] (CommentData.images (Comment.comment row)))
    ∧ resp = WithComment "Comment added successfully" (Review.view row).
Proof.
  unfold_actions; unfold write.
  repeat first [ progress cbv beta iota zeta | case_match ];
    intros; simplify_eq.
  all: match goal with H : promise_all _ _ _ = _ |- _ =>
    apply review_jobs_ok in H as (Hdb & Hreq & Hacc & Hurl) end.
  all: match goal with
       | H : or_else (AddForm.trackId ?f) None = Some ?x |- _ =>
         assert (AddForm.trackId f = Some x)
           by (unfold or_else in H; by case_match) end.
  all: match goal with H : negb (is_pending _) = false |- _ =>
    apply negb_false_iff, String.eqb_eq in H end.
  all: match goal with H : (_ <? _) = false |- _ =>
    apply Nat.ltb_ge in H end.
  all: match goal with E : non_null _ = _ |- _ => rewrite E in Hurl end.
  all: eexists _, _, _, _, _; simpl; rewrite Hdb.
  all: split_and!; try done; try eassumption.
Qed.

Lemma add_comment_named (env : Env) (form : AddForm.t)
    (w w' : World) (resp : Response) :
  run env (AddReviewComment form) w = (Ok resp, w') →
  ∀ row, last (review_comments (db w')) = Some row →
    Comment.commenter_name row
    = Some (default "Anonymous Visitor"
                    (or_else (AddForm.commenterName form) None))
    ∧ Comment.created_at row = now env.
Proof.
  unfold_actions; unfold write.
  repeat first [ progress cbv beta iota zeta | case_match ];
    intros; simplify_eq.
  all: match goal with H : last _ = Some _ |- _ =>
    simpl in H; rewrite last_snoc in H; by simplify_eq end.
Qed.

(** X8. A comment is stored only for a pending track and with at most four
    images, all acceptable.  It is appended to the comments with the
    trimmed text, the session's user as author and the urls that the image
    host answered for the files that are not empty, each sent once, in
    order; nothing else is written.  Nothing is said here of the timestamp
    that is stored. *)
Theorem added_comment_is_stored (env : Env) (form : AddForm.t)
    (w w' : World) (resp : Response) :
  run env (AddReviewComment form) w = (Ok resp, w') →
  ∃ trackId track text row,
    AddForm.trackId form = Some trackId
    ∧ track_by_id (db w) trackId = Some track
    ∧ Track.client_decision track = PENDING
    ∧ AddForm.commentText form = Some text
    ∧ length (AddForm.images form) ≤ MAX_IMAGES_PER_COMMENT
    ∧ Forall acceptable (sent (AddForm.images form))
    ∧ requests w' = requests w ++ sent (AddForm.images form)
    ∧ db w' = mkDb (project_tracks (db w)) (review_comments (db w) ++ [row])
                   (projects (db w)) (editor_profiles (db w))
    ∧ Comment.track_id row = trackId
    ∧ Comment.commenter_id row = or_else (session env) None
    ∧ Comment.commenter_name row
      = Some (default "Anonymous Visitor"
                      (or_else (AddForm.commenterName form) None))
    ∧ Comment.created_at row = now env
    ∧ CommentData.text (Comment.comment row) = trim text
    ∧ Forall2 (λ f u, imgbb env f = Ok u) (sent (AddForm.images form))
              (default [] (CommentData.images (Comment.comment row)))
    ∧ resp = WithComment "Comment added successfully" (Review.view row).
Proof.
  intros H. pose proof (add_comment_named _ _ _ _ _ H) as Hrow.
  apply add_comment_spec in H
    as (trackId & track & ts & text & row & H).
  exists trackId, track, text, row.
  destruct H as (? & ? & ? & ? & ? & ? & ? & ? & ? & Hdb & ? & ? & ? & ? & ?
                 & ? & ? & ?).
  destruct (Hrow row) as [Hname Htime].
  { rewrite Hdb. simpl. by rewrite last_snoc. }
  split_and!; done.
Qed.

(** ** Deleting a comment *)


Lemma filter_all {A} (P : A → Prop) `{∀ x, Decision (P x)} (l : list A) :
  Forall P l → filter P l = l.
Proof.
  induction 1 as [|x l Hx _ IH]; [done|].
  rewrite filter_cons_True by done. by f_equal.
Qed.

Lemma single_filter_split {A} (P : A → Prop) `{∀ x, Decision (P x)}
    (l : list A) (x : A) :
  single (filter P l) = Some x → l ≡ₚ x :: filter (λ y, ¬ P y) l.
Proof.
  induction l as [|y l IH]; [done|].
  destruct (decide (P y)) as [Hy|Hy].
  - rewrite filter_cons_True by done.
    rewrite (filter_cons_False (λ y, ¬ P y)) by (intros ?; done).
    destruct (filter P l) as [|z rest] eqn:E; [|done].
    intros [= ->]. f_equiv.
    assert (Hall : Forall (λ y, ¬ P y) l).
    { apply Forall_forall. intros z Hz HP.
      assert (z ∈ filter P l) by (by apply list_elem_of_filter).
      rewrite E in *. by eapply elem_of_nil. }
    by rewrite filter_all.
  - rewrite filter_cons_False by done.
    rewrite (filter_cons_True (λ y, ¬ P y)) by done.
    intros Hs. rewrite (IH Hs) at 1. apply Permutation_swap.
Qed.

(** X9. After a comment was deleted it is no longer among the comments; the
    other comments are all there, in their order; the comment was the
    caller's own, on a pending track; nothing else is written. *)
Theorem deleted_comment_is_gone (env : Env) (commentId : string)
    (w w' : World) (resp : Response) :
  run env (DeleteReviewComment commentId) w = (Ok resp, w') →
  ∃ c t,
    comment_with_track (db w) commentId = Some (c, t)
    ∧ Review.isOwnComment (session env) c = true
    ∧ Track.client_decision t = PENDING
    ∧ review_comments (db w) ≡ₚ c :: review_comments (db w')
    ∧ review_comments (db w') `sublist_of` review_comments (db w)
    ∧ Forall (λ c', Comment.id c' ≠ commentId) (review_comments (db w'))
    ∧ project_tracks (db w') = project_tracks (db w)
    ∧ projects (db w') = projects (db w)
    ∧ requests w' = requests w.
Proof.
  unfold_actions; unfold write.
  repeat first [ progress cbv beta iota zeta | case_match ];
    intros; simplify_eq.
  match goal with H : negb (is_pending _) = false |- _ =>
    apply negb_false_iff, String.eqb_eq in H end.
  match goal with H : negb (Review.isOwnComment _ _) = false |- _ =>
    apply negb_false_iff in H end.
  eexists _, _. simpl. split_and!; try done.
  - match goal with H : comment_with_track _ _ = Some _ |- _ =>
      unfold comment_with_track in H;
      apply bind_Some in H as (c9 & Hc9 & H);
      apply bind_Some in H as (t9 & Ht9 & H); simplify_eq end.
    by apply (single_filter_split (λ c, Comment.id c = commentId)).
  - apply sublist_filter.
  - apply Forall_forall. by intros c' [? _]%list_elem_of_filter.
Qed.


(** ** Editing a comment *)

Lemma decode_encode (t : list N) :
  LinkEncoder.no_placeholder t →
  LinkEncoder.renderPlainTextWithUrls
    (Some (LinkEncoder.detectAndExtractLinks t).1)
    (Some (LinkEncoder.detectAndExtractLinks t).2) = t.
Proof.
  intros Hno.
  rewrite (LinkEncoderFacts.detectAndExtractLinks_scan t Hno). simpl.
  unfold LinkEncoder.renderPlainTextWithUrls.
  destruct (LinkEncoder.render
              (LinkEncoder.collect [] (LinkEncoder.tokenize 0 t))
              (LinkEncoder.tokenize 0 t)) as [|c txt] eqn:Er.
  { apply LinkEncoderFacts.render_nil in Er.
    by rewrite <- (LinkEncoderFacts.flatten_tokenize t), Er. }
  destruct (LinkEncoder.collect [] (LinkEncoder.tokenize 0 t))
    as [|l ls] eqn:Ec.
  - rewrite <- Er, LinkEncoderFacts.render_no_urls;
      [apply LinkEncoderFacts.flatten_tokenize|].
    intros u Hu. apply (LinkEncoderFacts.collect_covers _ []) in Hu.
    rewrite Ec in Hu. by destruct Hu.
  - rewrite <- Er, <- Ec. rewrite LinkEncoderFacts.decode_render.
    + apply LinkEncoderFacts.flatten_tokenize.
    + apply LinkEncoderFacts.tokenize_ok.
    + by rewrite LinkEncoderFacts.flatten_tokenize.
    + intros u Hu. by apply LinkEncoderFacts.collect_covers.
Qed.

(** X11. The text and the links stored by an edit decode to the text that was
    sent, trimmed, when that text holds no placeholder: in the comment
    returned and in the stored comment. *)
Theorem edited_comment_reads_back (env : Env) (form : EditForm.t)
    (w w' : World) (resp : Response) (text : list N) :
  run env (UpdateReviewComment form) w = (Ok resp, w') →
  EditForm.newCommentText form = Some text →
  LinkEncoder.no_placeholder (trim text) →
  (∃ v, resp = WithComment "Comment updated successfully" v
        ∧ LinkEncoder.renderPlainTextWithUrls
            (Some (CommentData.text (CommentView.comment v)))
            (CommentData.links (CommentView.comment v)) = trim text)
  ∧ ∀ c, c ∈ review_comments (db w') →
         Some (Comment.id c) = EditForm.commentId form →
         LinkEncoder.renderPlainTextWithUrls
           (Some (CommentData.text (Comment.comment c)))
           (CommentData.links (Comment.comment c)) = trim text.
Proof.
  intros Hrun Htext Hno. pose proof (decode_encode _ Hno) as Hdec.
  revert Hrun. unfold_actions; unfold write. rewrite Htext.
  repeat first [ progress cbv beta iota zeta | case_match ];
    intros; simplify_eq.
  all: cbn [fst snd] in Hdec.
  all: match goal with
       | H : or_else (EditForm.commentId ?f) None = Some ?x |- _ =>
         assert (Hcid : EditForm.commentId f = Some x)
           by (unfold or_else in H; by case_match) end.
  all: split; [eexists; split; [reflexivity|exact Hdec]|].
  all: cbn [db review_comments update_comments]; intros c Hc Hid.
  all: unfold update_comments in Hc; cbn [review_comments] in Hc.
  all: apply list_elem_of_fmap in Hc as (c0 & -> & Hc0).
  all: rewrite Hcid in Hid.
  all: case_decide; [exact Hdec|congruence].
Qed.

(** ** Setting the status of a step *)

(** X14. A status update that succeeds names a step of the track; it writes
    the new status on that step and leaves its name, flag and content, as
    well as every other step, every other track, the decision and the
    round of the track as they were.  On a step that is not final the
    deliverable link and the media type of the track stay as well. *)
Theorem step_status_changes_one_step (env : Env) (trackId : string)
    (stepIndex : Z) (newStatus : StepStatus) (linkValue : option string)
    (finalMediaType : option MediaType) (w w' : World) (resp : Response) :
  run env (UpdateProjectTrackStepStatus trackId stepIndex newStatus
             linkValue finalMediaType) w = (Ok resp, w') →
  ∃ t i s s',
    track_by_id (db w) trackId = Some t
    ∧ stepIndex = Z.of_nat i
    ∧ Track.steps t !! i = Some s
    ∧ Step.status s' = newStatus
    ∧ Step.name s' = Step.name s
    ∧ Step.is_final s' = Step.is_final s
    ∧ Step.metadata s' = Step.metadata s
    ∧ (final s = false → Step.deliverable_link s' = Step.deliverable_link s)
    ∧ Forall2
        (λ u u',
           Track.id u' = Track.id u
           ∧ Track.project_id u' = Track.project_id u
           ∧ Track.round_number u' = Track.round_number u
           ∧ Track.client_decision u' = Track.client_decision u
           ∧ (Track.id u ≠ trackId → u' = u)
           ∧ (Track.id u = trackId →
              Track.steps u' = <[i := s']> (Track.steps u)
              ∧ (final s = false →
                 Track.final_deliverable_media_type u'
                 = Track.final_deliverable_media_type u)))
        (project_tracks (db w)) (project_tracks (db w'))
    ∧ review_comments (db w') = review_comments (db w)
    ∧ requests w' = requests w.
Proof.
  unfold_actions; unfold write.
  repeat first [ progress cbv beta iota zeta | case_match ];
    intros; simplify_eq.
  all: match goal with H : _ || _ = false |- _ =>
    apply orb_false_iff in H as [Hlo%Z.ltb_ge Hhi%Z.leb_gt] end.
  all: match goal with
  | Ht : track_by_id _ _ = Some ?t, Hs : Track.steps ?t !! ?i = Some ?s
    |- context [<[_ := ?s']> (Track.steps ?t)] =>
      exists t, i, s, s'
  end.
  all: split_and!; [done|lia|done|..];
    cbn [Step.status Step.name Step.is_final Step.metadata
         Step.deliverable_link]; try done.
  all: try (intros Hf;
            match goal with H : context [final _] |- _ =>
              rewrite Hf in H; simpl in H; discriminate end).
  all: cbn [db project_tracks update_tracks].
  all: apply Forall2_fmap_r, Forall_Forall2_diag, Forall_forall.
  all: intros u Hu; unfold compose;
    destruct (decide (Track.id u = trackId)) as [Hid|Hid]; cbn;
    [|split_and!; done].
  all: split_and!; try done; intros _.
  all: match goal with H : track_by_id _ _ = Some _ |- _ =>
         rewrite (single_filter_unique _ _ _ u H Hu) by done end.
  all: split; [done|]; intros Hf; try done.
  all: match goal with H : context [final _] |- _ =>
         rewrite Hf in H; simpl in H; discriminate end.
Qed.

(** ** Editing the content of a step *)

Lemma promise_all_length {A B} (job : A → M B) items : ∀ w bs w',
  promise_all job items w = (Ok bs, w') → length bs = length items.
Proof.
  induction items as [|x rest IH]; intros w bs w'; simpl.
  { by intros [= <- <-]. }
  destruct (job x w) as [[b|e] w1]; destruct (promise_all job rest w1)
    as [[bs'|e'] w2] eqn:E; intros; simplify_eq.
  simpl. f_equal. by eapply IH.
Qed.

(** X17. An edit of the content of a step that succeeds names a step that is
    not final, on a pending track of the editor.  It leaves the name, the
    status, the flag and the deliverable link of the step, and the type,
    comment id, timestamp, creation time and index of its metadata as they
    were; every other step and every other track stay as well.  When new
    images come with the edit, the step ends with at most four images. *)
Theorem step_content_edit_keeps_the_step (env : Env) (form : ContentForm.t)
    (w w' : World) (resp : Response) :
  run env (UpdateStepContent form) w = (Ok resp, w') →
  ∃ trackId t i s s' md',
    ContentForm.trackId form = Some trackId
    ∧ owns_track env (db w) trackId
    ∧ track_by_id (db w) trackId = Some t
    ∧ Track.client_decision t = PENDING
    ∧ ContentForm.stepIndex form = Some (Some (Z.of_nat i))
    ∧ Track.steps t !! i = Some s
    ∧ final s = false
    ∧ Step.name s' = Step.name s
    ∧ Step.status s' = Step.status s
    ∧ Step.is_final s' = Step.is_final s
    ∧ Step.deliverable_link s' = Step.deliverable_link s
    ∧ Step.metadata s' = Some md'
    ∧ (∀ md, Step.metadata s = Some md →
         Metadata.type md' = Metadata.type md
         ∧ Metadata.comment_id md' = Metadata.comment_id md
         ∧ Metadata.timestamp md' = Metadata.timestamp md
         ∧ Metadata.created_at md' = Metadata.created_at md
         ∧ Metadata.step_index md' = Metadata.step_index md)
    ∧ (ContentForm.newImages form ≠ [] →
       length (default [] (Metadata.images md')) ≤ MAX_IMAGES_PER_COMMENT)
    ∧ Forall2
        (λ u u',
           Track.id u' = Track.id u
           ∧ Track.client_decision u' = Track.client_decision u
           ∧ Track.round_number u' = Track.round_number u
           ∧ Track.final_deliverable_media_type u'
             = Track.final_deliverable_media_type u
           ∧ (Track.id u ≠ trackId → u' = u)
           ∧ (Track.id u = trackId →
              Track.steps u' = <[i := s']> (Track.steps u)))
        (project_tracks (db w)) (project_tracks (db w'))
    ∧ review_comments (db w') = review_comments (db w).
Proof.
  unfold_actions; unfold write.
  repeat first [ progress cbv beta iota zeta | case_match ];
    intros; simplify_eq.
  all: match goal with H : negb (is_pending _) = false |- _ =>
    apply negb_false_iff, String.eqb_eq in H end.
  all: match goal with H : negb (bool_decide _) = false |- _ =>
    apply negb_false_iff, bool_decide_eq_true in H;
    apply fmap_Some in H as (profile & Hprofile & Hprofile_id) end.
  all: match goal with H : (_ <? 0)%Z = false |- _ =>
    apply Z.ltb_ge in H end.
  all: try match goal with H : promise_all _ _ _ = _ |- _ =>
    pose proof (promise_all_length _ _ _ _ _ H) as Hlen;
    apply (keeps_db_promise_all _ _ (keeps_db_upload _)) in H end.
  all: match goal with H : track_with_project _ _ = Some _ |- _ =>
    pose proof H as Hjoin; unfold track_with_project in H;
    apply bind_Some in H as (t9 & Ht9 & H);
    apply bind_Some in H as (p9 & Hp9 & H); simplify_eq end.
  all: match goal with
  | Ht : track_by_id _ ?id = Some ?t, Hs : Track.steps ?t !! Z.to_nat ?z = Some ?s
    |- context [<[_ := ?s']> (Track.steps ?t)] =>
      exists id, t, (Z.to_nat z), s, s'
  end.
  all: eexists; cbn [Step.status Step.name Step.is_final Step.metadata
                     Step.deliverable_link].
  all: split_and!; try done.
  all: try (by eexists _, _, _, _).
  all: try (f_equal; f_equal; lia).
  all: try (intros md Hmd; rewrite Hmd; done).
  all: cbn [Metadata.images default db project_tracks review_comments
            update_tracks].
  all: try (intros _; unfold id in *; rewrite length_app, Hlen;
            match goal with H : (_ <? _) = false |- _ =>
              apply Nat.ltb_ge in H end;
            match goal with |- context [filter ?P ?l] =>
              pose proof (length_filter P l) end;
            unfold MAX_IMAGES_PER_COMMENT in *; cbn [length] in *; lia).
  all: try (by match goal with E : db _ = db _ |- _ => rewrite E end).
  all: try match goal with E : db _ = db _ |- _ => rewrite E end.
  all: apply Forall2_fmap_r, Forall_Forall2_diag, Forall_forall.
  all: intros u Hu; unfold compose;
    match goal with |- context [decide (Track.id u = ?id)] =>
      destruct (decide (Track.id u = id)) as [Hid|Hid] end; cbn;
    [|split_and!; done].
  all: split_and!; try done; intros _.
  all: by rewrite (single_filter_unique _ _ _ u Ht9 Hu).
Qed.

(** ** Creating a project *)

Lemma project_steps_pending env form comments : ∀ index w steps w',
  Dashboard.project_steps env form index comments w = (Ok steps, w') →
  length steps = length comments
  ∧ Forall (λ s, Step.status s = Pending ∧ final s = false) steps.
Proof.
  induction comments as [|[text images] rest IH]; intros index w steps w';
    simpl.
  { intros [= <- <-]. by split. }
  unfold bind.
  destruct (promise_all _ _ w) as [[urls|e] w1]; [|done].
  destruct (Dashboard.detectAndExtractLinks _).
  destruct (Dashboard.project_steps _ _ _ _ w1) as [[steps'|e] w2] eqn:E;
    [|done].
  intros [= <- <-]. apply IH in E as [Hlen Hall]. split.
  - simpl. by f_equal.
  - by constructor.
Qed.

(** X19. A project that was created belongs to the profile of the signed-in
    editor and is active; it keeps an access password only when it is
    protected.  Its first track is round 1, pending, with one pending
    step per feedback item followed by the pending final step.  One
    project and one track are added and nothing else is written. *)
Theorem created_project_has_first_round (env : Env) (form : ProjectForm.t)
    (w w' : World) (resp : Response) :
  run env (CreateProject form) w = (Ok resp, w') →
  ∃ uid profile comments p t init fin,
    session env = Some uid
    ∧ profile_by_user (db w) uid = Some profile
    ∧ ProjectForm.comments form = Some (Some comments)
    ∧ projects (db w') = projects (db w) ++ [p]
    ∧ project_tracks (db w') = project_tracks (db w) ++ [t]
    ∧ review_comments (db w') = review_comments (db w)
    ∧ Project.editor_id p = EditorProfile.id profile
    ∧ Project.status p = "active"
    ∧ Some (Project.title p) = ProjectForm.title form
    ∧ (Project.password_protected p = false →
       Project.access_password p = None)
    ∧ Track.project_id t = Project.id p
    ∧ Track.round_number t = 1
    ∧ Track.client_decision t = PENDING
    ∧ Track.steps t = init ++ [fin]
    ∧ length init = length comments
    ∧ Forall (λ s, Step.status s = Pending ∧ final s = false) init
    ∧ Step.status fin = Pending ∧ final fin = true
    ∧ Step.deliverable_link fin = None.
Proof.
  unfold_actions; unfold write.
  repeat first [ progress cbv beta iota zeta | case_match ];
    intros; simplify_eq.
  all: match goal with
       | H : Dashboard.project_steps _ _ _ _ _ = _ |- _ =>
         pose proof (project_steps_pending _ _ _ _ _ _ _ H) as [Hlen Hall];
         apply only_uploads_project_steps in H as [Hdb _] end.
  all: match goal with
       | H : or_else (ProjectForm.title ?f) None = Some ?x |- _ =>
         assert (ProjectForm.title f = Some x)
           by (unfold or_else in H; by case_match) end.
  all: eexists _, _, _, _, _, _, _; cbn; rewrite Hdb; cbn.
  all: split_and!; try done; try eassumption.
  all: by intros ->.
Qed.

Lemma promise_all_error {A B} (job : A → M B) items : ∀ w e w',
  promise_all job items w = (Err e, w') →
  ∃ x w0 w1, job x w0 = (Err e, w1).
Proof.
  induction items as [|x rest IH]; intros w e w'; simpl; [done|].
  destruct (job x w) as [[b|e1] w1] eqn:E1;
    destruct (promise_all job rest w1) as [[bs|e2] w2] eqn:E2;
    intros; simplify_eq; eauto.
Qed.

Lemma dashboard_upload_error env f w e w' :
  Dashboard.uploadImageToImgBB env f w = (Err e, w') →
  e ≠ "Failed to create the initial workflow track.".
Proof.
  unfold Dashboard.uploadImageToImgBB, throw, post_image.
  repeat case_match; intros; simplify_eq; cbn; discriminate.
Qed.

Lemma project_steps_error env form comments : ∀ index w e w',
  Dashboard.project_steps env form index comments w = (Err e, w') →
  e ≠ "Failed to create the initial workflow track.".
Proof.
  induction comments as [|[text images] rest IH]; intros index w e w';
    simpl; [done|].
  unfold bind.
  destruct (promise_all _ _ w) as [[urls|e1] w1] eqn:E1.
  - destruct (Dashboard.detectAndExtractLinks _).
    destruct (Dashboard.project_steps _ _ _ _ w1) as [[steps'|e2] w2] eqn:E;
      [done|].
    intros [= <- <-]. by eapply IH.
  - intros [= <- <-]. apply promise_all_error in E1 as (i & w0 & w2 & E1).
    destruct (ProjectForm.image form index i) as [file|]; [|done].
    unfold bind in E1.
    destruct (Dashboard.uploadImageToImgBB env file w0) as [[u|e] w3] eqn:Eu;
      [done|].
    simplify_eq. by eapply dashboard_upload_error.
Qed.

(** X20. When the first track cannot be stored, [createProject] asks the
    store to delete the project that it has inserted, and fails.  No track
    is added, and no comment and no profile is touched.  When the store
    carries out the delete request, it is as before, the id of the new
    project being fresh.  When it does not, which [createProject] does not
    look at, the project that was inserted stays. *)
Theorem failed_track_insert_rolls_back (env : Env)
    (form : ProjectForm.t) (w w' : World) :
  run env (CreateProject form) w
  = (Err "Failed to create the initial workflow track.", w') →
  new_id env "projects" ∉ Project.id <$> projects (db w) →
  project_tracks (db w') = project_tracks (db w)
  ∧ review_comments (db w') = review_comments (db w)
  ∧ editor_profiles (db w') = editor_profiles (db w)
  ∧ (write_ok env Dashboard.rollback = true → db w' = db w)
  ∧ (write_ok env Dashboard.rollback = false →
     write_ok env "projects" = true →
     ∃ p, Project.id p = new_id env "projects"
          ∧ projects (db w') = projects (db w) ++ [p]).
Proof.
  intros Hrun Hfresh. revert Hrun.
  unfold_actions; unfold write.
  repeat first [ progress cbv beta iota zeta | case_match ];
    intros; simplify_eq.
  all: try match goal with
       | H : Dashboard.project_steps _ _ _ _ _ = (Ok _, _) |- _ =>
         apply only_uploads_project_steps in H as [Hdb _] end.
  all: try match goal with
       | H : Dashboard.project_steps _ _ _ _ _ = (Err _, _) |- _ =>
         by apply project_steps_error in H end.
  all: try done.
  all: cbn; try rewrite Hdb; cbn.
  all: split_and!; try done; try congruence.
  all: try (intros _ _; eexists; split; [|reflexivity]; reflexivity).
  all: intros _.
  all: rewrite filter_app, filter_all, filter_cons_False, filter_nil,
         app_nil_r;
       [by destruct (db w)|cbn; by intros ?|];
       apply Forall_forall; intros q Hq Hq'; apply Hfresh;
       rewrite <- Hq'; by apply list_elem_of_fmap_2.
Qed.

(** ** The first round *)

Lemma round_steps_shape env name status comments : ∀ index w steps w',
  Dashboard.round_steps env name status index comments w = (Ok steps, w') →
  length steps = length comments
  ∧ Forall (λ s, Step.status s = status ∧ final s = false
                 ∧ Step.deliverable_link s = None) steps.
Proof.
  induction comments as [|c rest IH]; intros index w steps w'; simpl.
  { intros [= <- <-]. by split. }
  unfold bind.
  destruct (Dashboard.rethrow _ _ w) as [[urls|e] w1]; [|done].
  destruct (Dashboard.detectAndExtractLinks _).
  destruct (Dashboard.round_steps _ _ _ _ _ w1) as [[steps'|e] w2] eqn:E;
    [|done].
  intros [= <- <-]. apply IH in E as [Hlen Hall]. split.
  - simpl. by f_equal.
  - by constructor.
Qed.

(** X21. Delivering and creating the first round write, on the track of round 1
    with the given id, one step per feedback item followed by the final
    step: all completed, the final step with the deliverable link, and
    the track in review, for a delivery; all pending, without link, and
    the track in progress, for a creation.  The decision of the track and
    every other track stay as they were. *)
Theorem first_round_is_written (env : Env) (op : Op) (trackId : string)
    (comments : list RoundComment.t) (status : StepStatus)
    (link : option string) (track_status : string) (w w' : World)
    (resp : Response) :
  first_round op = Some (trackId, comments, status, link, track_status) →
  run env op w = (Ok resp, w') →
  ∃ t init fin,
    Dashboard.initial_track (db w) trackId = Some t
    ∧ Track.round_number t = 1
    ∧ length init = length comments
    ∧ Forall (λ s, Step.status s = status ∧ final s = false
                   ∧ Step.deliverable_link s = None) init
    ∧ Step.status fin = status
    ∧ final fin = true
    ∧ Step.deliverable_link fin = link
    ∧ Forall2
        (λ u u',
           Track.id u' = Track.id u
           ∧ Track.project_id u' = Track.project_id u
           ∧ Track.round_number u' = Track.round_number u
           ∧ Track.client_decision u' = Track.client_decision u
           ∧ (Track.id u ≠ trackId → u' = u)
           ∧ (Track.id u = trackId →
              Track.steps u' = init ++ [fin]
              ∧ Track.status u' = track_status))
        (project_tracks (db w)) (project_tracks (db w'))
    ∧ review_comments (db w') = review_comments (db w).
Proof.
  intros Hop Hrun. destruct op; simplify_eq/=; revert Hrun.
  all: unfold_actions; unfold write.
  all: repeat first [ progress cbv beta iota zeta | case_match ];
    intros; simplify_eq.
  all: match goal with
       | H : Dashboard.round_steps _ _ _ _ _ _ = _ |- _ =>
         pose proof (round_steps_shape _ _ _ _ _ _ _ _ H) as [Hlen Hall];
         apply only_uploads_round_steps in H as [Hdb _] end.
  all: match goal with H : Dashboard.initial_track _ _ = Some ?t |- _ =>
         pose proof (single_filter_holds _ _ _ H) as [_ Hround] end.
  all: match goal with
       | H : Dashboard.initial_track _ _ = Some ?t
         |- context [?init ++ [?fin]] => exists t, init, fin end.
  all: split_and!; try done.
  all: cbn [db project_tracks review_comments update_tracks];
    rewrite ?Hdb; try done.
  all: apply Forall2_fmap_r, Forall_Forall2_diag, Forall_forall.
  all: intros u Hu; unfold compose;
    match goal with |- context [decide (Track.id u = ?id)] =>
      destruct (decide (Track.id u = id)) as [Hid|Hid] end; cbn;
    split_and!; done.
Qed.

(** ** The next round *)

(** X12. The steps that a revision request builds: one step for each comment
    of the track and no other, pending, with the id, text, timestamp,
    images, links and creation time of its comment and its position as
    index, followed by the pending final step. *)
Theorem next_round_has_one_step_per_comment (d : Db) (trackId : string) :
  ∃ cs init fin,
    Review.nextRoundSteps (Review.comments_for_next_round d trackId)
    = init ++ [fin]
    ∧ cs ≡ₚ filter (λ c, Comment.track_id c = trackId) (review_comments d)
    ∧ Forall2 carries cs init
    ∧ (∀ i s, init !! i = Some s →
              step_field Metadata.step_index s = Some i)
    ∧ Step.status fin = Pending
    ∧ final fin = true
    ∧ Step.deliverable_link fin = None.
Proof.
  exists (Review.comments_for_next_round d trackId).
  eexists _, _. split; [reflexivity|]. split_and!; try done.
  - apply comments_for_next_round_Permutation.
  - apply Forall2_same_length_lookup. split; [by rewrite length_imap|].
    intros i c s Hc. rewrite list_lookup_imap, Hc. intros [= <-].
    repeat split.
  - intros i s. rewrite list_lookup_imap.
    destruct (Review.comments_for_next_round d trackId !! i); [|done].
    by intros [= <-].
Qed.

(** ** What reads as a new round *)

Lemma forallb_pending steps :
  Forall (λ s, Step.status s = Pending) steps →
  forallb (λ step, bool_decide (Step.status step = Pending)) steps = true.
Proof.
  induction 1 as [|s steps Hs _ IH]; [done|]. simpl.
  by rewrite IH, bool_decide_true.
Qed.

(** X24. The track of a project that was just created reads as a new round in
    the list of projects, and so does every track with the steps that a
    revision request builds. *)
Theorem fresh_round_reads_as_new (env : Env) (form : ProjectForm.t)
    (w w' : World) (resp : Response) :
  run env (CreateProject form) w = (Ok resp, w') →
  (∃ t, last (project_tracks (db w')) = Some t
        ∧ AllProjectsPageClient.isNewRound (Some t) = true)
  ∧ ∀ cs id project_id n status decision media updated_at,
      AllProjectsPageClient.isNewRound
        (Some (Track.mk id project_id n status (Review.nextRoundSteps cs)
                 decision media updated_at)) = true.
Proof.
  intros Hrun. split.
  - revert Hrun. unfold_actions; unfold write.
    repeat first [ progress cbv beta iota zeta | case_match ];
      intros; simplify_eq.
    all: match goal with
         | H : Dashboard.project_steps _ _ _ _ _ = _ |- _ =>
           pose proof (project_steps_pending _ _ _ _ _ _ _ H) as [_ Hall]
         end.
    all: eexists; cbn; rewrite last_snoc; split; [done|].
    all: unfold AllProjectsPageClient.isNewRound; cbn [Track.steps].
    all: match goal with
         | |- context [match ?l with [] => _ | _ :: _ => _ end] =>
           destruct l eqn:E; [by apply app_nil in E as [_ ?]|rewrite <- E]
         end.
    all: apply forallb_pending, Forall_app; split;
      [eapply Forall_impl; [exact Hall|by intros ? [? _]]|by constructor].
  - intros. unfold AllProjectsPageClient.isNewRound, Review.nextRoundSteps.
    cbn [Track.steps].
    match goal with
    | |- context [match ?l with [] => _ | _ :: _ => _ end] =>
      destruct l eqn:E; [by apply app_nil in E as [_ ?]|rewrite <- E]
    end.
    apply forallb_pending, Forall_app.
    split; [|by constructor].
    apply Forall_forall. intros s [i [c [-> _]]]%elem_of_lookup_imap. done.
Qed.

(** ** The bulk update *)

Lemma same_frame_refl s : same_frame s s.
Proof. by repeat split. Qed.

Lemma same_frame_trans s1 s2 s3 :
  same_frame s1 s2 → same_frame s2 s3 → same_frame s1 s3.
Proof.
  intros (?&?&?&?&Hm&?&Ht) (?&?&?&?&Hm'&?&Ht').
  repeat split; try congruence; try tauto.
  intros Hsome. rewrite Ht'; [by apply Ht|]. by rewrite Ht.
Qed.

Lemma frames_refl steps : Forall2 same_frame steps steps.
Proof. apply Forall_Forall2_diag, Forall_forall. intros. apply same_frame_refl. Qed.

Lemma frames_trans l1 l2 l3 :
  Forall2 same_frame l1 l2 → Forall2 same_frame l2 l3 →
  Forall2 same_frame l1 l3.
Proof.
  intros H. revert l3. induction H as [|x y l k Hxy _ IH]; intros l3 H3.
  - by inversion H3.
  - inversion H3; subst. constructor; [by eapply same_frame_trans|by apply IH].
Qed.

Lemma frames_insert steps i s s' :
  steps !! i = Some s → same_frame s s' →
  Forall2 same_frame steps (<[i := s']> steps).
Proof.
  intros Hs Hf. rewrite <- (list_insert_id steps i s) at 1 by done.
  apply Forall2_insert; [apply frames_refl|done].
Qed.

Lemma process_step_frames timestamps steps i :
  Forall2 same_frame steps (Dashboard.process_step timestamps steps i).
Proof.
  unfold Dashboard.process_step.
  destruct (steps !! i) as [s|] eqn:Es; [|apply frames_refl].
  destruct (Step.metadata s) as [md|] eqn:Em; [|apply frames_refl].
  destruct (Dashboard.detectAndExtractLinks _).
  eapply frames_insert; [done|].
  unfold same_frame, step_field, step_timestamp. rewrite Em. cbn.
  split_and!; try done.
  destruct (Metadata.timestamp md); [done|by intros []].
Qed.

Lemma process_steps_frames timestamps indices : ∀ steps,
  Forall2 same_frame steps
          (foldl (Dashboard.process_step timestamps) steps indices).
Proof.
  induction indices as [|i rest IH]; intros steps; [apply frames_refl|].
  simpl. eapply frames_trans; [apply process_step_frames|apply IH].
Qed.

Lemma attach_images_frames env form indices : ∀ steps w stored w',
  Dashboard.attach_images env form indices steps w = (Ok stored, w') →
  Forall2 same_frame steps stored.
Proof.
  induction indices as [|i rest IH]; intros steps w stored w'; simpl.
  { intros [= <- <-]. apply frames_refl. }
  destruct (steps !! i) as [s|] eqn:Es; [|apply IH].
  destruct (Step.metadata s) as [md|] eqn:Em; [|apply IH].
  unfold bind. destruct (for_each _ _ w) as [[urls|e] w1]; [|done].
  intros H%IH. destruct urls as [|u urls]; [done|].
  eapply frames_trans; [|exact H].
  eapply frames_insert; [done|].
  unfold same_frame, step_field, step_timestamp. rewrite Em. cbn.
  by split_and!.
Qed.

(** X18. A bulk update that succeeds stores one step for each submitted step,
    in order, with the submitted name, status, flag and deliverable link,
    metadata where metadata was submitted, the submitted comment id, and
    the submitted timestamp where one was submitted.  It is done by the
    editor of the project, on a pending track; the other tracks and the
    decision stay as they were. *)
Theorem bulk_update_keeps_frames (env : Env) (form : BulkForm.t)
    (w w' : World) (resp : Response) :
  run env (UpdateAllStepContent form) w = (Ok resp, w') →
  ∃ trackId payload t stored,
    or_else (BulkForm.trackId form) None = Some trackId
    ∧ BulkForm.payload form = Some (Some payload)
    ∧ owns_track env (db w) trackId
    ∧ track_by_id (db w) trackId = Some t
    ∧ Track.client_decision t = PENDING
    ∧ Forall2 same_frame (BulkForm.stepsStructure payload) stored
    ∧ Forall2
        (λ u u',
           Track.id u' = Track.id u
           ∧ Track.client_decision u' = Track.client_decision u
           ∧ Track.round_number u' = Track.round_number u
           ∧ (Track.id u ≠ trackId → u' = u)
           ∧ (Track.id u = trackId → Track.steps u' = stored))
        (project_tracks (db w)) (project_tracks (db w'))
    ∧ review_comments (db w') = review_comments (db w).
Proof.
  unfold_actions; unfold write.
  repeat first [ progress cbv beta iota zeta | case_match ];
    intros; simplify_eq.
  match goal with H : negb (is_pending _) = false |- _ =>
    apply negb_false_iff, String.eqb_eq in H end.
  match goal with H : negb (bool_decide _) = false |- _ =>
    apply negb_false_iff, bool_decide_eq_true in H;
    apply fmap_Some in H as (profile & Hprofile & Hprofile_id) end.
  match goal with H : Dashboard.attach_images _ _ _ _ _ = _ |- _ =>
    pose proof (attach_images_frames _ _ _ _ _ _ _ H) as Hframes;
    apply keeps_db_attach_images in H end.
  match goal with H : track_with_project _ _ = Some _ |- _ =>
    pose proof H as Hjoin; unfold track_with_project in H;
    apply bind_Some in H as (t9 & Ht9 & H);
    apply bind_Some in H as (p9 & Hp9 & H); simplify_eq end.
  eexists _, _, _, a. split_and!; try done.
  - by eexists _, _, _, _.
  - eapply frames_trans; [apply process_steps_frames|exact Hframes].
  - cbn [db project_tracks update_tracks].
    match goal with E : db _ = db _ |- _ => rewrite E end.
    apply Forall2_fmap_r, Forall_Forall2_diag, Forall_forall.
    intros u Hu; unfold compose;
      match goal with |- context [decide (Track.id u = ?id)] =>
        destruct (decide (Track.id u = id)) as [Hid|Hid] end; cbn;
      split_and!; done.
  - cbn. by match goal with E : db _ = db _ |- _ => rewrite E end.
Qed.

End ActionFacts.

Module PageFacts.
Import WorkflowFacts ReviewRoute.

(** ** The password form *)

Lemma joined_project d trackId t p :
  track_with_project d trackId = Some (t, p) →
  track_by_id d trackId = Some t
  ∧ project_by_id d (Track.project_id t) = Some p
  ∧ Project.id p = Track.project_id t.
Proof.
  unfold track_with_project. intros H.
  apply bind_Some in H as (t9 & Ht9 & H).
  apply bind_Some in H as (p9 & Hp9 & H). simplify_eq.
  split_and!; try done.
  by apply (single_filter_holds _ _ _ Hp9).
Qed.

Lemma page_valid_id trackId :
  trackId ≠ "" → trackId ≠ "undefined" →
  String.eqb trackId "" || String.eqb trackId "undefined" = false.
Proof.
  intros H1 H2. apply orb_false_iff. by split; apply String.eqb_neq.
Qed.

(** X25. The page of a track of a protected project shows the password form
    exactly when the visitor has no cookie for that project. *)
Theorem protected_page_asks_for_password (env : Env) (d : Db)
    (cookies : gmap string string) (trackId : string) (t : Track.t)
    (p : Project.t) :
  track_with_project d trackId = Some (t, p) →
  Project.password_protected p = true →
  trackId ≠ "" → trackId ≠ "undefined" →
  cookies !! cookie_name (Project.id p) = None
  ↔ Page env d cookies trackId = PasswordProtectionPage trackId (Project.id p).
Proof.
  intros Hjoin Hprot H1 H2.
  pose proof (joined_project _ _ _ _ Hjoin) as (Ht & Hp & Hid).
  unfold Page. rewrite (page_valid_id _ H1 H2), Ht, Hp, Hprot, Hjoin, Hid.
  cbn [andb]. case_bool_decide as Hc.
  - done.
  - split; [done|]. by repeat case_match.
Qed.

(** X26. On a protected project the verification succeeds exactly for the
    stored password; it then opens the page of every track of the
    project; when it fails the cookies are as before. *)
Theorem right_password_opens_the_page (env : Env) (d : Db)
    (cookies : gmap string string) (trackId password : string)
    (t : Track.t) (p : Project.t) :
  track_with_project d trackId = Some (t, p) →
  Project.password_protected p = true →
  trackId ≠ "" → trackId ≠ "undefined" → Project.id p ≠ "" →
  (success (verifyProjectPassword d (Project.id p) password cookies).1 = true
   ↔ password ≠ "" ∧ Project.access_password p = Some password)
  ∧ (success (verifyProjectPassword d (Project.id p) password cookies).1
     = true →
     Page env d (verifyProjectPassword d (Project.id p) password cookies).2
          trackId
     ≠ PasswordProtectionPage trackId (Project.id p))
  ∧ (success (verifyProjectPassword d (Project.id p) password cookies).1
     = false →
     (verifyProjectPassword d (Project.id p) password cookies).2 = cookies).
Proof.
  intros Hjoin Hprot H1 H2 H3.
  pose proof (joined_project _ _ _ _ Hjoin) as (Ht & Hp & Hid).
  unfold verifyProjectPassword. rewrite Hid, Hp, Hprot.
  rewrite Hid in H3. apply String.eqb_neq in H3. rewrite H3. cbn [orb negb].
  destruct (String.eqb_spec password "") as [->|Hpw]; cbn.
  { split; [split; [done|by intros [? _]]|split; done]. }
  case_bool_decide as Hok; cbn.
  - split; [done|]. split; [|done].
    intros _. unfold Page.
    rewrite (page_valid_id _ H1 H2), Ht, Hp, Hprot, Hjoin.
    rewrite lookup_insert_eq. cbn. by repeat case_match.
  - split; [split; [done|by intros [_ ?]]|split; done].
Qed.

(** ** The review *)




End PageFacts.

Module LibsFacts.
Import Libs.

Ltac split_comparisons :=
  repeat match goal with
  | |- context [(?a <=? ?b)%N] => destruct (N.leb_spec a b); try lia
  | |- context [(?a =? ?b)%N] => destruct (N.eqb_spec a b); try lia
  end.

Lemma toUpperCase_word c :
  Dashboard.is_word (toUpperCase c) = Dashboard.is_word c.
Proof.
  unfold toUpperCase, Dashboard.is_word, LinkEncoder.is_digit.
  destruct (N.leb_spec 97 c), (N.leb_spec c 122); cbn [andb]; try done.
  all: split_comparisons; done.
Qed.

Lemma toUpperCase_twice c : toUpperCase (toUpperCase c) = toUpperCase c.
Proof.
  unfold toUpperCase.
  destruct (N.leb_spec 97 c), (N.leb_spec c 122); cbn [andb];
    split_comparisons; done.
Qed.

Lemma toUpperCase_not_underscore c : c ≠ 95%N → toUpperCase c ≠ 95%N.
Proof.
  unfold toUpperCase. intros Hc.
  destruct (N.leb_spec 97 c), (N.leb_spec c 122); cbn [andb]; try done.
  lia.
Qed.

Lemma capitalise_length s : ∀ b, length (capitalise b s) = length s.
Proof. induction s as [|c s IH]; intros b; simpl; [done|]. by rewrite IH. Qed.

Lemma capitalise_twice s : ∀ b,
  capitalise b (capitalise b s) = capitalise b s.
Proof.
  induction s as [|c s IH]; intros b; simpl; [done|].
  destruct (b && Dashboard.is_word c) eqn:E.
  - rewrite toUpperCase_word. rewrite E, toUpperCase_twice. by rewrite IH.
  - rewrite E. by rewrite IH.
Qed.

Lemma capitalise_not_underscore s : ∀ b,
  95%N ∉ s → 95%N ∉ capitalise b s.
Proof.
  induction s as [|c s IH]; intros b Hs; simpl; [done|].
  apply not_elem_of_cons in Hs as [Hc Hs].
  apply not_elem_of_cons. split; [|by apply IH].
  case_match; [|done]. intros Heq.
  apply (toUpperCase_not_underscore c); congruence.
Qed.

Lemma spaces_for_underscores s :
  95%N ∉ map (λ c, if (c =? 95)%N then 32%N else c) s.
Proof.
  induction s as [|c s IH]; simpl; [by apply not_elem_of_nil|].
  apply not_elem_of_cons. split; [|done].
  destruct (N.eqb_spec c 95); [done|congruence].
Qed.

Lemma map_without_underscores s :
  95%N ∉ s → map (λ c, if (c =? 95)%N then 32%N else c) s = s.
Proof.
  induction s as [|c s IH]; simpl; [done|].
  intros H. apply not_elem_of_cons in H as [Hc Hs].
  destruct (N.eqb_spec c 95); [congruence|]. by rewrite IH.
Qed.

(** X28. The label of a status holds no underscore, is as long as the status
    when that is not empty, and is its own label. *)
Theorem formatStatus_label (status : list N) :
  (95%N ∉ formatStatus status)
  ∧ (status ≠ [] → length (formatStatus status) = length status)
  ∧ formatStatus (formatStatus status) = formatStatus status.
Proof.
  destruct status as [|c s].
  { split_and!; [apply (bool_decide_unpack _); by vm_compute|done|].
    by vm_compute. }
  unfold formatStatus at 1 2 4.
  set (m := map _ (c :: s)).
  assert (Hm : 95%N ∉ capitalise true m)
    by apply capitalise_not_underscore, spaces_for_underscores.
  split_and!.
  - done.
  - intros _. rewrite capitalise_length. unfold m. by rewrite length_map.
  - unfold formatStatus.
    destruct (capitalise true m) as [|c' s'] eqn:E.
    { apply (f_equal length) in E. rewrite capitalise_length in E.
      unfold m in E. by rewrite length_map in E. }
    rewrite <- E in Hm |- *. rewrite map_without_underscores by done.
    apply capitalise_twice.
Qed.

End LibsFacts.

Module SampleFacts.
Import LinkEncoder WorkflowFacts EncoderEdgeFacts ActionFacts PageFacts.

(** Refutes a closed proposition by evaluation. *)
Ltac fails := apply (bool_decide_eq_false_1 _); vm_compute; reflexivity.

(** Every offset into a text of at most [n] characters. *)
Ltac offsets k n tac :=
  lazymatch n with
  | O => destruct k; tac
  | S ?m => destruct k as [|k]; [tac|offsets k m tac]
  end.

Lemma encode_without_scheme_witness :
  let t := lit "cut at 0:12" in
  detectAndExtractLinks t = (t, [])
  ∧ Dashboard.detectAndExtractLinks t = (t, []).
Proof.
  apply encode_without_scheme; intros k;
    offsets k 11 ltac:(vm_compute; reflexivity).
Defined.

Lemma upload_sends_the_file_once_witness :
  let w := Sample.world "pending" [] in
  let f := Sample.png "a.png" in
  let rw := Review.uploadImageToImgBB (Sample.env None) f w in
  db rw.2 = db w
  ∧ match rw.1 with
    | Ok u =>
        acceptable f ∧ imgbb_key (Sample.env None) = true
        ∧ imgbb (Sample.env None) f = Ok u
        ∧ requests rw.2 = requests w ++ [f]
    | Err _ =>
        requests rw.2 = requests w
        ∨ requests rw.2 = requests w ++ [f]
          ∧ ∃ e, imgbb (Sample.env None) f = Err e
    end.
Proof.
  cbv zeta. apply upload_sends_the_file_once. left.
  apply surjective_pairing.
Defined.

Lemma unacceptable_file_sends_no_request_witness :
  let w := Sample.world "pending" [] in
  (∃ msg, Review.uploadImageToImgBB (Sample.env None) Cases.gif w
          = (Err msg, w))
  ∧ (∃ msg, Dashboard.uploadImageToImgBB (Sample.env None) Cases.gif w
            = (Err msg, w)).
Proof.
  apply unacceptable_file_sends_no_request. unfold acceptable. fails.
Defined.

Lemma too_many_images_send_no_request_witness :
  let w := Sample.world "pending" [] in
  ∃ msg, run (Sample.env None) (AddReviewComment Cases.add_five) w
         = (Err msg, w).
Proof.
  apply too_many_images_send_no_request. vm_compute. lia.
Defined.

(** Runs a request on a sample world as far as its result. *)
Ltac run_sample E :=
  cbv zeta;
  match goal with |- context [run ?env ?op ?w] =>
    destruct (run env op w) as [[resp|msg] w'] eqn:E;
    [|vm_compute in E; discriminate]
  end.

Lemma added_comment_is_stored_witness :
  let env := Sample.env (Some "u1") in
  let w := Sample.world "pending" [] in
  ∃ resp w' row,
    run env (AddReviewComment Cases.add_with_image) w = (Ok resp, w')
    ∧ db w' = mkDb (project_tracks (db w)) (review_comments (db w) ++ [row])
                   (projects (db w)) (editor_profiles (db w))
    ∧ CommentData.text (Comment.comment row) = trim (lit " too dark ")
    ∧ Comment.commenter_id row = Some "u1"
    ∧ Comment.commenter_name row = Some "Ann"
    ∧ requests w' = requests w ++ [Sample.png "a.png"].
Proof.
  run_sample E.
  destruct (added_comment_is_stored _ _ _ _ _ E)
    as (trackId & track & text & row & _ & _ & _ & Htext & _ & _ & Hreq
        & Hdb & _ & Hauthor & Hname & _ & Hrow & _).
  injection Htext as <-.
  exists resp, w', row.
  split_and!;
    [reflexivity|exact Hdb|exact Hrow|exact Hauthor|exact Hname|exact Hreq].
Defined.

Lemma deleted_comment_is_gone_witness :
  let env := Sample.env (Some "u1") in
  ∃ resp w' c,
    run env (DeleteReviewComment "k1") Cases.commented = (Ok resp, w')
    ∧ review_comments (db Cases.commented) ≡ₚ c :: review_comments (db w')
    ∧ Forall (λ c', Comment.id c' ≠ "k1") (review_comments (db w')).
Proof.
  run_sample E.
  destruct (deleted_comment_is_gone _ _ _ _ _ E)
    as (c & t & _ & _ & _ & Hperm & _ & Hgone & _).
  exists resp, w', c. split_and!; [reflexivity|exact Hperm|exact Hgone].
Defined.


Lemma edited_comment_reads_back_witness :
  let env := Sample.env (Some "u1") in
  ∃ resp w' v,
    run env (UpdateReviewComment Sample.edit_form) Cases.commented
    = (Ok resp, w')
    ∧ resp = WithComment "Comment updated successfully" v
    ∧ renderPlainTextWithUrls
        (Some (CommentData.text (CommentView.comment v)))
        (CommentData.links (CommentView.comment v))
      = trim (lit "see https://x.io/ref").
Proof.
  run_sample E.
  destruct (edited_comment_reads_back _ _ _ _ _
              (lit "see https://x.io/ref") E) as [(v & Hv & Hdec) _];
    [reflexivity|intros k; offsets k 20 ltac:(vm_compute; reflexivity)|].
  exists resp, w', v. split_and!; [reflexivity|exact Hv|exact Hdec].
Defined.

Lemma editor_actions_require_owner_witness :
  owns_track (Sample.env (Some "u1"))
    (db (Sample.world "pending" [])) "t1".
Proof.
  destruct (run (Sample.env (Some "u1"))
              (UpdateTrackStructure "t1" [Sample.descriptor 5])
              (Sample.world "pending" [])) as [[resp|msg] w'] eqn:E;
    [|vm_compute in E; discriminate].
  exact (editor_actions_require_owner _
           (UpdateTrackStructure "t1" [Sample.descriptor 5]) "t1" _ _ _
           eq_refl E).
Defined.

Lemma step_status_changes_one_step_witness :
  let env := Sample.env None in
  let w := Sample.world "pending" [] in
  ∃ resp w' t i s s',
    run env (UpdateProjectTrackStepStatus "t1" 0 Pending None None) w
    = (Ok resp, w')
    ∧ track_by_id (db w) "t1" = Some t
    ∧ Track.steps t !! i = Some s
    ∧ Step.status s' = Pending
    ∧ Step.metadata s' = Step.metadata s
    ∧ requests w' = requests w.
Proof.
  run_sample E.
  destruct (step_status_changes_one_step _ _ _ _ _ _ _ _ _ E)
    as (t & i & s & s' & Ht & _ & Hs & Hst & _ & _ & Hmd & _ & _ & _ & Hreq).
  exists resp, w', t, i, s, s'.
  split_and!; [reflexivity|exact Ht|exact Hs|exact Hst|exact Hmd|exact Hreq].
Defined.

Lemma final_step_status_written_witness :
  let env := Sample.env None in
  let w := Sample.world "pending" [] in
  run env (UpdateProjectTrackStepStatus "t1" 1 Completed
             (Some "https://v.io/1") (Some Video)) w
  = (Ok (Message "Step status updated successfully"),
     status_written env "t1" (Sample.track "pending") 1
       (with_status_and_link Sample.finish Completed (Some "https://v.io/1"))
       (Some Video) w)
  ∧ run env (UpdateProjectTrackStepStatus "t1" 1 Pending None None) w
    = (Ok (Message "Step status updated successfully"),
       status_written env "t1" (Sample.track "pending") 1
         (with_status_and_link Sample.finish Pending None) None w).
Proof.
  cbv zeta.
  destruct (final_step_status_written (Sample.env None) "t1" 1
              (Sample.world "pending" []) (Sample.track "pending")
              Sample.finish eq_refl eq_refl eq_refl eq_refl) as [H1 H2].
  split; [apply H1; discriminate|apply H2].
Defined.

Lemma step_edits_keep_finals_witness :
  let env := Sample.env None in
  let w := Sample.world "pending" [] in
  let op := UpdateProjectTrackStepStatus "t1" 0 Pending None None in
  Forall2 (λ t t', map final (Track.steps t') = map final (Track.steps t))
          (project_tracks (db w)) (project_tracks (db (run env op w).2)).
Proof.
  cbv zeta.
  eapply (step_edits_keep_finals _
            (UpdateProjectTrackStepStatus "t1" 0 Pending None None));
    [exact I|apply surjective_pairing].
Defined.

Lemma step_content_edit_keeps_the_step_witness :
  let env := Sample.env (Some "u1") in
  let w := Sample.world "pending" [] in
  ∃ resp w' t i s s' md',
    run env (UpdateStepContent Cases.content) w = (Ok resp, w')
    ∧ Track.steps t !! i = Some s
    ∧ final s = false
    ∧ Step.status s' = Step.status s
    ∧ Step.metadata s' = Some md'
    ∧ length (default [] (Metadata.images md')) ≤ MAX_IMAGES_PER_COMMENT.
Proof.
  run_sample E.
  destruct (step_content_edit_keeps_the_step _ _ _ _ _ E)
    as (trackId & t & i & s & s' & md' & _ & _ & _ & _ & _ & Hs & Hf & _
        & Hst & _ & _ & Hmd & _ & Himg & _).
  exists resp, w', t, i, s, s', md'.
  split_and!; [reflexivity|exact Hs|exact Hf|exact Hst|exact Hmd|].
  apply Himg. discriminate.
Defined.

Lemma bulk_update_keeps_frames_witness :
  let env := Sample.env (Some "u1") in
  let w := Sample.world "pending" [] in
  ∃ resp w' stored,
    run env (UpdateAllStepContent Sample.bulk) w = (Ok resp, w')
    ∧ Forall2 same_frame [Sample.feedback "c1" 2 Completed; Sample.finish]
              stored
    ∧ review_comments (db w') = review_comments (db w).
Proof.
  run_sample E.
  destruct (bulk_update_keeps_frames _ _ _ _ _ E)
    as (trackId & payload & t & stored & _ & Hp & _ & _ & _ & Hf & _ & Hc).
  injection Hp as <-.
  exists resp, w', stored. split_and!; [reflexivity|exact Hf|exact Hc].
Defined.

Lemma created_project_has_first_round_witness :
  let env := Sample.env (Some "u1") in
  let w := Sample.world "pending" [] in
  ∃ resp w' p t init fin,
    run env (CreateProject Cases.project) w = (Ok resp, w')
    ∧ projects (db w') = projects (db w) ++ [p]
    ∧ project_tracks (db w') = project_tracks (db w) ++ [t]
    ∧ Track.project_id t = Project.id p
    ∧ (Project.password_protected p = false →
       Project.access_password p = None)
    ∧ Track.steps t = init ++ [fin]
    ∧ length init = 1
    ∧ final fin = true.
Proof.
  run_sample E.
  destruct (created_project_has_first_round _ _ _ _ _ E)
    as (uid & profile & comments & p & t & init & fin & _ & _ & Hc & Hp & Ht
        & _ & _ & _ & _ & Hpw & Hid & _ & _ & Hsteps & Hlen & _ & _ & Hfin
        & _).
  injection Hc as <-.
  exists resp, w', p, t, init, fin.
  split_and!; [reflexivity|exact Hp|exact Ht|exact Hid|exact Hpw
              |exact Hsteps|exact Hlen|exact Hfin].
Defined.

Lemma failed_track_insert_rolls_back_witness :
  let w := Sample.world "pending" [] in
  db (run Cases.no_tracks (CreateProject Cases.project) w).2 = db w.
Proof.
  cbv zeta.
  apply (failed_track_insert_rolls_back Cases.no_tracks Cases.project).
  - vm_compute. reflexivity.
  - fails.
  - reflexivity.
Defined.

(** The store refuses the track and the delete request of the rollback:
    the request fails with the same message, and the project that was
    inserted stays, without a track. *)
Example failed_rollback_leaves_project :
  let w := Sample.world "pending" [] in
  let '(r, w') := run Cases.no_rollback (CreateProject Cases.project) w in
  r = Err "Failed to create the initial workflow track."
  ∧ Project.id <$> projects (db w') = ["p1"; "new-projects"]
  ∧ Track.project_id <$> project_tracks (db w') = ["p1"].
Proof. vm_compute. done. Qed.

Lemma first_round_is_written_witness :
  let env := Sample.env None in
  let w := Sample.world "pending" [] in
  ∃ resp w' init fin,
    run env (DeliverInitialRound "t1" "https://v.io/1"
               [RoundComment.mk (lit "shorten the intro") None]) w
    = (Ok resp, w')
    ∧ length init = 1
    ∧ Forall (λ s, Step.status s = Completed ∧ final s = false
                   ∧ Step.deliverable_link s = None) init
    ∧ Step.deliverable_link fin = Some "https://v.io/1"
    ∧ Forall2 (λ u u', Track.id u = "t1" →
                       Track.steps u' = init ++ [fin]
                       ∧ Track.status u' = "in_review")
              (project_tracks (db w)) (project_tracks (db w')).
Proof.
  run_sample E.
  destruct (first_round_is_written _
              (DeliverInitialRound "t1" "https://v.io/1"
                 [RoundComment.mk (lit "shorten the intro") None])
              _ _ _ _ _ _ _ _ eq_refl E)
    as (t & init & fin & _ & _ & Hlen & Hall & _ & _ & Hlink & Htracks & _).
  exists resp, w', init, fin.
  split_and!; [reflexivity|exact Hlen|exact Hall|exact Hlink|].
  eapply Forall2_impl; [exact Htracks|]. cbv beta. tauto.
Defined.

Lemma failed_request_keeps_store_witness :
  let w := Sample.world "pending" [] in
  let w' := (run (Sample.env None) (AddReviewComment Cases.add_with_gif) w).2 in
  db w' = db w ∧ requests w' = [Sample.png "a.png"].
Proof.
  cbv zeta. split; [|vm_compute; reflexivity].
  eapply (failed_request_keeps_store (Sample.env None)
            (AddReviewComment Cases.add_with_gif)).
  - discriminate.
  - vm_compute. reflexivity.
Defined.

Lemma requests_write_their_tables_witness :
  let w := Cases.commented in
  let w' := (run (Sample.env (Some "u1")) (DeleteReviewComment "k1") w).2 in
  editor_profiles (db w') = editor_profiles (db w)
  ∧ requests w `prefix_of` requests w'
  ∧ (writes_comments (DeleteReviewComment "k1") = false →
     review_comments (db w') = review_comments (db w))
  ∧ (writes_comments (DeleteReviewComment "k1") = true →
     project_tracks (db w') = project_tracks (db w)
     ∧ projects (db w') = projects (db w))
  ∧ (writes_projects (DeleteReviewComment "k1") = false →
     projects (db w') = projects (db w)).
Proof.
  cbv zeta.
  eapply (requests_write_their_tables (Sample.env (Some "u1"))
            (DeleteReviewComment "k1")); [reflexivity|].
  apply surjective_pairing.
Defined.

Lemma fresh_round_reads_as_new_witness :
  let env := Sample.env (Some "u1") in
  let w := Sample.world "pending" [] in
  ∃ resp w' t,
    run env (CreateProject Cases.project) w = (Ok resp, w')
    ∧ last (project_tracks (db w')) = Some t
    ∧ AllProjectsPageClient.isNewRound (Some t) = true.
Proof.
  run_sample E.
  destruct (fresh_round_reads_as_new _ _ _ _ _ E) as [(t & Ht & Hnew) _].
  exists resp, w', t. split_and!; [reflexivity|exact Ht|exact Hnew].
Defined.

Lemma protected_page_asks_for_password_witness :
  ReviewRoute.Page (Sample.env None) Cases.protected ∅ "t1"
  = ReviewRoute.PasswordProtectionPage "t1" "p1".
Proof.
  apply (protected_page_asks_for_password (Sample.env None) Cases.protected
           ∅ "t1" Cases.delivered
           (Project.mk "p1" "e1" "Trailer" "active" "Ann" true
              (Some "secret")));
    try reflexivity; discriminate.
Defined.

Lemma right_password_opens_the_page_witness :
  let env := Sample.env None in
  let v := ReviewRoute.verifyProjectPassword Cases.protected "p1" "secret" ∅ in
  ReviewRoute.success v.1 = true
  ∧ ReviewRoute.Page env Cases.protected v.2 "t1"
    ≠ ReviewRoute.PasswordProtectionPage "t1" "p1".
Proof.
  cbv zeta.
  destruct (right_password_opens_the_page (Sample.env None) Cases.protected
              ∅ "t1" "secret" Cases.delivered
              (Project.mk "p1" "e1" "Trailer" "active" "Ann" true
                 (Some "secret")))
    as (Hiff & Hopen & _); try reflexivity; try discriminate.
  assert (Hok : ReviewRoute.success
                  (ReviewRoute.verifyProjectPassword Cases.protected "p1"
                     "secret" ∅).1 = true).
  { apply Hiff. split; [discriminate|reflexivity]. }
  split; [exact Hok|exact (Hopen Hok)].
Defined.


End SampleFacts.

Module ProjectSettingsFacts.
Import WorkflowFacts ProjectSettings.

Lemma single_filter_elem {A} (P : A → Prop) `{∀ x, Decision (P x)}
    (l : list A) (x : A) :
  single (filter P l) = Some x → x ∈ l.
Proof.
  intros Hs. assert (Hin : x ∈ filter P l).
  { destruct (filter P l) as [|z [|z' rest]]; simplify_eq/=. by left. }
  by apply list_elem_of_filter in Hin as [_ ?].
Qed.

Lemma owned_project_edits env st projectId denied p :
  owned_project env st projectId denied = Ok p →
  edits env st p ∧ Row.id p = projectId.
Proof.
  unfold owned_project.
  destruct (session env) as [uid|] eqn:Eu; [|done].
  destruct (single (filter _ (editor_profiles st))) as [profile|] eqn:Ep;
    [|done].
  destruct (single (filter _ (projects st))) as [q|] eqn:Eq; [|done].
  intros [= ->].
  pose proof (single_filter_holds _ _ _ Eq) as [Hid Hed].
  split; [|done]. exists uid, profile. split_and!; try done.
  - by eapply single_filter_elem.
  - by apply (single_filter_holds _ _ _ Ep).
  - by eapply single_filter_elem.
Qed.

Lemma truthy_text_trim t :
  truthy_text (Some t) && truthy_text (trim <$> Some t) = true →
  trim t ≠ [].
Proof.
  intros [_ H]%andb_true_iff. cbn in H. by destruct (trim t).
Qed.

(** X29. A project is updated only by its editor, with a title and a client
    name that are not blank and a title of at most 255 characters.  The
    rows of the project get the trimmed title and client name; protection
    is on exactly when the form says [true]; a password that is sent is
    stored trimmed; without one the password is cleared when protection is
    off and kept when it is on.  Protection is switched on for a project
    that had none only when the password field is not empty, and the field
    is checked as it is sent, not trimmed: with a password of blanks the
    request succeeds and the project is protected with the empty password.
    Every other row stays as it was.  With unique ids, every protected
    project has a password that is not empty after the request when this
    was so before and the request does not switch protection on with a
    blank password. *)
Theorem updated_project_follows_the_form (env : Env) (projectId : string)
    (form : Form.t) (st st' : Store) (resp : Response) :
  updateProject env projectId form st = (Ok resp, st') →
  ∃ old title client,
    edits env st old
    ∧ Row.id old = projectId
    ∧ Form.title form = Some title
    ∧ trim title ≠ []
    ∧ length title ≤ 255
    ∧ Form.client_name form = Some client
    ∧ trim client ≠ []
    ∧ (Form.password_protected form = Some "true" →
       Row.password_protected old = false →
       ∃ pw, Form.access_password form = Some pw ∧ pw ≠ [])
    ∧ Forall2
        (λ p p',
           Row.id p' = Row.id p
           ∧ Row.editor_id p' = Row.editor_id p
           ∧ (Row.id p ≠ projectId → p' = p)
           ∧ (Row.id p = projectId →
              Row.title p' = trim title
              ∧ Row.client_name p' = trim client
              ∧ (Row.password_protected p' = true
                 ↔ Form.password_protected form = Some "true")
              ∧ Row.access_password p'
                = match Form.access_password form with
                  | Some pw => Some (trim pw)
                  | None =>
                      if Row.password_protected p'
                      then Row.access_password p else None
                  end))
        (projects st) (projects st')
    ∧ editor_profiles st' = editor_profiles st
    ∧ (∀ pw, Form.password_protected form = Some "true" →
             Form.access_password form = Some pw → trim pw = [] →
             ∃ p', p' ∈ projects st' ∧ Row.id p' = projectId
                   ∧ Row.password_protected p' = true
                   ∧ Row.access_password p' = Some []
                   ∧ ¬ well_protected p')
    ∧ (NoDup (Row.id <$> projects st) →
       Forall well_protected (projects st) →
       (∀ pw, Form.password_protected form = Some "true" →
              Form.access_password form = Some pw → trim pw ≠ []) →
       Forall well_protected (projects st')).
Proof.
  unfold updateProject.
  destruct (owned_project _ _ _ _) as [old|msg] eqn:Eo; [|done].
  apply owned_project_edits in Eo as [Hedits Hid].
  cbv zeta.
  destruct (negb (truthy_text (Form.title form) && _)) eqn:Et; [done|].
  destruct (255 <? _) eqn:El; [done|].
  destruct (negb (truthy_text (Form.client_name form) && _)) eqn:Ec; [done|].
  destruct (bool_decide (Form.password_protected form = Some "true")
            && negb (Row.password_protected old)
            && negb (truthy_text (Form.access_password form))) eqn:Ep;
    [done|].
  destruct (write_ok env "projects"); [|done]. intros [= <- <-].
  apply negb_false_iff in Et, Ec. apply Nat.ltb_ge in El.
  destruct (Form.title form) as [title|] eqn:Etitle; [|done].
  destruct (Form.client_name form) as [client|] eqn:Eclient; [|done].
  apply truthy_text_trim in Et, Ec. cbn [default] in *.
  assert (Hpw : Form.password_protected form = Some "true" →
                Row.password_protected old = false →
                ∃ pw, Form.access_password form = Some pw ∧ pw ≠ []).
  { intros Hon Hoff. rewrite Hoff, bool_decide_true in Ep by done.
    cbn in Ep. apply negb_false_iff in Ep.
    destruct (Form.access_password form) as [[|c pw]|]; try done.
    by eexists. }
  exists old, title, client. split_and!; try done.
  - cbn [projects].
    apply Forall2_fmap_r, Forall_Forall2_diag, Forall_forall.
    intros p _. unfold compose.
    destruct (decide (Row.id p = projectId)) as [Hp|Hp]; cbn;
      [|split_and!; done].
    split_and!; try done.
    intros _. split_and!; try done.
    + apply bool_decide_eq_true.
    + destruct (Form.access_password form); [done|].
      by destruct (bool_decide _).
  - intros pw Hon Hsent Hblank. cbn [projects].
    destruct Hedits as (? & ? & _ & _ & _ & _ & Hold).
    eexists. split.
    { apply list_elem_of_fmap. exists old. split; [reflexivity|exact Hold]. }
    rewrite decide_True by done. cbn.
    rewrite Hsent, Hblank, bool_decide_true by done.
    split_and!; try done.
    unfold well_protected. cbn. intros Hwell.
    destruct (Hwell eq_refl) as (pw' & [= <-] & Hne). done.
  - intros Hnd Hall Hform. cbn [projects].
    apply Forall_fmap, Forall_forall. intros p Hin. unfold compose.
    destruct (decide (Row.id p = projectId)) as [Hp|Hp];
      [|by eapply Forall_forall in Hall].
    assert (p = old) as ->.
    { destruct Hedits as (? & ? & _ & _ & _ & _ & Hold).
      apply list_elem_of_lookup in Hin as [i Hi].
      apply list_elem_of_lookup in Hold as [j Hj].
      assert (i = j) as ->; [|congruence].
      eapply NoDup_lookup; [exact Hnd| |];
        rewrite list_lookup_fmap; [by rewrite Hi|rewrite Hj; cbn; congruence]. }
    unfold well_protected. cbn. intros Hon%bool_decide_eq_true.
    destruct (Form.access_password form) as [pw|] eqn:Epw.
    { exists (trim pw). split; [done|]. by apply Hform. }
    rewrite bool_decide_true by done. cbn.
    destruct (Row.password_protected old) eqn:Eold.
    + eapply Forall_forall in Hall; [|exact Hin]. by apply Hall.
    + destruct (Hpw Hon eq_refl) as (pw & [=] & _).
Qed.

(** X30. Only the editor of a project updates or deletes it; a request that
    fails changes nothing; a deletion that succeeds leaves no row with the
    id of the project and keeps the other rows, in their order, and the
    profiles. *)
Theorem project_actions_require_owner (env : Env) (code projectId : string)
    (form : Form.t) (st : Store) :
  (∀ r st', updateProject env projectId form st = (r, st') →
     match r with
     | Ok _ => ∃ p, edits env st p ∧ Row.id p = projectId
     | Err _ => st' = st
     end)
  ∧ (∀ r st', deleteProject env code projectId st = (r, st') →
       match r with
       | Ok _ =>
           (∃ p, edits env st p ∧ Row.id p = projectId)
           ∧ projects st' = filter (λ p, Row.id p ≠ projectId) (projects st)
           ∧ Forall (λ p, Row.id p ≠ projectId) (projects st')
           ∧ editor_profiles st' = editor_profiles st
       | Err _ => st' = st
       end).
Proof.
  split; intros r st'.
  - unfold updateProject.
    destruct (owned_project _ _ _ _) as [old|msg] eqn:Eo;
      [|by intros [= <- <-]].
    apply owned_project_edits in Eo. cbv zeta.
    repeat case_match; intros [= <- <-]; try done.
    all: by exists old.
  - unfold deleteProject.
    destruct (owned_project _ _ _ _) as [old|msg] eqn:Eo;
      [|by intros [= <- <-]].
    apply owned_project_edits in Eo.
    repeat case_match; intros [= <- <-]; try done.
    all: split_and!; try done; [by exists old|].
    all: apply Forall_forall; by intros p [? _]%list_elem_of_filter.
Qed.

Lemma updated_project_follows_the_form_witness :
  let env := Sample.env (Some "u1") in
  ∃ resp st' old title client,
    updateProject env "p1" SettingsCases.protect SettingsCases.store
    = (Ok resp, st')
    ∧ edits env SettingsCases.store old
    ∧ Form.title SettingsCases.protect = Some title
    ∧ trim title ≠ []
    ∧ Form.client_name SettingsCases.protect = Some client
    ∧ Forall well_protected (projects st').
Proof.
  cbv zeta.
  destruct (updateProject (Sample.env (Some "u1")) "p1"
              SettingsCases.protect SettingsCases.store)
    as [[resp|msg] st'] eqn:E; [|vm_compute in E; discriminate].
  destruct (updated_project_follows_the_form _ _ _ _ _ _ E)
    as (old & title & client & Hed & _ & Ht & Htrim & _ & Hc & _ & _ & _ & _
        & _ & Hinv).
  exists resp, st', old, title, client.
  split_and!; [reflexivity|exact Hed|exact Ht|exact Htrim|exact Hc|].
  apply Hinv.
  - apply (bool_decide_unpack _). vm_compute. reflexivity.
  - repeat constructor; unfold well_protected; cbn; [discriminate|].
    intros _. eexists. split; [reflexivity|discriminate].
  - intros pw _ [= <-]. vm_compute. discriminate.
Defined.

(** Protection is switched on with a password of three blanks: the request
    succeeds and the project is protected with the empty password. *)
Example blank_password_is_stored_empty :
  let '(r, st') := updateProject (Sample.env (Some "u1")) "p1"
                     SettingsCases.blank SettingsCases.store in
  r = Ok (Message "Project updated successfully.")
  ∧ (λ p, (Row.password_protected p, Row.access_password p))
    <$> head (projects st')
    = Some (true, Some []).
Proof. vm_compute. done. Qed.

End ProjectSettingsFacts.
